(** * A shallow embedding of the Salesforce integration repository

    Each module below embeds one source file: the settings validators
    ([integration/config/project_settings.py]), the queue construct
    ([infrastructure/constructs/sqs.py]), the OIDC provisioning script
    ([scripts/create_github_oidc_role.py]), the branch-creation command
    ([scripts/create_repos_and_branches.py]), the [TimeRange] model
    ([integration/models/time_range.py]) and the Lambda handler
    ([handlers/do_something.py]).

    Third-party services (AWS IAM, STS, Secrets Manager, the GitHub REST
    API) and library calls whose results the code only passes along are
    parameters of the model; everything the repository's own code decides
    is written out. *)

From Stdlib Require Import ZArith Ascii String List Lia Bool DecimalString.
From stdpp Require Import base option list strings gmap.

Local Open Scope string_scope.
Local Open Scope list_scope.

(** ** Python string operations used by the sources *)

Module PyStr.

(** A Python [str] is modelled by the bytes of its UTF-8 text.  On a
    string of ASCII characters ([is_ascii]) a byte is a character, and
    the functions below are the methods of [str]: [len] is the number of
    bytes, [strip()] removes the ASCII whitespace and [lower()] maps the
    letters A to Z.  Outside ASCII the methods of [str] count and
    classify code points (U+00A0 is whitespace, U+212A has a lower case),
    which the functions below do not: a statement that depends on
    whitespace, case or length takes [is_ascii] of its input as a
    hypothesis. *)
Definition is_ascii_char (c : ascii) : bool := (nat_of_ascii c <? 128)%nat.

Fixpoint is_ascii (s : string) : bool :=
  match s with
  | EmptyString => true
  | String c s' => is_ascii_char c && is_ascii s'
  end.

(** [str.lower] on the ASCII range. *)
Definition lower_ascii (c : ascii) : ascii :=
  let n := nat_of_ascii c in
  if (65 <=? n)%nat && (n <=? 90)%nat then ascii_of_nat (n + 32) else c.

Fixpoint lower (s : string) : string :=
  match s with
  | EmptyString => EmptyString
  | String c s' => String (lower_ascii c) (lower s')
  end.

(** [s.lstrip(chars)], [s.rstrip(chars)] and [s.strip(chars)] for a
    set of characters given as a predicate. *)
Fixpoint lstrip (p : ascii -> bool) (s : string) : string :=
  match s with
  | EmptyString => EmptyString
  | String c s' => if p c then lstrip p s' else s
  end.

Fixpoint rstrip (p : ascii -> bool) (s : string) : string :=
  match s with
  | EmptyString => EmptyString
  | String c s' =>
      match rstrip p s' with
      | EmptyString => if p c then EmptyString else String c EmptyString
      | r => String c r
      end
  end.

Definition strip (p : ascii -> bool) (s : string) : string :=
  rstrip p (lstrip p s).

Definition is_space (c : ascii) : bool := Ascii.eqb c " "%char.

(** The characters [str.strip()] removes when called without argument
    (the ASCII ones: tab, newline, vertical tab, form feed, carriage
    return, the four separators 28..31 and the space). *)
Definition is_whitespace (c : ascii) : bool :=
  let n := nat_of_ascii c in
  ((9 <=? n)%nat && (n <=? 13)%nat)
  || ((28 <=? n)%nat && (n <=? 32)%nat).

(** [s.startswith(p)] *)
Fixpoint startswith (p s : string) : bool :=
  match p, s with
  | EmptyString, _ => true
  | String a p', String b s' => Ascii.eqb a b && startswith p' s'
  | String _ _, EmptyString => false
  end.

(** [s.endswith(p)] *)
Fixpoint endswith_from (p s : string) : bool :=
  String.eqb p s
  || match s with
     | EmptyString => false
     | String _ s' => endswith_from p s'
     end.

Definition endswith (s p : string) : bool := endswith_from p s.

(** [sep.join(parts)] *)
Fixpoint join (sep : string) (parts : list string) : string :=
  match parts with
  | [] => ""
  | [x] => x
  | x :: rest => x ++ sep ++ join sep rest
  end.

(** [s.replace(old, new)] for a non-empty [old]: occurrences are
    replaced from the left and do not overlap.  [skip] counts the
    characters of an occurrence still to be dropped. *)
Fixpoint replace_from (old new : string) (skip : nat) (s : string) : string :=
  match s with
  | EmptyString => EmptyString
  | String c s' =>
      match skip with
      | S k => replace_from old new k s'
      | O =>
          if startswith old s
          then new ++ replace_from old new (String.length old - 1) s'
          else String c (replace_from old new 0 s')
      end
  end.

(** With an empty [old], Python puts [new] before every character and
    at the end. *)
Fixpoint intersperse (new s : string) : string :=
  match s with
  | EmptyString => new
  | String c s' => new ++ String c (intersperse new s')
  end.

Definition replace (s old new : string) : string :=
  match old with
  | EmptyString => intersperse new s
  | _ => replace_from old new 0 s
  end.

(** [s.split(sep)] for a one-character separator. *)
Fixpoint split (sep : ascii) (s : string) : list string :=
  match s with
  | EmptyString => [EmptyString]
  | String c s' =>
      if Ascii.eqb c sep then EmptyString :: split sep s'
      else match split sep s' with
           | [] => [String c EmptyString]
           | w :: ws => String c w :: ws
           end
  end.

(** Truthiness of a string: [bool(s)]. *)
Definition truthy (s : string) : bool :=
  match s with EmptyString => false | _ => true end.

Example lower_mixed : lower "S3_Bucket" = "s3_bucket".
Proof. reflexivity. Qed.

Example strip_spaces : strip is_space "  Null " = "Null".
Proof. reflexivity. Qed.

Example replace_prefix : replace "S3_BUCKET_STORAGE" "S3_BUCKET_" "" = "STORAGE".
Proof. reflexivity. Qed.

Example replace_all : replace "a_b__c" "_" "-" = "a-b--c".
Proof. reflexivity. Qed.

Example replace_no_overlap : replace "aaa" "aa" "b" = "ba".
Proof. reflexivity. Qed.

Example split_commas : split "," "a,,b," = ["a"; ""; "b"; ""].
Proof. reflexivity. Qed.

Example endswith_fifo : endswith "jobs.fifo" ".fifo" = true.
Proof. reflexivity. Qed.


(** *** Facts about the string operations *)

(** The last character of a string. *)
Fixpoint last_char (s : string) : option ascii :=
  match s with
  | EmptyString => None
  | String c EmptyString => Some c
  | String _ s' => last_char s'
  end.

Lemma last_char_app a b : b <> EmptyString -> last_char (a ++ b) = last_char b.
Proof.
  intros Hb. induction a as [| c a IH]; [reflexivity |].
  change (String c a ++ b)%string with (String c (a ++ b)).
  destruct (a ++ b)%string as [| d t] eqn:E.
  - destruct a as [| e a'].
    + change (b = EmptyString) in E. contradiction.
    + change (String e (a' ++ b) = EmptyString) in E. discriminate E.
  - change (last_char (String c (String d t))) with (last_char (String d t)).
    exact IH.
Qed.

Lemma endswith_from_spec p s :
  endswith_from p s = true <-> exists a, s = (a ++ p)%string.
Proof.
  induction s as [| c s IH]; cbn [endswith_from].
  - rewrite orb_false_r, String.eqb_eq. split.
    + intros ->. now exists EmptyString.
    + intros [[| c a] H].
      * change (EmptyString = p) in H. now subst.
      * change (EmptyString = String c (a ++ p)) in H. discriminate H.
  - rewrite orb_true_iff, String.eqb_eq, IH. split.
    + intros [-> | [a ->]]; [now exists EmptyString | now exists (String c a)].
    + intros [[| c' a] H].
      * left. change (String c s = p) in H. congruence.
      * right. change (String c s = String c' (a ++ p)) in H.
        injection H as _ ->. now exists a.
Qed.

Lemma endswith_spec s p : endswith s p = true <-> exists a, s = (a ++ p)%string.
Proof. apply endswith_from_spec. Qed.

Lemma endswith_app a p : endswith (a ++ p) p = true.
Proof. apply endswith_spec. now exists a. Qed.

(** Two strings with different last characters: neither ends with the
    other. *)
Lemma endswith_last_char s p :
  p <> EmptyString -> last_char s <> last_char p -> endswith s p = false.
Proof.
  intros Hp Hlast. destruct (endswith s p) eqn:E; [| reflexivity].
  apply endswith_spec in E as [a ->]. now rewrite last_char_app in Hlast.
Qed.

Lemma lstrip_head p s c s' : lstrip p s = String c s' -> p c = false.
Proof.
  induction s as [| d s IH]; cbn; [discriminate |].
  destruct (p d) eqn:E; [exact IH |]. intros H. injection H as <- _. exact E.
Qed.

Lemma lstrip_fixed p c s : p c = false -> lstrip p (String c s) = String c s.
Proof. intros H. cbn. now rewrite H. Qed.

Lemma rstrip_head p c s : p c = false -> exists r, rstrip p (String c s) = String c r.
Proof.
  intros H. cbn [rstrip]. destruct (rstrip p s); [rewrite H |]; now eexists.
Qed.

Lemma rstrip_idempotent p s : rstrip p (rstrip p s) = rstrip p s.
Proof.
  induction s as [| c s IH]; [reflexivity |]. cbn [rstrip].
  destruct (rstrip p s) as [| d r] eqn:E.
  - destruct (p c) eqn:Hc; [reflexivity |]. cbn. now rewrite Hc.
  - change (rstrip p (String c (String d r)))
      with (match rstrip p (String d r) with
            | EmptyString => if p c then EmptyString else String c EmptyString
            | String d' r' => String c (String d' r')
            end).
    now rewrite IH.
Qed.

(** Stripping twice is stripping once. *)
Lemma strip_idempotent p s : strip p (strip p s) = strip p s.
Proof.
  unfold strip. destruct (lstrip p s) as [| c t] eqn:E; [reflexivity |].
  pose proof (lstrip_head p s c t E) as Hc.
  destruct (rstrip_head p c t Hc) as [r Hr]. rewrite Hr.
  rewrite (lstrip_fixed p c r Hc), <- Hr. apply rstrip_idempotent.
Qed.

Lemma truthy_nonempty s : truthy s = true <-> s <> EmptyString.
Proof. destruct s; cbn; split; congruence. Qed.


(** [c in s] for a character. *)
Fixpoint has_char (c : ascii) (s : string) : bool :=
  match s with
  | EmptyString => false
  | String d s' => Ascii.eqb d c || has_char c s'
  end.

(** A string without the separator is one piece; a separator after such
    a string ends the first piece. *)
Lemma split_one sep a : has_char sep a = false -> split sep a = [a].
Proof.
  induction a as [| c a IH]; [reflexivity |]. cbn [has_char split].
  intros H. apply orb_false_iff in H as [Hc Ha]. rewrite Hc, (IH Ha). reflexivity.
Qed.

Lemma split_cons sep a b :
  has_char sep a = false ->
  split sep (a ++ String sep b) = a :: split sep b.
Proof.
  induction a as [| c a IH]; intros H.
  - change (EmptyString ++ String sep b)%string with (String sep b).
    cbn [split]. now rewrite Ascii.eqb_refl.
  - cbn [has_char] in H. apply orb_false_iff in H as [Hc Ha].
    change (String c a ++ String sep b)%string with (String c (a ++ String sep b)).
    cbn [split]. now rewrite Hc, (IH Ha).
Qed.


(** The pieces of a split do not contain the separator. *)
Lemma split_no_sep sep s x : In x (split sep s) -> has_char sep x = false.
Proof.
  revert x. induction s as [| c s IH]; intros x Hin.
  - destruct Hin as [<- | []]. reflexivity.
  - cbn [split] in Hin. destruct (Ascii.eqb c sep) eqn:Hc.
    + destruct Hin as [<- | Hin]; [reflexivity | now apply IH].
    + destruct (split sep s) as [| w ws].
      * destruct Hin as [<- | []]. cbn [has_char]. now rewrite Hc.
      * destruct Hin as [<- | Hin].
        -- cbn [has_char]. rewrite Hc. apply IH. now left.
        -- apply IH. now right.
Qed.

Lemma has_char_lstrip c p s : has_char c s = false -> has_char c (lstrip p s) = false.
Proof.
  induction s as [| d s IH]; [reflexivity |]. intros H. cbn [lstrip].
  destruct (p d); [| exact H].
  cbn [has_char] in H. apply orb_false_iff in H as [_ H]. now apply IH.
Qed.

Lemma has_char_rstrip c p s : has_char c s = false -> has_char c (rstrip p s) = false.
Proof.
  induction s as [| d s IH]; [reflexivity |]. intros H.
  cbn [has_char] in H. apply orb_false_iff in H as [Hd H]. cbn [rstrip].
  specialize (IH H). destruct (rstrip p s) as [| e r].
  - destruct (p d); [reflexivity |]. cbn [has_char]. now rewrite Hd.
  - cbn [has_char] in *. now rewrite Hd, IH.
Qed.

Lemma has_char_strip c p s : has_char c s = false -> has_char c (strip p s) = false.
Proof. intros H. unfold strip. now apply has_char_rstrip, has_char_lstrip. Qed.

(** What [strip] leaves neither starts nor ends with a stripped
    character. *)
Lemma strip_head p s c t : strip p s = String c t -> p c = false.
Proof.
  unfold strip. destruct (lstrip p s) as [| d u] eqn:E; [discriminate |].
  pose proof (lstrip_head p s d u E) as Hd.
  destruct (rstrip_head p d u Hd) as [r ->]. intros H. now injection H as <- _.
Qed.

Lemma rstrip_last p s c : last_char (rstrip p s) = Some c -> p c = false.
Proof.
  induction s as [| d s IH]; [discriminate |]. cbn [rstrip].
  destruct (rstrip p s) as [| e r].
  - destruct (p d) eqn:Hd; [discriminate |]. intros H. injection H as <-. exact Hd.
  - exact IH.
Qed.

Lemma strip_last p s c : last_char (strip p s) = Some c -> p c = false.
Proof. apply rstrip_last. Qed.


(** [s[:n]] for [n >= 0]: the first [n] characters, or all of [s]. *)
Fixpoint slice_to (n : nat) (s : string) : string :=
  match n, s with
  | O, _ => EmptyString
  | S _, EmptyString => EmptyString
  | S k, String c s' => String c (slice_to k s')
  end.

Lemma length_app (a b : string) :
  String.length (a ++ b) = (String.length a + String.length b)%nat.
Proof.
  induction a as [| c a IH]; [reflexivity |].
  change (String c a ++ b)%string with (String c (a ++ b)).
  cbn [String.length]. now rewrite IH.
Qed.



End PyStr.

(** ** Results of calls that may raise *)

Inductive result (E A : Type) : Type :=
| Ok (a : A)
| Raise (e : E).
Arguments Ok {E A} a.
Arguments Raise {E A} e.

Definition rbind {E A B} (r : result E A) (k : A -> result E B) : result E B :=
  match r with
  | Ok a => k a
  | Raise e => Raise e
  end.

Declare Scope result_scope.
Delimit Scope result_scope with result.
Notation "'let*' x ':=' r 'in' k" := (rbind r (fun x => k))
  (at level 10, x name, r at level 100, k at level 200) : result_scope.

(** ** [integration/config/project_settings.py] and [integration/config/utils.py] *)

Module ProjectSettings.

Inductive Environment := testing | development | staging | production.

Definition Environment_str (e : Environment) : string :=
  match e with
  | testing => "testing"
  | development => "development"
  | staging => "staging"
  | production => "production"
  end.

(** Validation of the [Literal[...]] annotation of [ENVIRONMENT]. *)
Definition parse_Environment (s : string) : option Environment :=
  if String.eqb s "testing" then Some testing
  else if String.eqb s "development" then Some development
  else if String.eqb s "staging" then Some staging
  else if String.eqb s "production" then Some production
  else None.

(** Lax validation of a [bool] field from a string. *)
Definition parse_bool (s : string) : option bool :=
  let l := PyStr.lower s in
  if existsb (String.eqb l) ["1"; "on"; "t"; "true"; "y"; "yes"] then Some true
  else if existsb (String.eqb l) ["0"; "off"; "f"; "false"; "n"; "no"] then Some false
  else None.

Record Settings := {
  CLIENT_NAME : string;
  PROJECT_NAME : string;
  PROJECT_SLUG : string;
  PROJECT_DESCRIPTION : string;
  PROJECT_VERSION : string;
  ENVIRONMENT : Environment;
  AWS_RESOURCE_SUFFIX : string;
  AWS_ACCOUNT_ID : string;
  AWS_REGION : string;
  XRAY_ENABLED : bool;
  S3_BUCKET_STORAGE : string;
  SQS_QUEUE_MESSAGES : string
}.

(** [info.data]: the fields validated so far.  A field that failed its
    validation is absent. *)
Record Data := {
  d_CLIENT_NAME : option string;
  d_PROJECT_NAME : option string;
  d_PROJECT_SLUG : option string;
  d_PROJECT_DESCRIPTION : option string;
  d_PROJECT_VERSION : option string;
  d_ENVIRONMENT : option Environment;
  d_AWS_RESOURCE_SUFFIX : option string;
  d_AWS_ACCOUNT_ID : option string;
  d_AWS_REGION : option string;
  d_XRAY_ENABLED : option bool;
  d_S3_BUCKET_STORAGE : option string;
  d_SQS_QUEUE_MESSAGES : option string
}.

Definition no_data : Data :=
  {| d_CLIENT_NAME := None; d_PROJECT_NAME := None; d_PROJECT_SLUG := None;
     d_PROJECT_DESCRIPTION := None; d_PROJECT_VERSION := None;
     d_ENVIRONMENT := None; d_AWS_RESOURCE_SUFFIX := None;
     d_AWS_ACCOUNT_ID := None; d_AWS_REGION := None; d_XRAY_ENABLED := None;
     d_S3_BUCKET_STORAGE := None; d_SQS_QUEUE_MESSAGES := None |}.

Record ValidationInfo := {
  data : Data;
  field_name : option string
}.

Inductive exception :=
| KeyError (key : string)
| AssertionError
| ValidationError (fields : list string)
| ExternalError (what : string).

(** [d[key]] on a dictionary entry that may be absent. *)
Definition getitem {A} (key : string) (entry : option A) : result exception A :=
  match entry with
  | Some v => Ok v
  | None => Raise (KeyError key)
  end.

Definition changeme : string := "<changeme>".

Local Open Scope result_scope.

Definition construct_aws_resource_suffix (value : string) (info : ValidationInfo)
  : result exception string :=
  if negb (String.eqb value changeme) then Ok value
  else let* e := getitem "ENVIRONMENT" (d_ENVIRONMENT (data info)) in
       Ok (Environment_str e).

(** [boto3.client("sts").get_caller_identity()["Account"]] is the
    parameter [sts_account]. *)
Definition validate_account_id (sts_account : result exception string)
    (value : string) : result exception string :=
  if negb (String.eqb value changeme) then Ok value
  else sts_account.

Definition validate_s3_buckets (value : string) (info : ValidationInfo)
  : result exception string :=
  if negb (String.eqb value changeme) then Ok value
  else
    match field_name info with
    | None => Raise AssertionError
    | Some fname =>
        let* slug := getitem "PROJECT_SLUG" (d_PROJECT_SLUG (data info)) in
        let* suffix := getitem "AWS_RESOURCE_SUFFIX" (d_AWS_RESOURCE_SUFFIX (data info)) in
        Ok (PyStr.join "-"
              [slug; suffix;
               PyStr.replace (PyStr.lower (PyStr.replace fname "S3_BUCKET_" "")) "_" "-"])
    end.

(** The FIFO test is [info.field_name in {}]: membership in an empty
    dictionary. *)
Definition fifo_fields : list string := [].

Definition validate_sqs_queues (value : string) (info : ValidationInfo)
  : result exception string :=
  if negb (String.eqb value changeme) then Ok value
  else
    match field_name info with
    | None => Raise AssertionError
    | Some fname =>
        let* slug := getitem "PROJECT_SLUG" (d_PROJECT_SLUG (data info)) in
        let* suffix := getitem "AWS_RESOURCE_SUFFIX" (d_AWS_RESOURCE_SUFFIX (data info)) in
        let queue_name :=
          PyStr.join "-"
            [slug; suffix;
             PyStr.replace (PyStr.lower (PyStr.replace fname "SQS_QUEUE_" "")) "_" "-"] in
        Ok (if existsb (String.eqb fname) fifo_fields
            then (queue_name ++ ".fifo")%string else queue_name)
    end.

(** *** Validation of a [Settings] instance

    [source] gives the value supplied for a field (constructor
    argument, environment variable or [.env] entry, already merged by
    the settings library), [None] when the field is left to its
    default.  Fields are validated in declaration order; defaults are
    validated like supplied values.  A field whose type validation
    fails, or whose validator raises [AssertionError], is recorded in
    [errors] and left out of [info.data]; any other exception raised
    by a validator leaves the validation at once. *)

Record vstate := {
  vdata : Data;
  errors : list string
}.

Definition field_error (name : string) (st : vstate) : vstate :=
  {| vdata := vdata st; errors := errors st ++ [name] |}.

(** Runs a field validator on a value that passed its type
    validation and stores the outcome with [store]. *)
Definition after_validator {A} (name : string)
    (validator : A -> ValidationInfo -> result exception A)
    (store : A -> Data -> Data) (value : A) (st : vstate)
  : result exception vstate :=
  match validator value {| data := vdata st; field_name := Some name |} with
  | Ok v => Ok {| vdata := store v (vdata st); errors := errors st |}
  | Raise AssertionError => Ok (field_error name st)
  | Raise e => Raise e
  end.

Definition no_validator {A} (value : A) (_ : ValidationInfo) : result exception A :=
  Ok value.

Definition supplied_or (source : string -> option string) (name dflt : string) : string :=
  match source name with
  | Some v => v
  | None => dflt
  end.

Section Validate.
Variable source : string -> option string.
Variable sts_account : result exception string.

Definition set_CLIENT_NAME v d :=
  {| d_CLIENT_NAME := Some v; d_PROJECT_NAME := d_PROJECT_NAME d;
     d_PROJECT_SLUG := d_PROJECT_SLUG d;
     d_PROJECT_DESCRIPTION := d_PROJECT_DESCRIPTION d;
     d_PROJECT_VERSION := d_PROJECT_VERSION d; d_ENVIRONMENT := d_ENVIRONMENT d;
     d_AWS_RESOURCE_SUFFIX := d_AWS_RESOURCE_SUFFIX d;
     d_AWS_ACCOUNT_ID := d_AWS_ACCOUNT_ID d; d_AWS_REGION := d_AWS_REGION d;
     d_XRAY_ENABLED := d_XRAY_ENABLED d;
     d_S3_BUCKET_STORAGE := d_S3_BUCKET_STORAGE d;
     d_SQS_QUEUE_MESSAGES := d_SQS_QUEUE_MESSAGES d |}.
Definition set_PROJECT_NAME v d :=
  {| d_CLIENT_NAME := d_CLIENT_NAME d; d_PROJECT_NAME := Some v;
     d_PROJECT_SLUG := d_PROJECT_SLUG d;
     d_PROJECT_DESCRIPTION := d_PROJECT_DESCRIPTION d;
     d_PROJECT_VERSION := d_PROJECT_VERSION d; d_ENVIRONMENT := d_ENVIRONMENT d;
     d_AWS_RESOURCE_SUFFIX := d_AWS_RESOURCE_SUFFIX d;
     d_AWS_ACCOUNT_ID := d_AWS_ACCOUNT_ID d; d_AWS_REGION := d_AWS_REGION d;
     d_XRAY_ENABLED := d_XRAY_ENABLED d;
     d_S3_BUCKET_STORAGE := d_S3_BUCKET_STORAGE d;
     d_SQS_QUEUE_MESSAGES := d_SQS_QUEUE_MESSAGES d |}.
Definition set_PROJECT_SLUG v d :=
  {| d_CLIENT_NAME := d_CLIENT_NAME d; d_PROJECT_NAME := d_PROJECT_NAME d;
     d_PROJECT_SLUG := Some v;
     d_PROJECT_DESCRIPTION := d_PROJECT_DESCRIPTION d;
     d_PROJECT_VERSION := d_PROJECT_VERSION d; d_ENVIRONMENT := d_ENVIRONMENT d;
     d_AWS_RESOURCE_SUFFIX := d_AWS_RESOURCE_SUFFIX d;
     d_AWS_ACCOUNT_ID := d_AWS_ACCOUNT_ID d; d_AWS_REGION := d_AWS_REGION d;
     d_XRAY_ENABLED := d_XRAY_ENABLED d;
     d_S3_BUCKET_STORAGE := d_S3_BUCKET_STORAGE d;
     d_SQS_QUEUE_MESSAGES := d_SQS_QUEUE_MESSAGES d |}.
Definition set_PROJECT_DESCRIPTION v d :=
  {| d_CLIENT_NAME := d_CLIENT_NAME d; d_PROJECT_NAME := d_PROJECT_NAME d;
     d_PROJECT_SLUG := d_PROJECT_SLUG d;
     d_PROJECT_DESCRIPTION := Some v;
     d_PROJECT_VERSION := d_PROJECT_VERSION d; d_ENVIRONMENT := d_ENVIRONMENT d;
     d_AWS_RESOURCE_SUFFIX := d_AWS_RESOURCE_SUFFIX d;
     d_AWS_ACCOUNT_ID := d_AWS_ACCOUNT_ID d; d_AWS_REGION := d_AWS_REGION d;
     d_XRAY_ENABLED := d_XRAY_ENABLED d;
     d_S3_BUCKET_STORAGE := d_S3_BUCKET_STORAGE d;
     d_SQS_QUEUE_MESSAGES := d_SQS_QUEUE_MESSAGES d |}.
Definition set_PROJECT_VERSION v d :=
  {| d_CLIENT_NAME := d_CLIENT_NAME d; d_PROJECT_NAME := d_PROJECT_NAME d;
     d_PROJECT_SLUG := d_PROJECT_SLUG d;
     d_PROJECT_DESCRIPTION := d_PROJECT_DESCRIPTION d;
     d_PROJECT_VERSION := Some v; d_ENVIRONMENT := d_ENVIRONMENT d;
     d_AWS_RESOURCE_SUFFIX := d_AWS_RESOURCE_SUFFIX d;
     d_AWS_ACCOUNT_ID := d_AWS_ACCOUNT_ID d; d_AWS_REGION := d_AWS_REGION d;
     d_XRAY_ENABLED := d_XRAY_ENABLED d;
     d_S3_BUCKET_STORAGE := d_S3_BUCKET_STORAGE d;
     d_SQS_QUEUE_MESSAGES := d_SQS_QUEUE_MESSAGES d |}.
Definition set_ENVIRONMENT v d :=
  {| d_CLIENT_NAME := d_CLIENT_NAME d; d_PROJECT_NAME := d_PROJECT_NAME d;
     d_PROJECT_SLUG := d_PROJECT_SLUG d;
     d_PROJECT_DESCRIPTION := d_PROJECT_DESCRIPTION d;
     d_PROJECT_VERSION := d_PROJECT_VERSION d; d_ENVIRONMENT := Some v;
     d_AWS_RESOURCE_SUFFIX := d_AWS_RESOURCE_SUFFIX d;
     d_AWS_ACCOUNT_ID := d_AWS_ACCOUNT_ID d; d_AWS_REGION := d_AWS_REGION d;
     d_XRAY_ENABLED := d_XRAY_ENABLED d;
     d_S3_BUCKET_STORAGE := d_S3_BUCKET_STORAGE d;
     d_SQS_QUEUE_MESSAGES := d_SQS_QUEUE_MESSAGES d |}.
Definition set_AWS_RESOURCE_SUFFIX v d :=
  {| d_CLIENT_NAME := d_CLIENT_NAME d; d_PROJECT_NAME := d_PROJECT_NAME d;
     d_PROJECT_SLUG := d_PROJECT_SLUG d;
     d_PROJECT_DESCRIPTION := d_PROJECT_DESCRIPTION d;
     d_PROJECT_VERSION := d_PROJECT_VERSION d; d_ENVIRONMENT := d_ENVIRONMENT d;
     d_AWS_RESOURCE_SUFFIX := Some v;
     d_AWS_ACCOUNT_ID := d_AWS_ACCOUNT_ID d; d_AWS_REGION := d_AWS_REGION d;
     d_XRAY_ENABLED := d_XRAY_ENABLED d;
     d_S3_BUCKET_STORAGE := d_S3_BUCKET_STORAGE d;
     d_SQS_QUEUE_MESSAGES := d_SQS_QUEUE_MESSAGES d |}.
Definition set_AWS_ACCOUNT_ID v d :=
  {| d_CLIENT_NAME := d_CLIENT_NAME d; d_PROJECT_NAME := d_PROJECT_NAME d;
     d_PROJECT_SLUG := d_PROJECT_SLUG d;
     d_PROJECT_DESCRIPTION := d_PROJECT_DESCRIPTION d;
     d_PROJECT_VERSION := d_PROJECT_VERSION d; d_ENVIRONMENT := d_ENVIRONMENT d;
     d_AWS_RESOURCE_SUFFIX := d_AWS_RESOURCE_SUFFIX d;
     d_AWS_ACCOUNT_ID := Some v; d_AWS_REGION := d_AWS_REGION d;
     d_XRAY_ENABLED := d_XRAY_ENABLED d;
     d_S3_BUCKET_STORAGE := d_S3_BUCKET_STORAGE d;
     d_SQS_QUEUE_MESSAGES := d_SQS_QUEUE_MESSAGES d |}.
Definition set_AWS_REGION v d :=
  {| d_CLIENT_NAME := d_CLIENT_NAME d; d_PROJECT_NAME := d_PROJECT_NAME d;
     d_PROJECT_SLUG := d_PROJECT_SLUG d;
     d_PROJECT_DESCRIPTION := d_PROJECT_DESCRIPTION d;
     d_PROJECT_VERSION := d_PROJECT_VERSION d; d_ENVIRONMENT := d_ENVIRONMENT d;
     d_AWS_RESOURCE_SUFFIX := d_AWS_RESOURCE_SUFFIX d;
     d_AWS_ACCOUNT_ID := d_AWS_ACCOUNT_ID d; d_AWS_REGION := Some v;
     d_XRAY_ENABLED := d_XRAY_ENABLED d;
     d_S3_BUCKET_STORAGE := d_S3_BUCKET_STORAGE d;
     d_SQS_QUEUE_MESSAGES := d_SQS_QUEUE_MESSAGES d |}.
Definition set_XRAY_ENABLED v d :=
  {| d_CLIENT_NAME := d_CLIENT_NAME d; d_PROJECT_NAME := d_PROJECT_NAME d;
     d_PROJECT_SLUG := d_PROJECT_SLUG d;
     d_PROJECT_DESCRIPTION := d_PROJECT_DESCRIPTION d;
     d_PROJECT_VERSION := d_PROJECT_VERSION d; d_ENVIRONMENT := d_ENVIRONMENT d;
     d_AWS_RESOURCE_SUFFIX := d_AWS_RESOURCE_SUFFIX d;
     d_AWS_ACCOUNT_ID := d_AWS_ACCOUNT_ID d; d_AWS_REGION := d_AWS_REGION d;
     d_XRAY_ENABLED := Some v;
     d_S3_BUCKET_STORAGE := d_S3_BUCKET_STORAGE d;
     d_SQS_QUEUE_MESSAGES := d_SQS_QUEUE_MESSAGES d |}.
Definition set_S3_BUCKET_STORAGE v d :=
  {| d_CLIENT_NAME := d_CLIENT_NAME d; d_PROJECT_NAME := d_PROJECT_NAME d;
     d_PROJECT_SLUG := d_PROJECT_SLUG d;
     d_PROJECT_DESCRIPTION := d_PROJECT_DESCRIPTION d;
     d_PROJECT_VERSION := d_PROJECT_VERSION d; d_ENVIRONMENT := d_ENVIRONMENT d;
     d_AWS_RESOURCE_SUFFIX := d_AWS_RESOURCE_SUFFIX d;
     d_AWS_ACCOUNT_ID := d_AWS_ACCOUNT_ID d; d_AWS_REGION := d_AWS_REGION d;
     d_XRAY_ENABLED := d_XRAY_ENABLED d;
     d_S3_BUCKET_STORAGE := Some v;
     d_SQS_QUEUE_MESSAGES := d_SQS_QUEUE_MESSAGES d |}.
Definition set_SQS_QUEUE_MESSAGES v d :=
  {| d_CLIENT_NAME := d_CLIENT_NAME d; d_PROJECT_NAME := d_PROJECT_NAME d;
     d_PROJECT_SLUG := d_PROJECT_SLUG d;
     d_PROJECT_DESCRIPTION := d_PROJECT_DESCRIPTION d;
     d_PROJECT_VERSION := d_PROJECT_VERSION d; d_ENVIRONMENT := d_ENVIRONMENT d;
     d_AWS_RESOURCE_SUFFIX := d_AWS_RESOURCE_SUFFIX d;
     d_AWS_ACCOUNT_ID := d_AWS_ACCOUNT_ID d; d_AWS_REGION := d_AWS_REGION d;
     d_XRAY_ENABLED := d_XRAY_ENABLED d;
     d_S3_BUCKET_STORAGE := d_S3_BUCKET_STORAGE d;
     d_SQS_QUEUE_MESSAGES := Some v |}.

(** A [str] field with a default. *)
Definition str_field (name dflt : string)
    (validator : string -> ValidationInfo -> result exception string)
    (store : string -> Data -> Data) (st : vstate) : result exception vstate :=
  after_validator name validator store (supplied_or source name dflt) st.

(** A required field: absent from the sources, it is an error. *)
Definition required_field {A} (name : string) (parse : string -> option A)
    (store : A -> Data -> Data) (st : vstate) : result exception vstate :=
  match source name with
  | None => Ok (field_error name st)
  | Some raw =>
      match parse raw with
      | None => Ok (field_error name st)
      | Some v => after_validator name no_validator store v st
      end
  end.

Definition bool_field (name : string) (dflt : bool)
    (store : bool -> Data -> Data) (st : vstate) : result exception vstate :=
  match source name with
  | None => after_validator name no_validator store dflt st
  | Some raw =>
      match parse_bool raw with
      | None => Ok (field_error name st)
      | Some v => after_validator name no_validator store v st
      end
  end.

Definition validate_fields : result exception vstate :=
  let* st := str_field "CLIENT_NAME" "Kicksaw" no_validator set_CLIENT_NAME
          {| vdata := no_data; errors := [] |} in
  let* st := str_field "PROJECT_NAME" "Salesforce Integration" no_validator
          set_PROJECT_NAME st in
  let* st := str_field "PROJECT_SLUG" "salesforce-integration" no_validator
          set_PROJECT_SLUG st in
  let* st := str_field "PROJECT_DESCRIPTION"
          "Salesforce Integration for Kicksaw by Kicksaw" no_validator
          set_PROJECT_DESCRIPTION st in
  let* st := str_field "PROJECT_VERSION" "0.0.1" no_validator set_PROJECT_VERSION st in
  let* st := required_field "ENVIRONMENT" parse_Environment set_ENVIRONMENT st in
  let* st := str_field "AWS_RESOURCE_SUFFIX" changeme construct_aws_resource_suffix
          set_AWS_RESOURCE_SUFFIX st in
  let* st := str_field "AWS_ACCOUNT_ID" changeme
          (fun v _ => validate_account_id sts_account v) set_AWS_ACCOUNT_ID st in
  let* st := required_field "AWS_REGION" Some set_AWS_REGION st in
  let* st := bool_field "XRAY_ENABLED" true set_XRAY_ENABLED st in
  let* st := str_field "S3_BUCKET_STORAGE" changeme validate_s3_buckets
          set_S3_BUCKET_STORAGE st in
  str_field "SQS_QUEUE_MESSAGES" changeme validate_sqs_queues
    set_SQS_QUEUE_MESSAGES st.

Definition build (d : Data) : option Settings :=
  match d with
  | {| d_CLIENT_NAME := Some a; d_PROJECT_NAME := Some b; d_PROJECT_SLUG := Some c;
       d_PROJECT_DESCRIPTION := Some e; d_PROJECT_VERSION := Some f;
       d_ENVIRONMENT := Some g; d_AWS_RESOURCE_SUFFIX := Some h;
       d_AWS_ACCOUNT_ID := Some i; d_AWS_REGION := Some j; d_XRAY_ENABLED := Some k;
       d_S3_BUCKET_STORAGE := Some l; d_SQS_QUEUE_MESSAGES := Some m |} =>
      Some {| CLIENT_NAME := a; PROJECT_NAME := b; PROJECT_SLUG := c;
              PROJECT_DESCRIPTION := e; PROJECT_VERSION := f; ENVIRONMENT := g;
              AWS_RESOURCE_SUFFIX := h; AWS_ACCOUNT_ID := i; AWS_REGION := j;
              XRAY_ENABLED := k; S3_BUCKET_STORAGE := l; SQS_QUEUE_MESSAGES := m |}
  | _ => None
  end.

(** [Settings()] *)
Definition new_Settings : result exception Settings :=
  let* st := validate_fields in
  match errors st, build (vdata st) with
  | [], Some s => Ok s
  | errs, _ => Raise (ValidationError errs)
  end.

End Validate.

(** A field is left at its default when nothing is supplied for it, or
    when the placeholder itself is supplied. *)
Definition left_at_default (source : string -> option string) (name : string) : Prop :=
  source name = None \/ source name = Some changeme.

Example settings_defaults :
  new_Settings
    (fun k => if String.eqb k "ENVIRONMENT" then Some "staging"
              else if String.eqb k "AWS_REGION" then Some "us-west-2" else None)
    (Ok "123456789012")
  = Ok {| CLIENT_NAME := "Kicksaw"; PROJECT_NAME := "Salesforce Integration";
          PROJECT_SLUG := "salesforce-integration";
          PROJECT_DESCRIPTION := "Salesforce Integration for Kicksaw by Kicksaw";
          PROJECT_VERSION := "0.0.1"; ENVIRONMENT := staging;
          AWS_RESOURCE_SUFFIX := "staging"; AWS_ACCOUNT_ID := "123456789012";
          AWS_REGION := "us-west-2"; XRAY_ENABLED := true;
          S3_BUCKET_STORAGE := "salesforce-integration-staging-storage";
          SQS_QUEUE_MESSAGES := "salesforce-integration-staging-messages" |}.
Proof. reflexivity. Qed.

(** An invalid [ENVIRONMENT] leaves [info.data] without the key the
    suffix validator reads. *)
Example settings_bad_environment :
  new_Settings
    (fun k => if String.eqb k "ENVIRONMENT" then Some "prod"
              else if String.eqb k "AWS_REGION" then Some "us-west-2" else None)
    (Ok "123456789012")
  = Raise (KeyError "ENVIRONMENT").
Proof. reflexivity. Qed.

Section ValidateFacts.
Variable source : string -> option string.
Variable sts_account : result exception string.

Lemma after_validator_clean {A} name
    (validator : A -> ValidationInfo -> result exception A) store value st st' :
  after_validator name validator store value st = Ok st' ->
  errors st' = [] ->
  errors st = [] /\
  exists v, validator value {| data := vdata st; field_name := Some name |} = Ok v
            /\ vdata st' = store v (vdata st).
Proof.
  unfold after_validator. intros H Hclean.
  destruct (validator value _) as [v | e] eqn:Hv.
  - injection H as <-. simpl in *. split; [assumption | now exists v].
  - destruct e; try discriminate.
    injection H as <-. simpl in Hclean.
    destruct (errors st); discriminate.
Qed.

Lemma str_field_clean name dflt validator store st st' :
  str_field source name dflt validator store st = Ok st' ->
  errors st' = [] ->
  errors st = [] /\
  exists v, validator (supplied_or source name dflt)
              {| data := vdata st; field_name := Some name |} = Ok v
            /\ vdata st' = store v (vdata st).
Proof. apply after_validator_clean. Qed.

Lemma field_error_dirty name st : errors (field_error name st) <> [].
Proof. simpl. destruct (errors st); discriminate. Qed.

Lemma required_field_clean {A} name (parse : string -> option A) store st st' :
  required_field source name parse store st = Ok st' ->
  errors st' = [] ->
  errors st = [] /\
  exists raw v, source name = Some raw /\ parse raw = Some v
                /\ vdata st' = store v (vdata st).
Proof.
  unfold required_field. intros H Hclean.
  destruct (source name) as [raw |].
  - destruct (parse raw) as [v |] eqn:Hp.
    + apply after_validator_clean in H; [| assumption].
      destruct H as [He [w [Hw Hd]]]. injection Hw as <-.
      split; [assumption | now exists raw, v].
    + injection H as <-. now destruct (field_error_dirty name st).
  - injection H as <-. now destruct (field_error_dirty name st).
Qed.

Lemma bool_field_clean name dflt store st st' :
  bool_field source name dflt store st = Ok st' ->
  errors st' = [] ->
  errors st = [] /\ exists v, vdata st' = store v (vdata st).
Proof.
  unfold bool_field. intros H Hclean.
  destruct (source name) as [raw |].
  - destruct (parse_bool raw) as [v |].
    + apply after_validator_clean in H; [| assumption].
      destruct H as [He [w [_ Hd]]]. split; [assumption | now exists w].
    + injection H as <-. now destruct (field_error_dirty name st).
  - apply after_validator_clean in H; [| assumption].
    destruct H as [He [w [_ Hd]]]. split; [assumption | now exists w].
Qed.

Lemma rbind_Ok {E A B} (r : result E A) (k : A -> result E B) b :
  rbind r k = Ok b -> exists a, r = Ok a /\ k a = Ok b.
Proof. destruct r as [a | e]; simpl; [now exists a | discriminate]. Qed.

(** What a successful validation has stored for the three fields the
    bucket name is built from, in terms of the validators. *)
Lemma new_Settings_resolved s :
  new_Settings source sts_account = Ok s ->
  exists d5 d6 : Data,
    d_PROJECT_SLUG d5 = Some (PROJECT_SLUG s) /\
    d_ENVIRONMENT d5 = Some (ENVIRONMENT s) /\
    construct_aws_resource_suffix (supplied_or source "AWS_RESOURCE_SUFFIX" changeme)
      {| data := d5; field_name := Some "AWS_RESOURCE_SUFFIX" |}
      = Ok (AWS_RESOURCE_SUFFIX s) /\
    d_PROJECT_SLUG d6 = Some (PROJECT_SLUG s) /\
    d_AWS_RESOURCE_SUFFIX d6 = Some (AWS_RESOURCE_SUFFIX s) /\
    validate_s3_buckets (supplied_or source "S3_BUCKET_STORAGE" changeme)
      {| data := d6; field_name := Some "S3_BUCKET_STORAGE" |}
      = Ok (S3_BUCKET_STORAGE s).
Proof.
  unfold new_Settings. intros H.
  apply rbind_Ok in H as [st [Hfields Hbuild]].
  destruct (errors st) eqn:Herr; [| discriminate].
  destruct (build (vdata st)) as [s' |] eqn:Hb; [| discriminate].
  injection Hbuild as ->.
  unfold validate_fields in Hfields.
  apply rbind_Ok in Hfields as [st1 [H1 Hfields]].
  apply rbind_Ok in Hfields as [st2 [H2 Hfields]].
  apply rbind_Ok in Hfields as [st3 [H3 Hfields]].
  apply rbind_Ok in Hfields as [st4 [H4 Hfields]].
  apply rbind_Ok in Hfields as [st5 [H5 Hfields]].
  apply rbind_Ok in Hfields as [st6 [H6 Hfields]].
  apply rbind_Ok in Hfields as [st7 [H7 Hfields]].
  apply rbind_Ok in Hfields as [st8 [H8 Hfields]].
  apply rbind_Ok in Hfields as [st9 [H9 Hfields]].
  apply rbind_Ok in Hfields as [st10 [H10 Hfields]].
  apply rbind_Ok in Hfields as [st11 [H11 H12]].
  apply str_field_clean in H12 as [E11 [v12 [V12 D12]]]; [| assumption].
  apply str_field_clean in H11 as [E10 [v11 [V11 D11]]]; [| assumption].
  apply bool_field_clean in H10 as [E9 [v10 D10]]; [| assumption].
  apply required_field_clean in H9 as [E8 [r9 [v9 [_ [_ D9]]]]]; [| assumption].
  apply str_field_clean in H8 as [E7 [v8 [_ D8]]]; [| assumption].
  apply str_field_clean in H7 as [E6 [v7 [V7 D7]]]; [| assumption].
  apply required_field_clean in H6 as [E5 [r6 [v6 [_ [_ D6]]]]]; [| assumption].
  apply str_field_clean in H5 as [E4 [v5 [_ D5]]]; [| assumption].
  apply str_field_clean in H4 as [E3 [v4 [_ D4]]]; [| assumption].
  apply str_field_clean in H3 as [E2 [v3 [_ D3]]]; [| assumption].
  apply str_field_clean in H2 as [E1 [v2 [_ D2]]]; [| assumption].
  apply str_field_clean in H1 as [_ [v1 [_ D1]]]; [| assumption].
  exists (vdata st6), (vdata st10).
  rewrite D12, D11 in Hb. rewrite D10, D9, D8, D7 in Hb |- *.
  rewrite D6, D5, D4, D3, D2, D1 in Hb |- *.
  simpl in Hb. injection Hb as <-. simpl.
  rewrite D10, D9, D8, D7, D6, D5, D4, D3, D2, D1 in V11.
  rewrite D6, D5, D4, D3, D2, D1 in V7.
  repeat split; assumption.
Qed.

End ValidateFacts.

Lemma eqb_changeme_false v : v <> changeme -> String.eqb v changeme = false.
Proof. intros H. now apply String.eqb_neq. Qed.

(** C3.  For every successfully validated [Settings]: when
    [S3_BUCKET_STORAGE] is left at ["<changeme>"], the resolved value is
    [PROJECT_SLUG + "-" + AWS_RESOURCE_SUFFIX + "-storage"]; when
    [AWS_RESOURCE_SUFFIX] is left at ["<changeme>"], it resolves to
    [ENVIRONMENT]; and a supplied value other than ["<changeme>"] for
    either field is the resolved value, unchanged. *)
Theorem s3_bucket_storage_resolution source sts_account s :
  new_Settings source sts_account = Ok s ->
  (left_at_default source "S3_BUCKET_STORAGE" ->
     S3_BUCKET_STORAGE s
     = (PROJECT_SLUG s ++ "-" ++ AWS_RESOURCE_SUFFIX s ++ "-storage")%string)
  /\ (left_at_default source "AWS_RESOURCE_SUFFIX" ->
       AWS_RESOURCE_SUFFIX s = Environment_str (ENVIRONMENT s))
  /\ (forall v, source "S3_BUCKET_STORAGE" = Some v -> v <> changeme ->
       S3_BUCKET_STORAGE s = v)
  /\ (forall v, source "AWS_RESOURCE_SUFFIX" = Some v -> v <> changeme ->
       AWS_RESOURCE_SUFFIX s = v).
Proof.
  intros H.
  apply new_Settings_resolved in H
    as [d5 [d6 [Hslug5 [Henv [Hsuffix [Hslug6 [Hsuf6 Hbucket]]]]]]].
  unfold supplied_or in *.
  repeat split.
  - intros Hdef.
    assert (Hv : validate_s3_buckets changeme
                   {| data := d6; field_name := Some "S3_BUCKET_STORAGE" |}
                 = Ok (S3_BUCKET_STORAGE s)).
    { destruct Hdef as [Hd | Hd]; rewrite Hd in Hbucket; exact Hbucket. }
    unfold validate_s3_buckets in Hv. simpl in Hv.
    rewrite Hslug6, Hsuf6 in Hv. simpl in Hv.
    injection Hv as <-. reflexivity.
  - intros Hdef.
    assert (Hv : construct_aws_resource_suffix changeme
                   {| data := d5; field_name := Some "AWS_RESOURCE_SUFFIX" |}
                 = Ok (AWS_RESOURCE_SUFFIX s)).
    { destruct Hdef as [Hd | Hd]; rewrite Hd in Hsuffix; exact Hsuffix. }
    unfold construct_aws_resource_suffix in Hv. simpl in Hv.
    rewrite Henv in Hv. simpl in Hv. now injection Hv as <-.
  - intros v Hsrc Hne. rewrite Hsrc in Hbucket.
    unfold validate_s3_buckets in Hbucket.
    rewrite (eqb_changeme_false v Hne) in Hbucket. simpl in Hbucket.
    now injection Hbucket as <-.
  - intros v Hsrc Hne. rewrite Hsrc in Hsuffix.
    unfold construct_aws_resource_suffix in Hsuffix.
    rewrite (eqb_changeme_false v Hne) in Hsuffix. simpl in Hsuffix.
    now injection Hsuffix as <-.
Qed.

Definition example_source : string -> option string :=
  fun k => if String.eqb k "ENVIRONMENT" then Some "staging"
           else if String.eqb k "AWS_REGION" then Some "us-west-2" else None.

Definition example_settings : Settings :=
  {| CLIENT_NAME := "Kicksaw"; PROJECT_NAME := "Salesforce Integration";
     PROJECT_SLUG := "salesforce-integration";
     PROJECT_DESCRIPTION := "Salesforce Integration for Kicksaw by Kicksaw";
     PROJECT_VERSION := "0.0.1"; ENVIRONMENT := staging;
     AWS_RESOURCE_SUFFIX := "staging"; AWS_ACCOUNT_ID := "123456789012";
     AWS_REGION := "us-west-2"; XRAY_ENABLED := true;
     S3_BUCKET_STORAGE := "salesforce-integration-staging-storage";
     SQS_QUEUE_MESSAGES := "salesforce-integration-staging-messages" |}.

Lemma s3_bucket_storage_resolution_witness :
  new_Settings example_source (Ok "123456789012") = Ok example_settings
  /\ S3_BUCKET_STORAGE example_settings = "salesforce-integration-staging-storage"
  /\ AWS_RESOURCE_SUFFIX example_settings = "staging".
Proof.
  split; [reflexivity |].
  destruct (s3_bucket_storage_resolution example_source (Ok "123456789012")
              example_settings eq_refl) as [Hbucket [Hsuffix _]].
  split.
  - rewrite Hbucket; [reflexivity | left; reflexivity].
  - rewrite Hsuffix; [reflexivity | left; reflexivity].
Defined.

(** *** The [SENTRY_DSN] property *)

(** [get_env_value]: the process environment first, then the [.env]
    files in order.  A file that does not exist is [None]; a key that a
    file lists without a value maps to [None], and that [None] is
    returned. *)
Fixpoint get_env_value_files (files : list (option (gmap string (option string))))
    (key : string) : option string :=
  match files with
  | [] => None
  | None :: rest => get_env_value_files rest key
  | Some env_values :: rest =>
      match env_values !! key with
      | Some v => v
      | None => get_env_value_files rest key
      end
  end.

Definition get_env_value (os_environ : gmap string string)
    (files : list (option (gmap string (option string)))) (key : string)
  : option string :=
  match os_environ !! key with
  | Some v => Some v
  | None => get_env_value_files files key
  end.

(** [value.strip(" ").lower() in {"", "null", "none"}] *)
Definition is_null_like (value : string) : bool :=
  existsb (String.eqb (PyStr.lower (PyStr.strip PyStr.is_space value)))
    [""; "null"; "none"].

Section SentryDsn.
Variable os_environ : gmap string string.
Variable ENV_FILES : list (option (gmap string (option string))).
(** The URL type of the validation library and its constructor, which
    raises on a string that is not an HTTP URL. *)
Variable HttpUrl : Type.
Variable HttpUrl_new : string -> result exception HttpUrl.
(** [get_secret(name)]: the parsed secret, or the exception of the
    lookup. *)
Variable get_secret : string -> result exception (gmap string (option string)).

Definition parse_url (value : string) : result exception (option HttpUrl) :=
  let* url := HttpUrl_new value in Ok (Some url).

(** The property returns its result together with the names of the
    secrets it asked for, in order. *)
Definition SENTRY_DSN (self : Settings)
  : result exception (option HttpUrl) * list string :=
  match get_env_value os_environ ENV_FILES "SENTRY_DSN" with
  | Some env_value =>
      if is_null_like env_value then (Ok None, [])
      else (parse_url env_value, [])
  | None =>
      if String.eqb (Environment_str (ENVIRONMENT self)) "testing"
      then (Ok None, [])
      else
        let secret_name :=
          PyStr.join "-" [PROJECT_SLUG self; "shared-resources"; "sentry-dsn"] in
        (let* secret := get_secret secret_name in
         let* sentry_dsn := getitem "dsn" (secret !! "dsn") in
         match sentry_dsn with
         | None => Ok None
         | Some v => if is_null_like v then Ok None else parse_url v
         end,
         [secret_name])
  end.

End SentryDsn.

(** A value that stands for "no DSN", as a proposition. *)
Definition null_like (value : string) : Prop :=
  let v := PyStr.lower (PyStr.strip PyStr.is_space value) in
  v = "" \/ v = "null" \/ v = "none".

Lemma is_null_like_spec value : is_null_like value = true <-> null_like value.
Proof.
  unfold is_null_like, null_like. simpl.
  rewrite orb_false_r, !orb_true_iff, !String.eqb_eq. tauto.
Qed.

Lemma is_null_like_false value : ~ null_like value -> is_null_like value = false.
Proof.
  intros H. destruct (is_null_like value) eqn:E; [| reflexivity].
  now apply is_null_like_spec in E.
Qed.

Lemma Environment_str_testing e :
  String.eqb (Environment_str e) "testing" = true <-> e = testing.
Proof. destruct e; simpl; split; intros H; try reflexivity; discriminate. Qed.

Example get_env_value_process_first :
  get_env_value {[ "SENTRY_DSN" := "null" ]}
    [Some {[ "SENTRY_DSN" := Some "https://k@sentry.example/1" ]}] "SENTRY_DSN"
  = Some "null".
Proof. reflexivity. Qed.

Example get_env_value_skips_missing_file :
  get_env_value ∅ [None; Some {[ "SENTRY_DSN" := Some " None " ]}] "SENTRY_DSN"
  = Some " None ".
Proof. reflexivity. Qed.

(** C4.  [SENTRY_DSN] resolves in this order.  An environment value, when
    there is one, decides alone: a null-like value (empty, "null" or
    "none" after stripping spaces and lowercasing) gives [None], any
    other is parsed as an HTTP URL, and no secret is looked up.  Without
    an environment value, [ENVIRONMENT = testing] gives [None] without
    any secret lookup.  Otherwise exactly the secret
    [PROJECT_SLUG + "-shared-resources-sentry-dsn"] is looked up and its
    ["dsn"] entry decides: [None] or a null-like value gives [None], any
    other value is parsed as an HTTP URL. *)
Theorem sentry_dsn_resolution
    os_environ ENV_FILES (HttpUrl : Type) (HttpUrl_new : string -> result exception HttpUrl)
    get_secret (self : Settings) :
  let dsn := SENTRY_DSN os_environ ENV_FILES HttpUrl HttpUrl_new get_secret self in
  let env_value := get_env_value os_environ ENV_FILES "SENTRY_DSN" in
  let secret_name := (PROJECT_SLUG self ++ "-shared-resources-sentry-dsn")%string in
  (forall v, env_value = Some v -> null_like v -> dsn = (Ok None, []))
  /\ (forall v, env_value = Some v -> ~ null_like v ->
      dsn = (parse_url HttpUrl HttpUrl_new v, []))
  /\ (env_value = None -> ENVIRONMENT self = testing -> dsn = (Ok None, []))
  /\ (env_value = None -> ENVIRONMENT self <> testing ->
      snd dsn = [secret_name]
      /\ forall secret, get_secret secret_name = Ok secret ->
           (secret !! "dsn" = Some None -> fst dsn = Ok None)
           /\ (forall v, secret !! "dsn" = Some (Some v) -> null_like v ->
               fst dsn = Ok None)
           /\ (forall v, secret !! "dsn" = Some (Some v) -> ~ null_like v ->
               fst dsn = parse_url HttpUrl HttpUrl_new v)).
Proof.
  intros dsn env_value secret_name. subst dsn env_value secret_name.
  unfold SENTRY_DSN.
  split; [| split; [| split]].
  - intros v -> Hnull. apply is_null_like_spec in Hnull. now rewrite Hnull.
  - intros v -> Hnot. now rewrite (is_null_like_false v Hnot).
  - intros -> ->. reflexivity.
  - intros -> Hne.
    destruct (String.eqb (Environment_str (ENVIRONMENT self)) "testing") eqn:E.
    { now apply Environment_str_testing in E. }
    change (PyStr.join "-" [PROJECT_SLUG self; "shared-resources"; "sentry-dsn"])
      with (PROJECT_SLUG self ++ "-shared-resources-sentry-dsn")%string.
    cbn [fst snd]. split; [reflexivity |].
    intros secret ->. cbn [rbind].
    split; [| split].
    + intros ->. reflexivity.
    + intros v -> Hnull. cbn [getitem rbind].
      apply is_null_like_spec in Hnull. now rewrite Hnull.
    + intros v -> Hnot. cbn [getitem rbind].
      now rewrite (is_null_like_false v Hnot).
Qed.

Definition example_HttpUrl_new (value : string) : result exception string :=
  if PyStr.startswith "http://" value || PyStr.startswith "https://" value
  then Ok value else Raise (ValidationError ["url"]).

Definition example_get_secret (name : string)
  : result exception (gmap string (option string)) :=
  if String.eqb name "salesforce-integration-shared-resources-sentry-dsn"
  then Ok {[ "dsn" := Some "https://key@sentry.example/7" ]}
  else Raise (ExternalError "ResourceNotFoundException").

Lemma sentry_dsn_resolution_witness :
  SENTRY_DSN ∅ [] string example_HttpUrl_new example_get_secret example_settings
  = (Ok (Some "https://key@sentry.example/7"),
     ["salesforce-integration-shared-resources-sentry-dsn"]).
Proof.
  pose proof (sentry_dsn_resolution ∅ [] string example_HttpUrl_new
                example_get_secret example_settings) as H.
  cbv zeta in H. destruct H as [_ [_ [_ H]]].
  destruct (H eq_refl ltac:(discriminate)) as [Hsnd Hfst].
  destruct (Hfst {[ "dsn" := Some "https://key@sentry.example/7" ]} eq_refl)
    as [_ [_ Hurl]].
  specialize (Hurl "https://key@sentry.example/7" eq_refl).
  rewrite (surjective_pairing (SENTRY_DSN _ _ _ _ _ _)), Hsnd, Hurl.
  - reflexivity.
  - unfold null_like. simpl. intros [E | [E | E]]; discriminate E.
Defined.


(** *** Further facts about settings validation *)

Section ValidationChain.
Variable source : string -> option string.
Variable sts_account : result exception string.

(** Everything a successful validation has established, field by field. *)
Lemma new_Settings_fields s :
  new_Settings source sts_account = Ok s ->
  PROJECT_SLUG s = supplied_or source "PROJECT_SLUG" "salesforce-integration"
  /\ (exists raw, source "ENVIRONMENT" = Some raw
                  /\ parse_Environment raw = Some (ENVIRONMENT s))
  /\ source "AWS_REGION" = Some (AWS_REGION s)
  /\ validate_account_id sts_account (supplied_or source "AWS_ACCOUNT_ID" changeme)
     = Ok (AWS_ACCOUNT_ID s)
  /\ exists d : Data,
       d_PROJECT_SLUG d = Some (PROJECT_SLUG s)
       /\ d_AWS_RESOURCE_SUFFIX d = Some (AWS_RESOURCE_SUFFIX s)
       /\ validate_sqs_queues (supplied_or source "SQS_QUEUE_MESSAGES" changeme)
            {| data := d; field_name := Some "SQS_QUEUE_MESSAGES" |}
          = Ok (SQS_QUEUE_MESSAGES s).
Proof.
  unfold new_Settings. intros H.
  apply rbind_Ok in H as [st [Hfields Hbuild]].
  destruct (errors st) eqn:Herr; [| discriminate].
  destruct (build (vdata st)) as [s' |] eqn:Hb; [| discriminate].
  injection Hbuild as ->.
  unfold validate_fields in Hfields.
  apply rbind_Ok in Hfields as [st1 [H1 Hfields]].
  apply rbind_Ok in Hfields as [st2 [H2 Hfields]].
  apply rbind_Ok in Hfields as [st3 [H3 Hfields]].
  apply rbind_Ok in Hfields as [st4 [H4 Hfields]].
  apply rbind_Ok in Hfields as [st5 [H5 Hfields]].
  apply rbind_Ok in Hfields as [st6 [H6 Hfields]].
  apply rbind_Ok in Hfields as [st7 [H7 Hfields]].
  apply rbind_Ok in Hfields as [st8 [H8 Hfields]].
  apply rbind_Ok in Hfields as [st9 [H9 Hfields]].
  apply rbind_Ok in Hfields as [st10 [H10 Hfields]].
  apply rbind_Ok in Hfields as [st11 [H11 H12]].
  apply str_field_clean in H12 as [E11 [v12 [V12 D12]]]; [| assumption].
  apply str_field_clean in H11 as [E10 [v11 [V11 D11]]]; [| assumption].
  apply bool_field_clean in H10 as [E9 [v10 D10]]; [| assumption].
  apply required_field_clean in H9 as [E8 [r9 [v9 [S9 [P9 D9]]]]]; [| assumption].
  apply str_field_clean in H8 as [E7 [v8 [V8 D8]]]; [| assumption].
  apply str_field_clean in H7 as [E6 [v7 [V7 D7]]]; [| assumption].
  apply required_field_clean in H6 as [E5 [r6 [v6 [S6 [P6 D6]]]]]; [| assumption].
  apply str_field_clean in H5 as [E4 [v5 [_ D5]]]; [| assumption].
  apply str_field_clean in H4 as [E3 [v4 [_ D4]]]; [| assumption].
  apply str_field_clean in H3 as [E2 [v3 [V3 D3]]]; [| assumption].
  apply str_field_clean in H2 as [E1 [v2 [_ D2]]]; [| assumption].
  apply str_field_clean in H1 as [_ [v1 [_ D1]]]; [| assumption].
  injection P9 as <-. injection V3 as <-.
  rewrite D12 in Hb. rewrite D11, D10, D9, D8, D7, D6, D5, D4, D3, D2, D1 in Hb.
  rewrite D11, D10, D9, D8, D7, D6, D5, D4, D3, D2, D1 in V12.
  simpl in Hb. injection Hb as <-. simpl.
  split; [reflexivity |].
  split; [now exists r6 |].
  split; [exact S9 |].
  split; [exact V8 |].
  eexists. split; [| split; [| exact V12]]; reflexivity.
Qed.

End ValidationChain.

Lemma rbind_ext {E A B} (r : result E A) (k k' : A -> result E B) :
  (forall a, k a = k' a) -> rbind r k = rbind r k'.
Proof. intros H. destruct r; cbn; [apply H | reflexivity]. Qed.

Lemma join_three slug suffix tail :
  PyStr.join "-" [slug; suffix; tail] = (slug ++ "-" ++ suffix ++ "-" ++ tail)%string.
Proof. reflexivity. Qed.


Lemma changeme_last : PyStr.last_char changeme = Some ">"%char.
Proof. reflexivity. Qed.

Lemma resolved_name_last slug suffix tail :
  tail <> EmptyString ->
  PyStr.last_char (slug ++ "-" ++ suffix ++ "-" ++ tail) = PyStr.last_char tail.
Proof.
  intros H. rewrite !PyStr.last_char_app; try reflexivity; try exact H.
  - destruct tail; [contradiction | discriminate].
  - destruct suffix; discriminate.
  - discriminate.
Qed.

(** X1.  [validate_sqs_queues]: with [SQS_QUEUE_MESSAGES] left at its
    placeholder the resolved name is
    [PROJECT_SLUG + "-" + AWS_RESOURCE_SUFFIX + "-messages"] and does not
    end in ".fifo" (no field is in the FIFO set); a supplied name is kept
    as it is. *)
Theorem sqs_queue_messages_resolution source sts_account s :
  new_Settings source sts_account = Ok s ->
  (left_at_default source "SQS_QUEUE_MESSAGES" ->
   SQS_QUEUE_MESSAGES s
   = (PROJECT_SLUG s ++ "-" ++ AWS_RESOURCE_SUFFIX s ++ "-messages")%string
   /\ PyStr.endswith (SQS_QUEUE_MESSAGES s) ".fifo" = false)
  /\ (forall v, source "SQS_QUEUE_MESSAGES" = Some v -> v <> changeme ->
      SQS_QUEUE_MESSAGES s = v).
Proof.
  intros H.
  apply new_Settings_fields in H as [_ [_ [_ [_ [d [Hslug [Hsuffix Hqueue]]]]]]].
  unfold supplied_or in Hqueue. split.
  - intros Hdef.
    assert (Hv : validate_sqs_queues changeme
                   {| data := d; field_name := Some "SQS_QUEUE_MESSAGES" |}
                 = Ok (SQS_QUEUE_MESSAGES s)).
    { destruct Hdef as [Hd | Hd]; rewrite Hd in Hqueue; exact Hqueue. }
    unfold validate_sqs_queues in Hv. simpl in Hv.
    rewrite Hslug, Hsuffix in Hv. simpl in Hv. injection Hv as <-.
    split; [reflexivity |].
    apply PyStr.endswith_last_char; [discriminate |].
    change (PROJECT_SLUG s ++ "-" ++ AWS_RESOURCE_SUFFIX s ++ "-messages")%string
      with (PROJECT_SLUG s ++ "-" ++ AWS_RESOURCE_SUFFIX s ++ "-" ++ "messages")%string.
    rewrite resolved_name_last; discriminate.
  - intros v Hsrc Hne. rewrite Hsrc in Hqueue.
    unfold validate_sqs_queues in Hqueue.
    rewrite (eqb_changeme_false v Hne) in Hqueue. simpl in Hqueue.
    now injection Hqueue as <-.
Qed.

Lemma sqs_queue_messages_resolution_witness :
  SQS_QUEUE_MESSAGES example_settings = "salesforce-integration-staging-messages"
  /\ PyStr.endswith (SQS_QUEUE_MESSAGES example_settings) ".fifo" = false.
Proof.
  destruct (sqs_queue_messages_resolution example_source (Ok "123456789012")
              example_settings eq_refl) as [Hdefault _].
  destruct (Hdefault (or_introl eq_refl)) as [Hname Hfifo].
  split; [rewrite Hname; reflexivity | exact Hfifo].
Defined.

(** X2.  No placeholder survives validation: in a validated [Settings]
    none of [AWS_RESOURCE_SUFFIX], [S3_BUCKET_STORAGE] and
    [SQS_QUEUE_MESSAGES] is ["<changeme>"]. *)
Theorem no_placeholder_survives source sts_account s :
  new_Settings source sts_account = Ok s ->
  AWS_RESOURCE_SUFFIX s <> changeme
  /\ S3_BUCKET_STORAGE s <> changeme
  /\ SQS_QUEUE_MESSAGES s <> changeme.
Proof.
  intros H.
  pose proof (new_Settings_fields source sts_account s H)
    as [_ [_ [_ [_ [d [Hslug [Hsuf Hqueue]]]]]]].
  apply new_Settings_resolved in H
    as [d5 [d6 [Hslug5 [Henv [Hsuffix [Hslug6 [Hsuf6 Hbucket]]]]]]].
  split; [| split].
  - unfold construct_aws_resource_suffix in Hsuffix.
    destruct (String.eqb _ changeme) eqn:E; cbn in Hsuffix.
    + rewrite Henv in Hsuffix. cbn in Hsuffix. injection Hsuffix as <-.
      destruct (ENVIRONMENT s); discriminate.
    + injection Hsuffix as <-. now apply String.eqb_neq.
  - unfold validate_s3_buckets in Hbucket.
    destruct (String.eqb _ changeme) eqn:E; cbn in Hbucket.
    + rewrite Hslug6, Hsuf6 in Hbucket. cbn in Hbucket. injection Hbucket as <-.
      intros Habs. apply (f_equal PyStr.last_char) in Habs.
      change (PROJECT_SLUG s +:+ "-" +:+ AWS_RESOURCE_SUFFIX s +:+ "-storage")
        with (PROJECT_SLUG s ++ "-" ++ AWS_RESOURCE_SUFFIX s ++ "-" ++ "storage")%string
        in Habs.
      rewrite resolved_name_last in Habs; discriminate.
    + injection Hbucket as <-. now apply String.eqb_neq.
  - unfold validate_sqs_queues in Hqueue.
    destruct (String.eqb _ changeme) eqn:E; cbn in Hqueue.
    + rewrite Hslug, Hsuf in Hqueue. cbn in Hqueue. injection Hqueue as <-.
      intros Habs. apply (f_equal PyStr.last_char) in Habs.
      change (PROJECT_SLUG s +:+ "-" +:+ AWS_RESOURCE_SUFFIX s +:+ "-messages")
        with (PROJECT_SLUG s ++ "-" ++ AWS_RESOURCE_SUFFIX s ++ "-" ++ "messages")%string
        in Habs.
      rewrite resolved_name_last in Habs; discriminate.
    + injection Hqueue as <-. now apply String.eqb_neq.
Qed.

Lemma no_placeholder_survives_witness :
  S3_BUCKET_STORAGE example_settings <> changeme.
Proof.
  destruct (no_placeholder_survives example_source (Ok "123456789012")
              example_settings eq_refl) as [_ [Hbucket _]].
  exact Hbucket.
Defined.


(** The environment is unusable: absent, or not one of the four names. *)
Definition bad_environment (source : string -> option string) : Prop :=
  source "ENVIRONMENT" = None
  \/ exists raw, source "ENVIRONMENT" = Some raw /\ parse_Environment raw = None.

Lemma required_field_bad_environment source st :
  bad_environment source ->
  required_field source "ENVIRONMENT" parse_Environment set_ENVIRONMENT st
  = Ok (field_error "ENVIRONMENT" st).
Proof.
  unfold required_field. intros [-> | [raw [-> ->]]]; reflexivity.
Qed.

(** X3.  With [ENVIRONMENT] absent or invalid and [AWS_RESOURCE_SUFFIX]
    left at its placeholder, constructing the settings does not end in a
    validation error: the suffix validator reads the key that is not
    there, and [KeyError("ENVIRONMENT")] is raised. *)
Theorem bad_environment_raises_key_error source sts_account :
  bad_environment source ->
  left_at_default source "AWS_RESOURCE_SUFFIX" ->
  new_Settings source sts_account = Raise (KeyError "ENVIRONMENT").
Proof.
  intros Henv Hsuffix. unfold new_Settings, validate_fields.
  unfold str_field at 1 2 3 4 5. unfold after_validator at 1 2 3 4 5.
  cbn [no_validator rbind vdata errors].
  rewrite (required_field_bad_environment source _ Henv). cbn [rbind].
  unfold str_field at 1, after_validator, supplied_or.
  assert (Hvalue : match source "AWS_RESOURCE_SUFFIX" with
                   | Some v => v
                   | None => changeme
                   end = changeme).
  { destruct Hsuffix as [-> | ->]; reflexivity. }
  rewrite Hvalue. reflexivity.
Qed.

Definition no_environment_source : string -> option string :=
  fun k => if String.eqb k "AWS_REGION" then Some "us-west-2" else None.

Lemma bad_environment_raises_key_error_witness :
  new_Settings no_environment_source (Ok "123456789012")
  = Raise (KeyError "ENVIRONMENT").
Proof.
  apply bad_environment_raises_key_error.
  - left. reflexivity.
  - left. reflexivity.
Defined.

Lemma account_step_independent source v sts sts' st :
  source "AWS_ACCOUNT_ID" = Some v -> v <> changeme ->
  str_field source "AWS_ACCOUNT_ID" changeme
    (fun value _ => validate_account_id sts value) set_AWS_ACCOUNT_ID st
  = str_field source "AWS_ACCOUNT_ID" changeme
      (fun value _ => validate_account_id sts' value) set_AWS_ACCOUNT_ID st.
Proof.
  intros Hsrc Hne. unfold str_field, after_validator, supplied_or, validate_account_id.
  rewrite Hsrc, (eqb_changeme_false v Hne). reflexivity.
Qed.

(** X4.  [validate_account_id]: a supplied account id makes the settings
    independent of what STS answers (or whether it answers); an account
    id left at its placeholder resolves to the account STS reports. *)
Theorem account_id_resolution source :
  (forall v sts sts',
     source "AWS_ACCOUNT_ID" = Some v -> v <> changeme ->
     new_Settings source sts = new_Settings source sts')
  /\ (forall sts s,
        left_at_default source "AWS_ACCOUNT_ID" ->
        new_Settings source sts = Ok s ->
        sts = Ok (AWS_ACCOUNT_ID s)).
Proof.
  split.
  - intros v sts sts' Hsrc Hne. unfold new_Settings. f_equal.
    unfold validate_fields.
    do 7 (apply rbind_ext; intros ?).
    rewrite (account_step_independent source v sts sts' _ Hsrc Hne). reflexivity.
  - intros sts s Hdef H.
    apply new_Settings_fields in H as [_ [_ [_ [Haccount _]]]].
    unfold validate_account_id, supplied_or in Haccount.
    destruct Hdef as [Hd | Hd]; rewrite Hd in Haccount; exact Haccount.
Qed.

Definition explicit_account_source : string -> option string :=
  fun k => if String.eqb k "ENVIRONMENT" then Some "production"
           else if String.eqb k "AWS_REGION" then Some "eu-west-1"
           else if String.eqb k "AWS_ACCOUNT_ID" then Some "210987654321"
           else None.

Lemma account_id_resolution_witness :
  new_Settings explicit_account_source (Raise (ExternalError "NoCredentialsError"))
  = new_Settings explicit_account_source (Ok "123456789012")
  /\ (Ok "123456789012" : result exception string)
     = Ok (AWS_ACCOUNT_ID example_settings).
Proof.
  destruct (account_id_resolution explicit_account_source) as [Hfree _].
  destruct (account_id_resolution example_source) as [_ Hsts].
  split.
  - apply (Hfree "210987654321"); [reflexivity | discriminate].
  - apply Hsts; [left; reflexivity | reflexivity].
Defined.


(** *** [get_env_value]: who decides *)

(** A [.env] file that does not exist, or does not list the key. *)
Definition lacks (key : string) (file : option (gmap string (option string))) : Prop :=
  match file with
  | None => True
  | Some env_values => env_values !! key = None
  end.

Lemma get_env_value_files_skip key before rest :
  Forall (lacks key) before ->
  get_env_value_files (before ++ rest) key = get_env_value_files rest key.
Proof.
  induction 1 as [| file before Hfile _ IH]; [reflexivity |].
  cbn [app get_env_value_files].
  destruct file as [env_values |]; [| exact IH].
  cbn in Hfile. now rewrite Hfile.
Qed.

(** X5.  [get_env_value]: a value in the process environment wins over
    every [.env] file.  Without one, the first file that exists and lists
    the key decides, also when it lists the key without a value (the
    result is then [None], whatever later files say); with no such file
    the result is [None]. *)
Theorem get_env_value_precedence os_environ files key :
  (forall v, os_environ !! key = Some v ->
             get_env_value os_environ files key = Some v)
  /\ (os_environ !! key = None ->
      (Forall (lacks key) files -> get_env_value os_environ files key = None)
      /\ (forall before env_values after v,
            files = before ++ Some env_values :: after ->
            Forall (lacks key) before ->
            env_values !! key = Some v ->
            get_env_value os_environ files key = v)).
Proof.
  unfold get_env_value. split.
  - now intros v ->.
  - intros ->. split.
    + intros Hall. rewrite <- (app_nil_r files).
      now rewrite (get_env_value_files_skip key files [] Hall).
    + intros before env_values after v -> Hbefore Hkey.
      rewrite (get_env_value_files_skip key before _ Hbefore).
      cbn. now rewrite Hkey.
Qed.

Lemma get_env_value_precedence_witness :
  get_env_value ∅
    [None; Some {[ "OTHER" := Some "x" ]}; Some {[ "SENTRY_DSN" := None ]};
     Some {[ "SENTRY_DSN" := Some "https://key@sentry.example/7" ]}]
    "SENTRY_DSN"
  = None.
Proof.
  destruct (get_env_value_precedence ∅
              [None; Some {[ "OTHER" := Some "x" ]}; Some {[ "SENTRY_DSN" := None ]};
               Some {[ "SENTRY_DSN" := Some "https://key@sentry.example/7" ]}]
              "SENTRY_DSN") as [_ Hfiles].
  destruct (Hfiles eq_refl) as [_ Hfirst].
  apply (Hfirst [None; Some {[ "OTHER" := Some "x" ]}] {[ "SENTRY_DSN" := None ]}
           [Some {[ "SENTRY_DSN" := Some "https://key@sentry.example/7" ]}]).
  - reflexivity.
  - repeat constructor.
  - reflexivity.
Defined.

(** *** [get_secret] *)

(** A value of the parsed secret: [null], a string, or anything else,
    with the text [str(value)] gives for it. *)
Inductive json_value :=
| JNull
| JString (s : string)
| JOther (text : string).

Definition str_of (v : json_value) : string :=
  match v with
  | JNull => "None"
  | JString s => s
  | JOther text => text
  end.

(** [needle in haystack] *)
Fixpoint contains (needle haystack : string) : bool :=
  PyStr.startswith needle haystack
  || match haystack with
     | EmptyString => false
     | String _ rest => contains needle rest
     end.

Definition mentions_changeme (text : string) : bool :=
  contains "changeme" (PyStr.lower text).

Inductive warning :=
| KeyNotSet (key name : string)
| SecretNotSet (name : string).

Inductive secret :=
| SecretDict (entries : gmap string (option string))
| SecretText (text : string).

(** The entry [get_secret] stores for a value. *)
Definition entry_of (v : json_value) : option string :=
  match v with
  | JNull => None
  | _ => Some (str_of v)
  end.

(** The loop over the items of the parsed secret. *)
Fixpoint collect_secret (name : string) (items : list (string * json_value))
    (secret_dict : gmap string (option string)) (warnings : list warning)
  : gmap string (option string) * list warning :=
  match items with
  | [] => (secret_dict, warnings)
  | (key, value) :: rest =>
      match value with
      | JNull => collect_secret name rest (<[key := None]> secret_dict) warnings
      | _ =>
          collect_secret name rest (<[key := Some (str_of value)]> secret_dict)
            (if mentions_changeme (str_of value)
             then warnings ++ [KeyNotSet key name]
             else warnings)
      end
  end.

Section Secrets.
(** The secret string Secrets Manager holds under a name, and
    [orjson.loads(...).items()] of a text. *)
Variable get_secret_value : string -> result exception string.
Variable loads_items : string -> result exception (list (string * json_value)).

(** [get_secret(name, parse_json)]: the result and the warnings. *)
Definition get_secret (name : string) (parse_json : bool)
  : result exception secret * list warning :=
  match get_secret_value name with
  | Raise e => (Raise e, [])
  | Ok secret_value =>
      if parse_json then
        match loads_items secret_value with
        | Raise e => (Raise e, [])
        | Ok items =>
            let '(secret_dict, warnings) := collect_secret name items ∅ [] in
            (Ok (SecretDict secret_dict), warnings)
        end
      else
        (Ok (SecretText secret_value),
         if mentions_changeme secret_value then [SecretNotSet name] else [])
  end.

End Secrets.

Definition warns (item : string * json_value) : bool :=
  match snd item with
  | JNull => false
  | v => mentions_changeme (str_of v)
  end.

Lemma collect_secret_spec name items : forall secret_dict warnings,
  List.NoDup (List.map fst items) ->
  let collected := collect_secret name items secret_dict warnings in
  (forall key value, In (key, value) items ->
     fst collected !! key = Some (entry_of value))
  /\ (forall key, ~ In key (List.map fst items) ->
      fst collected !! key = secret_dict !! key)
  /\ snd collected
     = warnings ++ List.map (fun item => KeyNotSet (fst item) name)
                     (List.filter warns items).
Proof.
  induction items as [| [k v] rest IH]; intros secret_dict warnings Hnodup.
  - cbn. split; [intros key value [] | split; [reflexivity | now rewrite app_nil_r]].
  - cbn [List.map fst] in Hnodup.
    apply List.NoDup_cons_iff in Hnodup as [Hfresh Hnodup].
    assert (Hstep : collect_secret name ((k, v) :: rest) secret_dict warnings
                    = collect_secret name rest (<[k := entry_of v]> secret_dict)
                        (if warns (k, v) then warnings ++ [KeyNotSet k name]
                         else warnings)).
    { destruct v; reflexivity. }
    cbv zeta. rewrite Hstep.
    destruct (IH (<[k := entry_of v]> secret_dict)
                (if warns (k, v) then warnings ++ [KeyNotSet k name] else warnings)
                Hnodup) as [Hin [Hout Hwarn]].
    split; [| split].
    + intros key value [E | Hrest].
      * injection E as <- <-. rewrite (Hout k Hfresh). apply lookup_insert_eq.
      * now apply Hin.
    + intros key Hkey. cbn [List.map fst] in Hkey.
      rewrite Hout by (intros H; apply Hkey; now right).
      apply lookup_insert_ne. intros ->. apply Hkey. now left.
    + rewrite Hwarn. cbn [List.filter].
      destruct (warns (k, v)); [| reflexivity].
      cbn [List.map fst]. now rewrite <- app_assoc.
Qed.

(** X6.  [get_secret] with [parse_json]: every key of the secret is a key
    of the result, [null] as [None] and any other value as its text;
    the result has no other key; and a warning is issued for exactly the
    keys whose value mentions "changeme" (in any letter case), in the
    order of the secret. *)
Theorem get_secret_entries get_secret_value loads_items name secret_value items :
  get_secret_value name = Ok secret_value ->
  loads_items secret_value = Ok items ->
  List.NoDup (List.map fst items) ->
  exists secret_dict,
    get_secret get_secret_value loads_items name true
    = (Ok (SecretDict secret_dict),
       List.map (fun item => KeyNotSet (fst item) name) (List.filter warns items))
    /\ (forall key value, In (key, value) items ->
        secret_dict !! key = Some (entry_of value))
    /\ (forall key, ~ In key (List.map fst items) -> secret_dict !! key = None).
Proof.
  intros Hvalue Hitems Hnodup. unfold get_secret. rewrite Hvalue, Hitems.
  destruct (collect_secret_spec name items ∅ [] Hnodup) as [Hin [Hout Hwarn]].
  destruct (collect_secret name items ∅ []) as [secret_dict warnings].
  cbn [fst snd] in *. exists secret_dict. rewrite Hwarn. cbn [app].
  split; [reflexivity | split; [exact Hin |]].
  intros key Hkey. now rewrite (Hout key Hkey).
Qed.

Definition example_items : list (string * json_value) :=
  [("dsn", JNull); ("token", JString "<ChangeMe>"); ("port", JOther "8080")].

Lemma get_secret_entries_witness :
  exists secret_dict,
    get_secret (fun _ => Ok "{...}") (fun _ => Ok example_items) "shared" true
    = (Ok (SecretDict secret_dict), [KeyNotSet "token" "shared"])
    /\ secret_dict !! "dsn" = Some None
    /\ secret_dict !! "port" = Some (Some "8080")
    /\ secret_dict !! "user" = None.
Proof.
  destruct (get_secret_entries (fun _ => Ok "{...}") (fun _ => Ok example_items)
              "shared" "{...}" example_items eq_refl eq_refl)
    as [secret_dict [Hrun [Hin Hout]]].
  - repeat constructor; cbn; intuition discriminate.
  - exists secret_dict. split; [exact Hrun |]. split; [| split].
    + apply (Hin "dsn" JNull). now left.
    + apply (Hin "port" (JOther "8080")). right. right. now left.
    + apply Hout. cbn. intuition discriminate.
Defined.


(** The name [validate_sqs_queues] builds for the messages queue. *)
Lemma default_messages_queue_name source sts_account s :
  new_Settings source sts_account = Ok s ->
  left_at_default source "SQS_QUEUE_MESSAGES" ->
  SQS_QUEUE_MESSAGES s
  = PyStr.join "-" [PROJECT_SLUG s; AWS_RESOURCE_SUFFIX s; "messages"].
Proof.
  intros H Hdef.
  apply new_Settings_fields in H as [_ [_ [_ [_ [d [Hslug [Hsuffix Hqueue]]]]]]].
  unfold supplied_or in Hqueue.
  assert (Hv : validate_sqs_queues changeme
                 {| data := d; field_name := Some "SQS_QUEUE_MESSAGES" |}
               = Ok (SQS_QUEUE_MESSAGES s)).
  { destruct Hdef as [Hd | Hd]; rewrite Hd in Hqueue; exact Hqueue. }
  unfold validate_sqs_queues in Hv. simpl in Hv.
  rewrite Hslug, Hsuffix in Hv. simpl in Hv. now injection Hv as <-.
Qed.


(** *** [get_env_value] under [functools.cache] *)

(** The process environment and the [.env] files at the time of a
    call. *)
Record surroundings := {
  os_environ : gmap string string;
  env_files : list (option (gmap string (option string)))
}.

(** [@cache]: the result of the first call for a key is kept and
    returned by every later call for it. *)
Definition cached_get_env_value (memo : gmap string (option string))
    (now : surroundings) (key : string)
  : option string * gmap string (option string) :=
  match memo !! key with
  | Some v => (v, memo)
  | None =>
      let v := get_env_value (os_environ now) (env_files now) key in
      (v, <[key := v]> memo)
  end.

(** A sequence of calls: the results, in order, and the memo left. *)
Fixpoint cached_calls (memo : gmap string (option string))
    (calls : list (surroundings * string))
  : list (option string) * gmap string (option string) :=
  match calls with
  | [] => ([], memo)
  | (now, key) :: rest =>
      let '(v, memo) := cached_get_env_value memo now key in
      let '(vs, memo) := cached_calls memo rest in
      (v :: vs, memo)
  end.





Example get_env_value_stale :
  fst (cached_calls ∅
         [({| os_environ := {[ "SENTRY_DSN" := "null" ]}; env_files := [] |},
           "SENTRY_DSN");
          ({| os_environ := {[ "SENTRY_DSN" := "https://key@sentry.example/7" ]};
              env_files := [] |}, "SENTRY_DSN")])
  = [Some "null"; Some "null"].
Proof. vm_compute. reflexivity. Qed.

End ProjectSettings.

(** ** [infrastructure/constructs/sqs.py] *)

Module Sqs.

Local Open Scope Z_scope.

(** [aws_cdk.Duration], as the two constructors the construct uses. *)
Inductive Duration :=
| Duration_days (amount : Z)
| Duration_seconds (amount : Z).

Definition to_seconds (d : Duration) : Z :=
  match d with
  | Duration_days n => n * 86400
  | Duration_seconds n => n
  end.

(** The properties handed to [aws_sqs.Queue] and [aws_sqs.DeadLetterQueue].
    A keyword argument that is not passed is [None]. *)
Inductive Queue :=
| mkQueue (construct_id : string) (queue_name : string)
    (retention_period : Duration) (visibility_timeout : Duration)
    (fifo : option bool) (content_based_deduplication : option bool)
    (dead_letter_queue : option DeadLetterQueue)
with DeadLetterQueue :=
| mkDeadLetterQueue (max_receive_count : Z) (queue : Queue).

Definition queue_name (q : Queue) : string :=
  match q with mkQueue _ n _ _ _ _ _ => n end.
Definition construct_id (q : Queue) : string :=
  match q with mkQueue i _ _ _ _ _ _ => i end.
Definition retention_period (q : Queue) : Duration :=
  match q with mkQueue _ _ r _ _ _ _ => r end.
Definition visibility_timeout (q : Queue) : Duration :=
  match q with mkQueue _ _ _ v _ _ _ => v end.
Definition fifo (q : Queue) : option bool :=
  match q with mkQueue _ _ _ _ f _ _ => f end.
Definition content_based_deduplication (q : Queue) : option bool :=
  match q with mkQueue _ _ _ _ _ c _ => c end.
Definition dead_letter_queue (q : Queue) : option DeadLetterQueue :=
  match q with mkQueue _ _ _ _ _ _ d => d end.
Definition max_receive_count (d : DeadLetterQueue) : Z :=
  match d with mkDeadLetterQueue m _ => m end.
Definition dlq_queue (d : DeadLetterQueue) : Queue :=
  match d with mkDeadLetterQueue _ q => q end.

Record QueueWithDLQ := {
  self_dead_letter_queue : option Queue;
  self_queue : Queue
}.

(** The construct's own assertion, and the error the CDK raises for
    properties it refuses. *)
Inductive exception :=
| AssertionError (message : string)
| RuntimeError (message : string).

(** The [fifo_params] dictionary, splatted into both [Queue] calls. *)
Record fifo_params := {
  p_fifo : option bool;
  p_content_based_deduplication : option bool
}.

Definition default_max_receive_count : Z := 3.
Definition default_is_fifo : bool := false.
Definition default_content_based_deduplication : bool := false.
Definition default_visibility_timeout : Z := 900.

Local Open Scope result_scope.

(** [Duration.seconds(amount)]: the CDK refuses a negative amount. *)
Definition Duration_seconds_new (amount : Z) : result exception Duration :=
  if amount <? 0 then Raise (RuntimeError "Duration amounts cannot be negative")
  else Ok (Duration_seconds amount).

(** [aws_sqs.Queue(...)] with the checks the CDK runs on the properties
    the construct varies: the visibility timeout is at most 43200
    seconds, and the maximum receive count of a dead-letter queue is at
    least 1.  The retention period the construct passes, 14 days, is the
    maximum the CDK allows. *)
Definition Queue_new (construct_id queue_name : string)
    (retention_period visibility_timeout : Duration)
    (fifo content_based_deduplication : option bool)
    (dead_letter_queue : option DeadLetterQueue) : result exception Queue :=
  if 43200 <? to_seconds visibility_timeout
  then Raise (RuntimeError "message visibility timeout must be 43200 seconds or less")
  else
    let queue :=
      mkQueue construct_id queue_name retention_period visibility_timeout
        fifo content_based_deduplication dead_letter_queue in
    match dead_letter_queue with
    | Some dlq =>
        if max_receive_count dlq <? 1
        then Raise (RuntimeError
                      "dead letter target maximum receive count must be 1 or more")
        else Ok queue
    | None => Ok queue
    end.

(** [QueueWithDLQ.__init__] *)
Definition QueueWithDLQ_init (id name : string) (create_dlq : bool)
    (max_receive_count : Z) (is_fifo content_based_deduplication : bool)
    (visibility_timeout : Z) : result exception QueueWithDLQ :=
  if PyStr.endswith name ".fifo"
  then Raise (AssertionError
                "Queue name must not end with .fifo, use the is_fifo argument instead")
  else
    let fifo_params :=
      if is_fifo
      then {| p_fifo := Some true;
              p_content_based_deduplication := Some content_based_deduplication |}
      else {| p_fifo := None; p_content_based_deduplication := None |} in
    let* dead_letter_queue :=
      if create_dlq
      then
        let* timeout := Duration_seconds_new visibility_timeout in
        let* dlq :=
          Queue_new (id ++ " DLQ")%string
            (if is_fifo then name ++ "-dlq.fifo" else name ++ "-dlq")%string
            (Duration_days 14) timeout
            (p_fifo fifo_params) (p_content_based_deduplication fifo_params)
            None in
        Ok (Some dlq)
      else Ok None in
    let* timeout := Duration_seconds_new visibility_timeout in
    let* queue :=
      Queue_new id (if is_fifo then name ++ ".fifo" else name)%string
        (Duration_days 14) timeout
        (p_fifo fifo_params) (p_content_based_deduplication fifo_params)
        (match dead_letter_queue with
         | Some dlq => Some (mkDeadLetterQueue max_receive_count dlq)
         | None => None
         end) in
    Ok {| self_dead_letter_queue := dead_letter_queue; self_queue := queue |}.

(** The construct, when it is built, and the conditions under which the
    checks above let it be built. *)
Definition built_QueueWithDLQ (id name : string) (create_dlq : bool)
    (max_receive_count : Z) (is_fifo content_based_deduplication : bool)
    (visibility_timeout : Z) : QueueWithDLQ :=
  let fifo := if is_fifo then Some true else None in
  let cbd := if is_fifo then Some content_based_deduplication else None in
  let dead_letter_queue :=
    if create_dlq
    then Some (mkQueue (id ++ " DLQ")%string
                 (if is_fifo then name ++ "-dlq.fifo" else name ++ "-dlq")%string
                 (Duration_days 14) (Duration_seconds visibility_timeout) fifo cbd None)
    else None in
  {| self_dead_letter_queue := dead_letter_queue;
     self_queue :=
       mkQueue id (if is_fifo then name ++ ".fifo" else name)%string
         (Duration_days 14) (Duration_seconds visibility_timeout) fifo cbd
         (match dead_letter_queue with
          | Some dlq => Some (mkDeadLetterQueue max_receive_count dlq)
          | None => None
          end) |}.

Lemma QueueWithDLQ_init_Ok id name create_dlq max_receive_count' is_fifo cbd
    visibility_timeout' c :
  QueueWithDLQ_init id name create_dlq max_receive_count' is_fifo cbd
    visibility_timeout' = Ok c ->
  PyStr.endswith name ".fifo" = false
  /\ 0 <= visibility_timeout' <= 43200
  /\ (create_dlq = true -> 1 <= max_receive_count')
  /\ c = built_QueueWithDLQ id name create_dlq max_receive_count' is_fifo cbd
           visibility_timeout'.
Proof.
  unfold QueueWithDLQ_init, built_QueueWithDLQ, Duration_seconds_new, Queue_new.
  destruct (PyStr.endswith name ".fifo"); [discriminate |].
  destruct (Z.ltb_spec visibility_timeout' 0) as [Hneg | Hpos].
  { destruct create_dlq; discriminate. }
  cbn [to_seconds rbind].
  destruct (Z.ltb_spec 43200 visibility_timeout') as [Hbig | Hsmall].
  { destruct create_dlq; discriminate. }
  destruct create_dlq; cbn [rbind max_receive_count].
  - destruct (Z.ltb_spec max_receive_count' 1) as [Hzero | Hone]; [discriminate |].
    intros H. injection H as <-. destruct is_fifo; repeat split; auto; lia.
  - intros H. injection H as <-.
    destruct is_fifo; repeat split; auto; try lia; discriminate.
Qed.

Lemma QueueWithDLQ_init_built id name create_dlq max_receive_count' is_fifo cbd
    visibility_timeout' :
  PyStr.endswith name ".fifo" = false ->
  0 <= visibility_timeout' <= 43200 ->
  (create_dlq = true -> 1 <= max_receive_count') ->
  QueueWithDLQ_init id name create_dlq max_receive_count' is_fifo cbd
    visibility_timeout'
  = Ok (built_QueueWithDLQ id name create_dlq max_receive_count' is_fifo cbd
          visibility_timeout').
Proof.
  intros Hname Hrange Hcount.
  unfold QueueWithDLQ_init, built_QueueWithDLQ, Duration_seconds_new, Queue_new.
  rewrite Hname.
  destruct (Z.ltb_spec visibility_timeout' 0) as [Hneg | Hpos]; [lia |].
  cbn [to_seconds rbind].
  destruct (Z.ltb_spec 43200 visibility_timeout') as [Hbig | Hsmall]; [lia |].
  destruct create_dlq; cbn [rbind max_receive_count].
  - specialize (Hcount eq_refl).
    destruct (Z.ltb_spec max_receive_count' 1) as [Hzero | Hone]; [lia |].
    now destruct is_fifo.
  - now destruct is_fifo.
Qed.

Example queue_with_dlq_defaults :
  QueueWithDLQ_init "Messages" "kicksaw-production-messages" true
    default_max_receive_count default_is_fifo default_content_based_deduplication
    default_visibility_timeout
  = Ok {| self_dead_letter_queue :=
            Some (mkQueue "Messages DLQ" "kicksaw-production-messages-dlq"
                    (Duration_days 14) (Duration_seconds 900) None None None);
          self_queue :=
            mkQueue "Messages" "kicksaw-production-messages"
              (Duration_days 14) (Duration_seconds 900) None None
              (Some (mkDeadLetterQueue 3
                       (mkQueue "Messages DLQ" "kicksaw-production-messages-dlq"
                          (Duration_days 14) (Duration_seconds 900) None None None))) |}.
Proof. reflexivity. Qed.

Example fourteen_days : to_seconds (Duration_days 14) = 1209600.
Proof. reflexivity. Qed.



(** A receive count of 0 is refused. *)
Example queue_with_dlq_zero_receives :
  QueueWithDLQ_init "Jobs" "kicksaw-jobs" true 0 false false 30
  = Raise (RuntimeError "dead letter target maximum receive count must be 1 or more").
Proof. reflexivity. Qed.


Lemma append_assoc (a b c : string) : (a ++ (b ++ c) = (a ++ b) ++ c)%string.
Proof.
  induction a as [| x a IH]; [reflexivity |].
  change (String x a ++ (b ++ c))%string with (String x (a ++ (b ++ c)))%string.
  change ((String x a ++ b) ++ c)%string with (String x ((a ++ b) ++ c))%string.
  now rewrite IH.
Qed.

(** X10.  In every construct that is built, the name of each queue ends
    in ".fifo" exactly when the construct is FIFO, and that is exactly
    when the queue is created with [fifo=True]; content-based
    deduplication is passed for FIFO queues only; the dead-letter queue
    is of the same kind as the primary queue and has no dead-letter queue
    of its own. *)
Theorem queue_names_match_fifo id name create_dlq max_receive_count'
    is_fifo cbd visibility_timeout' c :
  QueueWithDLQ_init id name create_dlq max_receive_count' is_fifo cbd
    visibility_timeout' = Ok c ->
  PyStr.endswith (queue_name (self_queue c)) ".fifo" = is_fifo
  /\ fifo (self_queue c) = (if is_fifo then Some true else None)
  /\ content_based_deduplication (self_queue c)
     = (if is_fifo then Some cbd else None)
  /\ forall dlq,
       self_dead_letter_queue c = Some dlq ->
       PyStr.endswith (queue_name dlq) ".fifo" = is_fifo
       /\ fifo dlq = fifo (self_queue c)
       /\ content_based_deduplication dlq = content_based_deduplication (self_queue c)
       /\ dead_letter_queue dlq = None.
Proof.
  intros Hc. apply QueueWithDLQ_init_Ok in Hc as [Hname [_ [_ ->]]].
  unfold built_QueueWithDLQ.
  cbn [self_queue self_dead_letter_queue queue_name fifo content_based_deduplication].
  assert (Hdlq : PyStr.endswith (name ++ "-dlq") ".fifo" = false).
  { apply PyStr.endswith_last_char; [discriminate |].
    rewrite PyStr.last_char_app; discriminate. }
  assert (Hdlq_fifo : PyStr.endswith (name ++ "-dlq.fifo") ".fifo" = true).
  { apply PyStr.endswith_spec. exists (name ++ "-dlq")%string.
    now rewrite <- append_assoc. }
  destruct is_fifo; cbn.
  - split; [apply PyStr.endswith_app | split; [reflexivity | split; [reflexivity |]]].
    intros dlq. destruct create_dlq; [| discriminate].
    intros H. injection H as <-. cbn. repeat split. exact Hdlq_fifo.
  - split; [exact Hname | split; [reflexivity | split; [reflexivity |]]].
    intros dlq. destruct create_dlq; [| discriminate].
    intros H. injection H as <-. cbn. repeat split. exact Hdlq.
Qed.

Lemma queue_names_match_fifo_witness :
  exists c,
    QueueWithDLQ_init "Jobs" "kicksaw-jobs" true 5 true false 30 = Ok c
    /\ PyStr.endswith (queue_name (self_queue c)) ".fifo" = true.
Proof.
  eexists. split; [reflexivity |].
  destruct (queue_names_match_fifo "Jobs" "kicksaw-jobs" true 5 true false 30 _
              eq_refl) as [Hname _].
  exact Hname.
Defined.

End Sqs.

(** ** [scripts/create_github_oidc_role.py] *)

Module OidcRole.

Local Open Scope Z_scope.

Definition ROLE_NAME : string := "salesforce-integration-deployment-role".
Definition POLICY_NAME : string := "salesforce-integration-cdk-deployment-policy".

(** [botocore.exceptions.ClientError], with [e.response["Error"]["Code"]];
    any other exception a call may raise is [OtherError]. *)
Record client_error := {
  code : string;
  error_text : string
}.

Inductive exn :=
| ClientError (e : client_error)
| OtherError (what : string).

(** What the script prints. *)
Inductive message :=
| ErrorWaitingForRole (e : client_error)
| ErrorGettingAccountId (e : client_error)
| RoleCreated (role_name : string)
| FailedToConfirmRoleCreation
| RoleAlreadyExists (role_name : string)
| ErrorCreatingRole (e : client_error)
| PolicyCreated (policy_name : string)
| FailedToConfirmPolicyCreation
| PolicyAlreadyExists (policy_name : string)
| ErrorGettingExistingPolicy (e : client_error)
| ErrorCreatingPolicy (e : client_error)
| PolicyAttachedToRole
| VerifiedPolicyAttachment
| PolicyAttachmentVerificationFailed
| ErrorAttachingPolicyToRole (e : client_error)
| AllOperationsCompleted.

(** The calls the script makes, in the order it makes them.
    [WaitRoleExists] is the one call of the botocore waiter, with the
    [Delay] and [MaxAttempts] it is given: the attempts and the pauses the
    waiter makes inside that call are the library's and are not events of
    the trace.  [Sleep] is a [time.sleep] call of the script itself. *)
Inductive event :=
| GetCallerIdentity
| CreateRole (role_name federated_principal : string)
| WaitRoleExists (role_name : string) (delay max_attempts : Z)
| CreatePolicy (policy_name : string)
| GetPolicy (policy_arn : string)
| AttachRolePolicy (role_name policy_arn : string)
| ListAttachedRolePolicies (role_name : string)
| Sleep (seconds : Z)
| Print (m : message).

(** The AWS account as the script sees it: the answer to each call may
    depend on everything that happened before it. *)
Record clients := {
  get_caller_identity : list event -> result exn string;
  create_role : list event -> string -> string -> result exn unit;
  role_exists_waiter : list event -> string -> Z -> Z -> result exn unit;
  create_policy : list event -> string -> result exn string;
  get_policy : list event -> string -> result exn string;
  attach_role_policy : list event -> string -> string -> result exn unit;
  list_attached_role_policies : list event -> string -> result exn (list string)
}.

(** A computation reads the trace so far and extends it. *)
Definition M (A : Type) : Type := list event -> result exn A * list event.

Definition ret {A} (a : A) : M A := fun t => (Ok a, t).

Definition bind {A B} (m : M A) (k : A -> M B) : M B :=
  fun t =>
    match m t with
    | (Ok a, t') => k a t'
    | (Raise e, t') => (Raise e, t')
    end.

Declare Scope oidc_scope.
Delimit Scope oidc_scope with oidc.
Notation "'do' x '<-' m ';' k" := (bind m (fun x => k))
  (at level 10, x name, m at level 100, k at level 200) : oidc_scope.
Notation "m '>>' k" := (bind m (fun _ => k))
  (at level 65, right associativity) : oidc_scope.
Local Open Scope oidc_scope.

(** A call to the service: the answer is taken at the current trace and
    the call is recorded. *)
Definition call {A} (ev : event) (answer : list event -> result exn A) : M A :=
  fun t => (answer t, t ++ [ev]).

Definition print (m : message) : M unit := fun t => (Ok tt, t ++ [Print m]).

(** [time.sleep(seconds)]: a negative length is a [ValueError], and
    nothing is slept. *)
Definition sleep (seconds : Z) : M unit :=
  fun t =>
    if seconds <? 0
    then (Raise (OtherError "ValueError: sleep length must be non-negative"), t)
    else (Ok tt, t ++ [Sleep seconds]).

(** [try: body except ClientError as e: handler] *)
Definition try_except {A} (body : M A) (handler : client_error -> M A) : M A :=
  fun t =>
    match body t with
    | (Raise (ClientError e), t') => handler e t'
    | r => r
    end.

(** The result of a [try] block of [main]: fall through to the next
    statement, or [return]. *)
Inductive flow (A : Type) :=
| Continue (a : A)
| Return.
Arguments Continue {A} a.
Arguments Return {A}.

Section Script.
Variable aws : clients.

Definition wait_for_role (role_name : string) (max_attempts delay : Z) : M bool :=
  try_except
    (call (WaitRoleExists role_name delay max_attempts)
       (fun t => role_exists_waiter aws t role_name delay max_attempts) >>
     ret true)
    (fun e => print (ErrorWaitingForRole e) >> ret false).

(** The loop of [wait_for_policy], with the iterations of
    [range(max_attempts)] still to run. *)
Fixpoint wait_for_policy_loop (attempts : nat) (policy_arn : string) (delay : Z)
  : M bool :=
  match attempts with
  | O => ret false
  | S attempts' =>
      do found <-
        try_except
          (call (GetPolicy policy_arn) (fun t => get_policy aws t policy_arn) >>
           ret true)
          (fun e =>
             if String.eqb (code e) "NoSuchEntity"
             then sleep delay >> ret false
             else fun t => (Raise (ClientError e), t));
      if found then ret true
      else wait_for_policy_loop attempts' policy_arn delay
  end.

Definition wait_for_policy (policy_arn : string) (max_attempts delay : Z) : M bool :=
  wait_for_policy_loop (Z.to_nat max_attempts) policy_arn delay.

Definition federated_principal (account_id : string) : string :=
  "arn:aws:iam::" ++ account_id
  ++ ":oidc-provider/token.actions.githubusercontent.com".

Definition existing_policy_arn (account_id : string) : string :=
  "arn:aws:iam::" ++ account_id ++ ":policy/" ++ POLICY_NAME.

Definition get_account_id : M (flow string) :=
  try_except
    (do account_id <- call GetCallerIdentity (get_caller_identity aws);
     ret (Continue account_id))
    (fun e => print (ErrorGettingAccountId e) >> ret Return).

Definition create_iam_role (account_id : string) : M (flow unit) :=
  try_except
    (call (CreateRole ROLE_NAME (federated_principal account_id))
       (fun t => create_role aws t ROLE_NAME (federated_principal account_id)) >>
     print (RoleCreated ROLE_NAME) >>
     do confirmed <- wait_for_role ROLE_NAME 10 2;
     if negb confirmed
     then print FailedToConfirmRoleCreation >> ret Return
     else ret (Continue tt))
    (fun e =>
       if String.eqb (code e) "EntityAlreadyExists"
       then print (RoleAlreadyExists ROLE_NAME) >> ret (Continue tt)
       else print (ErrorCreatingRole e) >> ret Return).

Definition create_iam_policy (account_id : string) : M (flow string) :=
  try_except
    (do policy_arn <-
       call (CreatePolicy POLICY_NAME) (fun t => create_policy aws t POLICY_NAME);
     print (PolicyCreated POLICY_NAME) >>
     do confirmed <- wait_for_policy policy_arn 10 2;
     if negb confirmed
     then print FailedToConfirmPolicyCreation >> ret Return
     else ret (Continue policy_arn))
    (fun e =>
       if String.eqb (code e) "EntityAlreadyExists"
       then
         try_except
           (do policy_arn <-
              call (GetPolicy (existing_policy_arn account_id))
                (fun t => get_policy aws t (existing_policy_arn account_id));
            print (PolicyAlreadyExists POLICY_NAME) >>
            ret (Continue policy_arn))
           (fun e' => print (ErrorGettingExistingPolicy e') >> ret Return)
       else print (ErrorCreatingPolicy e) >> ret Return).

Definition attach_policy_to_role (policy_arn : string) : M (flow unit) :=
  try_except
    (call (AttachRolePolicy ROLE_NAME policy_arn)
       (fun t => attach_role_policy aws t ROLE_NAME policy_arn) >>
     print PolicyAttachedToRole >>
     do attached_policies <-
       call (ListAttachedRolePolicies ROLE_NAME)
         (fun t => list_attached_role_policies aws t ROLE_NAME);
     (if existsb (fun policy_name => String.eqb policy_name POLICY_NAME)
           attached_policies
      then print VerifiedPolicyAttachment
      else print PolicyAttachmentVerificationFailed) >>
     ret (Continue tt))
    (fun e => print (ErrorAttachingPolicyToRole e) >> ret Return).

Definition main : M unit :=
  do account <- get_account_id;
  match account with
  | Return => ret tt
  | Continue account_id =>
      do role <- create_iam_role account_id;
      match role with
      | Return => ret tt
      | Continue _ =>
          do policy <- create_iam_policy account_id;
          match policy with
          | Return => ret tt
          | Continue policy_arn =>
              do attached <- attach_policy_to_role policy_arn;
              match attached with
              | Return => ret tt
              | Continue _ => print AllOperationsCompleted
              end
          end
      end
  end.

End Script.

(** *** Polling for the policy *)

(** [k] unsuccessful rounds of the loop: a poll, then the pause. *)
Fixpoint rounds (policy_arn : string) (delay : Z) (k : nat) : list event :=
  match k with
  | O => []
  | S k' => GetPolicy policy_arn :: Sleep delay :: rounds policy_arn delay k'
  end.

Definition no_such_entity {A} (answer : result exn A) : bool :=
  match answer with
  | Raise (ClientError e) => String.eqb (code e) "NoSuchEntity"
  | _ => false
  end.

(** The number of [get_policy] calls in a trace. *)
Fixpoint polls (t : list event) : nat :=
  match t with
  | [] => 0
  | GetPolicy _ :: t' => S (polls t')
  | _ :: t' => polls t'
  end.

(** The [time.sleep] calls of the script in a trace, in order. *)
Fixpoint pauses (t : list event) : list Z :=
  match t with
  | [] => []
  | Sleep d :: t' => d :: pauses t'
  | _ :: t' => pauses t'
  end.

Lemma polls_app t1 t2 : polls (t1 ++ t2) = (polls t1 + polls t2)%nat.
Proof.
  induction t1 as [| ev t1 IH]; simpl; [reflexivity |].
  destruct ev; simpl; rewrite IH; reflexivity.
Qed.

Lemma pauses_app t1 t2 : pauses (t1 ++ t2) = pauses t1 ++ pauses t2.
Proof.
  induction t1 as [| ev t1 IH]; simpl; [reflexivity |].
  destruct ev; simpl; rewrite IH; reflexivity.
Qed.

Lemma polls_rounds policy_arn delay k : polls (rounds policy_arn delay k) = k.
Proof. induction k; simpl; congruence. Qed.

Lemma pauses_rounds policy_arn delay k :
  pauses (rounds policy_arn delay k) = repeat delay k.
Proof. induction k; simpl; congruence. Qed.

Lemma sleep_nonnegative seconds t :
  0 <= seconds -> sleep seconds t = (Ok tt, t ++ [Sleep seconds]).
Proof.
  intros H. unfold sleep. destruct (Z.ltb_spec seconds 0); [lia | reflexivity].
Qed.

Lemma sleep_negative seconds t :
  seconds < 0 ->
  sleep seconds t
  = (Raise (OtherError "ValueError: sleep length must be non-negative"), t).
Proof.
  intros H. unfold sleep. destruct (Z.ltb_spec seconds 0); [reflexivity | lia].
Qed.

Section Polling.
Variable aws : clients.
Variable policy_arn : string.
Variable delay : Z.
Hypothesis delay_nonnegative : 0 <= delay.

Lemma wait_for_policy_loop_S attempts t :
  wait_for_policy_loop aws (S attempts) policy_arn delay t
  = match get_policy aws t policy_arn with
    | Ok _ => (Ok true, t ++ [GetPolicy policy_arn])
    | Raise e =>
        if no_such_entity (A := string) (Raise e)
        then wait_for_policy_loop aws attempts policy_arn delay
               (t ++ [GetPolicy policy_arn; Sleep delay])
        else (Raise e, t ++ [GetPolicy policy_arn])
    end.
Proof.
  cbn [wait_for_policy_loop]. unfold bind, try_except, call, ret.
  destruct (get_policy aws t policy_arn) as [arn | [e | what]]; cbn; try reflexivity.
  destruct (String.eqb (code e) "NoSuchEntity"); [| reflexivity].
  rewrite (sleep_nonnegative delay _ delay_nonnegative).
  now rewrite <- app_assoc.
Qed.


(** Whatever the answers, the loop runs some [k <= attempts] unsuccessful
    rounds and then either gives up or makes one last poll. *)
Lemma wait_for_policy_loop_shape attempts : forall t,
  exists k, (k <= attempts)%nat
    /\ (snd (wait_for_policy_loop aws attempts policy_arn delay t)
          = t ++ rounds policy_arn delay k /\ k = attempts
        \/ snd (wait_for_policy_loop aws attempts policy_arn delay t)
             = t ++ rounds policy_arn delay k ++ [GetPolicy policy_arn]
           /\ (k < attempts)%nat).
Proof.
  induction attempts as [| attempts IH]; intros t.
  - exists 0%nat. split; [lia |]. left. cbn. now rewrite app_nil_r.
  - rewrite wait_for_policy_loop_S.
    destruct (get_policy aws t policy_arn) as [arn | e].
    + exists 0%nat. split; [lia |]. right. cbn. split; [reflexivity | lia].
    + destruct (no_such_entity (Raise e)).
      * destruct (IH (t ++ [GetPolicy policy_arn; Sleep delay])) as [k [Hk Hshape]].
        exists (S k). split; [lia |]. cbn [rounds].
        destruct Hshape as [[Hs Hkn] | [Hs Hkn]]; [left | right];
          (split; [rewrite Hs; now rewrite <- app_assoc | lia]).
      * exists 0%nat. split; [lia |]. right. cbn. split; [reflexivity | lia].
Qed.

End Polling.


(** With a negative delay the first NoSuchEntity answer ends the call:
    [time.sleep] raises [ValueError], which is no [ClientError] and
    leaves the function. *)
Lemma wait_for_policy_negative_delay aws policy_arn max_attempts delay t0 e :
  delay < 0 -> 0 < max_attempts ->
  get_policy aws t0 policy_arn = Raise (ClientError e) ->
  code e = "NoSuchEntity" ->
  wait_for_policy aws policy_arn max_attempts delay t0
  = (Raise (OtherError "ValueError: sleep length must be non-negative"),
     t0 ++ [GetPolicy policy_arn]).
Proof.
  intros Hdelay Hattempts Hpoll Hcode. unfold wait_for_policy.
  destruct (Z.to_nat max_attempts) as [| attempts] eqn:E; [lia |].
  cbn [wait_for_policy_loop]. unfold bind, try_except, call, ret.
  rewrite Hpoll, Hcode. cbn [String.eqb Ascii.eqb Bool.eqb].
  now rewrite (sleep_negative delay _ Hdelay).
Qed.

Definition no_such_entity_error : client_error :=
  {| code := "NoSuchEntity"; error_text := "Policy was not found." |}.

Definition already_exists_error : client_error :=
  {| code := "EntityAlreadyExists"; error_text := "Already exists." |}.

(** An account in which the role and the policy already exist, and a
    policy becomes visible at the third poll. *)
Definition example_aws : clients :=
  {| get_caller_identity := fun _ => Ok "123456789012";
     create_role := fun _ _ _ => Raise (ClientError already_exists_error);
     role_exists_waiter := fun _ _ _ _ => Ok tt;
     create_policy := fun _ _ => Raise (ClientError already_exists_error);
     get_policy := fun t policy_arn =>
       if (polls t <? 2)%nat && String.eqb policy_arn "arn:aws:iam::1:policy/p"
       then Raise (ClientError no_such_entity_error)
       else Ok policy_arn;
     attach_role_policy := fun _ _ _ => Ok tt;
     list_attached_role_policies := fun _ _ => Ok [POLICY_NAME] |}.


(** *** The provisioning steps of [main] *)

Definition is_attach (ev : event) : bool :=
  match ev with
  | AttachRolePolicy _ _ => true
  | _ => false
  end.

(** A computation only ever appends to the trace. *)
Definition extends {A} (m : M A) : Prop :=
  forall t, exists rest, snd (m t) = t ++ rest.

Lemma extends_ret {A} (a : A) : extends (ret a).
Proof. intros t. exists []. cbn. now rewrite app_nil_r. Qed.

Lemma extends_raise {A} (e : exn) : extends (A := A) (fun t => (Raise e, t)).
Proof. intros t. exists []. cbn. now rewrite app_nil_r. Qed.

Lemma extends_call {A} ev (answer : list event -> result exn A) :
  extends (call ev answer).
Proof. intros t. now exists [ev]. Qed.

Lemma extends_print m : extends (print m).
Proof. intros t. now exists [Print m]. Qed.

Lemma extends_sleep d : extends (sleep d).
Proof.
  intros t. unfold sleep. destruct (d <? 0); [exists [] | now exists [Sleep d]].
  cbn. now rewrite app_nil_r.
Qed.

Lemma extends_bind {A B} (m : M A) (k : A -> M B) :
  extends m -> (forall a, extends (k a)) -> extends (bind m k).
Proof.
  intros Hm Hk t. unfold bind. destruct (Hm t) as [r1 H1].
  destruct (m t) as [[a | e] t']; cbn in H1; subst t'.
  - destruct (Hk a (t ++ r1)) as [r2 H2]. exists (r1 ++ r2).
    now rewrite H2, app_assoc.
  - now exists r1.
Qed.

Lemma extends_try_except {A} (body : M A) handler :
  extends body -> (forall e, extends (handler e)) -> extends (try_except body handler).
Proof.
  intros Hb Hh t. unfold try_except. destruct (Hb t) as [r1 H1].
  destruct (body t) as [[a | [e | what]] t']; cbn in H1; subst t'.
  - now exists r1.
  - destruct (Hh e (t ++ r1)) as [r2 H2]. exists (r1 ++ r2).
    now rewrite H2, app_assoc.
  - now exists r1.
Qed.

Lemma extends_if {A} (b : bool) (m1 m2 : M A) :
  extends m1 -> extends m2 -> extends (if b then m1 else m2).
Proof. now destruct b. Qed.

Create HintDb trace_extends.
#[local] Hint Resolve extends_ret extends_raise extends_call extends_print
  extends_sleep extends_bind extends_try_except extends_if : trace_extends.

Section Steps.
Variable aws : clients.

Lemma extends_wait_for_policy_loop attempts policy_arn delay :
  extends (wait_for_policy_loop aws attempts policy_arn delay).
Proof.
  induction attempts as [| attempts IH]; cbn [wait_for_policy_loop].
  - auto with trace_extends.
  - apply extends_bind.
    + apply extends_try_except; [auto with trace_extends |].
      intros e. destruct (String.eqb (code e) "NoSuchEntity");
        auto with trace_extends.
    + intros [|]; auto with trace_extends.
Qed.

Lemma extends_wait_for_policy policy_arn max_attempts delay :
  extends (wait_for_policy aws policy_arn max_attempts delay).
Proof. apply extends_wait_for_policy_loop. Qed.

(** A guarded call is the first thing its [try] block records. *)
Lemma try_call_starts {A B} ev (answer : list event -> result exn A)
    (k : A -> M B) handler :
  (forall a, extends (k a)) -> (forall e, extends (handler e)) ->
  forall t, exists rest,
    snd (try_except (bind (call ev answer) k) handler t) = t ++ ev :: rest.
Proof.
  intros Hk Hh t. unfold try_except, bind, call.
  assert (Hfrom : forall r : list event, t ++ [ev] ++ r = t ++ ev :: r)
    by reflexivity.
  destruct (answer t) as [a | [e | what]].
  - destruct (Hk a (t ++ [ev])) as [r Hr].
    destruct (k a (t ++ [ev])) as [[b | [e | what]] t']; cbn in Hr; subst t'.
    + exists r. cbn. now rewrite <- app_assoc.
    + destruct (Hh e ((t ++ [ev]) ++ r)) as [r' Hr']. exists (r ++ r').
      rewrite Hr'. now rewrite <- !app_assoc.
    + exists r. cbn. now rewrite <- app_assoc.
  - destruct (Hh e (t ++ [ev])) as [r Hr]. exists r.
    rewrite Hr. now rewrite <- app_assoc.
  - now exists [].
Qed.

Lemma attach_policy_to_role_starts policy_arn t :
  exists rest,
    snd (attach_policy_to_role aws policy_arn t)
    = t ++ AttachRolePolicy ROLE_NAME policy_arn :: rest.
Proof.
  unfold attach_policy_to_role. apply try_call_starts.
  - intros _. apply extends_bind; [auto with trace_extends |]. intros _.
    apply extends_bind; [auto with trace_extends |]. intros names.
    apply extends_bind; [| auto with trace_extends].
    destruct (existsb _ names); auto with trace_extends.
  - intros e. auto with trace_extends.
Qed.

Lemma create_iam_policy_starts account_id t :
  exists rest,
    snd (create_iam_policy aws account_id t) = t ++ CreatePolicy POLICY_NAME :: rest.
Proof.
  unfold create_iam_policy. apply try_call_starts.
  - intros arn. apply extends_bind; [auto with trace_extends |]. intros _.
    apply extends_bind; [apply extends_wait_for_policy |].
    intros confirmed. destruct (negb confirmed); auto with trace_extends.
  - intros e. destruct (String.eqb (code e) "EntityAlreadyExists");
      [| auto with trace_extends].
    apply extends_try_except; [| auto with trace_extends].
    apply extends_bind; auto with trace_extends.
Qed.

(** The rest of [main] once the account id is known, and once the role
    step has fallen through. *)
Definition provision_policy (account_id : string) : M unit :=
  do policy <- create_iam_policy aws account_id;
  match policy with
  | Return => ret tt
  | Continue policy_arn =>
      do attached <- attach_policy_to_role aws policy_arn;
      match attached with
      | Return => ret tt
      | Continue _ => print AllOperationsCompleted
      end
  end.

Definition provision_role (account_id : string) : M unit :=
  do role <- create_iam_role aws account_id;
  match role with
  | Return => ret tt
  | Continue _ => provision_policy account_id
  end.

Lemma main_with_account account_id :
  get_caller_identity aws [] = Ok account_id ->
  main aws [] = provision_role account_id [GetCallerIdentity].
Proof.
  intros H. unfold main, provision_role, provision_policy.
  unfold bind at 1, get_account_id, try_except, bind at 1, call.
  now rewrite H.
Qed.

Lemma bind_continues {A B} (m : M A) (k : A -> M B) t prefix :
  (exists rest, snd (m t) = t ++ prefix ++ rest) ->
  (forall a, extends (k a)) ->
  exists rest, snd (bind m k t) = t ++ prefix ++ rest.
Proof.
  intros [r Hr] Hk. unfold bind.
  destruct (m t) as [[a | e] t']; cbn in Hr; subst t'.
  - destruct (Hk a (t ++ prefix ++ r)) as [r' Hr']. exists (r ++ r').
    rewrite Hr'. now rewrite <- !app_assoc.
  - now exists r.
Qed.

Lemma extends_after_attach (attached : flow unit) :
  extends (match attached with
           | Return => ret tt
           | Continue _ => print AllOperationsCompleted
           end).
Proof. destruct attached; auto with trace_extends. Qed.

Lemma extends_after_policy (policy : flow string) :
  extends (match policy with
           | Return => ret tt
           | Continue policy_arn =>
               do attached <- attach_policy_to_role aws policy_arn;
               match attached with
               | Return => ret tt
               | Continue _ => print AllOperationsCompleted
               end
           end).
Proof.
  destruct policy as [policy_arn |]; [| auto with trace_extends].
  apply extends_bind; [| apply extends_after_attach].
  intros t. destruct (attach_policy_to_role_starts policy_arn t) as [rest Hr].
  now exists (AttachRolePolicy ROLE_NAME policy_arn :: rest).
Qed.

Lemma provision_policy_starts account_id t :
  exists rest,
    snd (provision_policy account_id t) = t ++ [CreatePolicy POLICY_NAME] ++ rest.
Proof.
  unfold provision_policy. apply bind_continues; [| apply extends_after_policy].
  apply create_iam_policy_starts.
Qed.

(** The role step on a [create_role] that fails with a client error. *)
Lemma create_iam_role_client_error account_id t e :
  create_role aws t ROLE_NAME (federated_principal account_id) = Raise (ClientError e) ->
  create_iam_role aws account_id t
  = if String.eqb (code e) "EntityAlreadyExists"
    then (Ok (Continue tt),
          t ++ [CreateRole ROLE_NAME (federated_principal account_id);
                Print (RoleAlreadyExists ROLE_NAME)])
    else (Ok Return,
          t ++ [CreateRole ROLE_NAME (federated_principal account_id);
                Print (ErrorCreatingRole e)]).
Proof.
  intros H. unfold create_iam_role, try_except, bind at 1, call. rewrite H.
  destruct (String.eqb (code e) "EntityAlreadyExists"); cbn;
    now rewrite <- app_assoc.
Qed.

(** The policy step on a [create_policy] that fails with a client error. *)
Lemma create_iam_policy_client_error account_id t e :
  create_policy aws t POLICY_NAME = Raise (ClientError e) ->
  create_iam_policy aws account_id t
  = if String.eqb (code e) "EntityAlreadyExists"
    then
      match get_policy aws (t ++ [CreatePolicy POLICY_NAME])
              (existing_policy_arn account_id) with
      | Ok policy_arn =>
          (Ok (Continue policy_arn),
           t ++ [CreatePolicy POLICY_NAME; GetPolicy (existing_policy_arn account_id);
                 Print (PolicyAlreadyExists POLICY_NAME)])
      | Raise (ClientError e') =>
          (Ok Return,
           t ++ [CreatePolicy POLICY_NAME; GetPolicy (existing_policy_arn account_id);
                 Print (ErrorGettingExistingPolicy e')])
      | Raise (OtherError what) =>
          (Raise (OtherError what),
           t ++ [CreatePolicy POLICY_NAME; GetPolicy (existing_policy_arn account_id)])
      end
    else (Ok Return,
          t ++ [CreatePolicy POLICY_NAME; Print (ErrorCreatingPolicy e)]).
Proof.
  intros H. unfold create_iam_policy, try_except at 1, bind at 1, call at 1.
  rewrite H.
  destruct (String.eqb (code e) "EntityAlreadyExists").
  - unfold try_except, bind, call, print, ret.
    destruct (get_policy aws _ _) as [arn | [e' | what]]; cbn;
      now rewrite <- !app_assoc.
  - cbn. now rewrite <- app_assoc.
Qed.

(** The role step never attaches anything. *)
Lemma create_iam_role_no_attach account_id t :
  existsb is_attach (snd (create_iam_role aws account_id t)) = existsb is_attach t.
Proof.
  unfold create_iam_role, wait_for_role, try_except, bind, call, print, ret.
  destruct (create_role aws t _ _) as [[] | [e | what]]; cbn.
  - destruct (role_exists_waiter aws _ _ _ _) as [[] | [e | what]]; cbn;
      rewrite ?existsb_app; cbn; now rewrite ?orb_false_r.
  - destruct (String.eqb (code e) "EntityAlreadyExists"); cbn;
      rewrite ?existsb_app; cbn; now rewrite ?orb_false_r.
  - rewrite existsb_app. cbn. now rewrite orb_false_r.
Qed.

End Steps.

Lemma eqb_already_exists_false e :
  code e <> "EntityAlreadyExists" -> String.eqb (code e) "EntityAlreadyExists" = false.
Proof. intros H. now apply String.eqb_neq. Qed.

(** C7.  In [main], once the account id is known: a [create_role] failure
    with code EntityAlreadyExists is reported as "already exists" and the
    script goes on to create the policy; a [create_policy] failure with
    that code makes the script look up the existing policy's ARN and, with
    the ARN the lookup returns, go on to attach it to the role.  A
    creation failure with any other code prints the error and ends the
    script, with no attachment call made. *)
Theorem main_entity_already_exists aws account_id :
  get_caller_identity aws [] = Ok account_id ->
  let t1 := [GetCallerIdentity] in
  let role_call := CreateRole ROLE_NAME (federated_principal account_id) in
  let lookup := GetPolicy (existing_policy_arn account_id) in
  (forall e,
     create_role aws t1 ROLE_NAME (federated_principal account_id)
       = Raise (ClientError e) ->
     (code e = "EntityAlreadyExists" ->
      exists rest,
        snd (main aws [])
        = t1 ++ [role_call; Print (RoleAlreadyExists ROLE_NAME);
                 CreatePolicy POLICY_NAME] ++ rest)
     /\ (code e <> "EntityAlreadyExists" ->
         main aws [] = (Ok tt, t1 ++ [role_call; Print (ErrorCreatingRole e)])
         /\ existsb is_attach (snd (main aws [])) = false))
  /\ (forall t2,
        create_iam_role aws account_id t1 = (Ok (Continue tt), t2) ->
        forall e, create_policy aws t2 POLICY_NAME = Raise (ClientError e) ->
        (code e = "EntityAlreadyExists" ->
         (exists rest,
            snd (main aws []) = t2 ++ [CreatePolicy POLICY_NAME; lookup] ++ rest)
         /\ forall policy_arn,
              get_policy aws (t2 ++ [CreatePolicy POLICY_NAME])
                (existing_policy_arn account_id) = Ok policy_arn ->
              exists rest,
                snd (main aws [])
                = t2 ++ [CreatePolicy POLICY_NAME; lookup;
                         Print (PolicyAlreadyExists POLICY_NAME);
                         AttachRolePolicy ROLE_NAME policy_arn] ++ rest)
        /\ (code e <> "EntityAlreadyExists" ->
            main aws []
            = (Ok tt, t2 ++ [CreatePolicy POLICY_NAME; Print (ErrorCreatingPolicy e)])
            /\ existsb is_attach (snd (main aws [])) = false)).
Proof.
  intros Haccount t1 role_call lookup. subst t1 role_call lookup.
  rewrite (main_with_account aws account_id Haccount).
  split.
  - intros e Hrole.
    assert (Hrun : provision_role aws account_id [GetCallerIdentity]
                   = if String.eqb (code e) "EntityAlreadyExists"
                     then provision_policy aws account_id
                            ([GetCallerIdentity]
                             ++ [CreateRole ROLE_NAME (federated_principal account_id);
                                 Print (RoleAlreadyExists ROLE_NAME)])
                     else (Ok tt,
                           [GetCallerIdentity]
                           ++ [CreateRole ROLE_NAME (federated_principal account_id);
                               Print (ErrorCreatingRole e)])).
    { unfold provision_role, bind at 1.
      rewrite (create_iam_role_client_error aws account_id _ e Hrole).
      now destruct (String.eqb (code e) "EntityAlreadyExists"). }
    rewrite Hrun. split.
    + intros Hcode. rewrite Hcode. cbn [String.eqb Ascii.eqb Bool.eqb].
      destruct (provision_policy_starts aws account_id
                  ([GetCallerIdentity]
                   ++ [CreateRole ROLE_NAME (federated_principal account_id);
                       Print (RoleAlreadyExists ROLE_NAME)])) as [rest Hrest].
      exists rest. rewrite Hrest. now rewrite <- !app_assoc.
    + intros Hcode. rewrite (eqb_already_exists_false e Hcode).
      split; reflexivity.
  - intros t2 Hrole e Hpolicy.
    assert (Hquiet : existsb is_attach t2 = false).
    { pose proof (create_iam_role_no_attach aws account_id [GetCallerIdentity]) as H.
      now rewrite Hrole in H. }
    assert (Hrun : provision_role aws account_id [GetCallerIdentity]
                   = provision_policy aws account_id t2).
    { unfold provision_role, bind at 1. now rewrite Hrole. }
    rewrite Hrun. clear Hrun.
    set (t3 := t2 ++ [CreatePolicy POLICY_NAME;
                      GetPolicy (existing_policy_arn account_id);
                      Print (PolicyAlreadyExists POLICY_NAME)]).
    assert (Hrun : provision_policy aws account_id t2
                   = if String.eqb (code e) "EntityAlreadyExists"
                     then
                       match get_policy aws (t2 ++ [CreatePolicy POLICY_NAME])
                               (existing_policy_arn account_id) with
                       | Ok policy_arn =>
                           bind (attach_policy_to_role aws policy_arn)
                             (fun attached : flow unit =>
                                match attached with
                                | Return => ret tt
                                | Continue _ => print AllOperationsCompleted
                                end) t3
                       | Raise (ClientError e') =>
                           (Ok tt,
                            t2 ++ [CreatePolicy POLICY_NAME;
                                   GetPolicy (existing_policy_arn account_id);
                                   Print (ErrorGettingExistingPolicy e')])
                       | Raise (OtherError what) =>
                           (Raise (OtherError what),
                            t2 ++ [CreatePolicy POLICY_NAME;
                                   GetPolicy (existing_policy_arn account_id)])
                       end
                     else (Ok tt,
                           t2 ++ [CreatePolicy POLICY_NAME;
                                  Print (ErrorCreatingPolicy e)])).
    { unfold provision_policy, bind at 1.
      rewrite (create_iam_policy_client_error aws account_id t2 e Hpolicy).
      destruct (String.eqb (code e) "EntityAlreadyExists"); [| reflexivity].
      now destruct (get_policy aws _ _) as [arn | [e' | what]]. }
    rewrite Hrun. clear Hrun. split.
    + intros Hcode. rewrite Hcode. cbn [String.eqb Ascii.eqb Bool.eqb].
      assert (Hattach : forall policy_arn, exists rest,
                snd (bind (attach_policy_to_role aws policy_arn)
                       (fun attached : flow unit =>
                          match attached with
                          | Return => ret tt
                          | Continue _ => print AllOperationsCompleted
                          end) t3)
                = t3 ++ [AttachRolePolicy ROLE_NAME policy_arn] ++ rest).
      { intros policy_arn. apply bind_continues; [| apply extends_after_attach].
        apply attach_policy_to_role_starts. }
      split.
      * destruct (get_policy aws _ _) as [arn | [e' | what]].
        -- destruct (Hattach arn) as [rest Hrest]. eexists. rewrite Hrest.
           subst t3. rewrite <- app_assoc. reflexivity.
        -- eexists. reflexivity.
        -- exists []. reflexivity.
      * intros policy_arn ->. destruct (Hattach policy_arn) as [rest Hrest].
        exists rest. rewrite Hrest. subst t3. now rewrite <- !app_assoc.
    + intros Hcode. rewrite (eqb_already_exists_false e Hcode).
      split; [reflexivity |].
      cbn [snd]. rewrite existsb_app, Hquiet. reflexivity.
Qed.

Lemma main_entity_already_exists_witness :
  exists rest,
    snd (main example_aws [])
    = [GetCallerIdentity;
       CreateRole ROLE_NAME (federated_principal "123456789012");
       Print (RoleAlreadyExists ROLE_NAME);
       CreatePolicy POLICY_NAME;
       GetPolicy (existing_policy_arn "123456789012");
       Print (PolicyAlreadyExists POLICY_NAME);
       AttachRolePolicy ROLE_NAME (existing_policy_arn "123456789012")] ++ rest.
Proof.
  destruct (main_entity_already_exists example_aws "123456789012" eq_refl)
    as [_ Hpolicy].
  destruct (Hpolicy
              [GetCallerIdentity;
               CreateRole ROLE_NAME (federated_principal "123456789012");
               Print (RoleAlreadyExists ROLE_NAME)]
              eq_refl already_exists_error eq_refl) as [Hexists _].
  destruct (Hexists eq_refl) as [_ Hattach].
  destruct (Hattach (existing_policy_arn "123456789012") eq_refl) as [rest Hrest].
  exists rest. exact Hrest.
Defined.

(** The whole run on the example account. *)
Example main_example_run :
  main example_aws []
  = (Ok tt,
     [GetCallerIdentity;
      CreateRole ROLE_NAME (federated_principal "123456789012");
      Print (RoleAlreadyExists ROLE_NAME);
      CreatePolicy POLICY_NAME;
      GetPolicy (existing_policy_arn "123456789012");
      Print (PolicyAlreadyExists POLICY_NAME);
      AttachRolePolicy ROLE_NAME (existing_policy_arn "123456789012");
      Print PolicyAttachedToRole;
      ListAttachedRolePolicies ROLE_NAME;
      Print VerifiedPolicyAttachment;
      Print AllOperationsCompleted]).
Proof. reflexivity. Qed.

(** When the lookup of the existing policy itself fails with a client
    error, the error is printed and the script ends there. *)
Lemma existing_policy_lookup_failure aws account_id t e e' :
  create_policy aws t POLICY_NAME = Raise (ClientError e) ->
  code e = "EntityAlreadyExists" ->
  get_policy aws (t ++ [CreatePolicy POLICY_NAME]) (existing_policy_arn account_id)
    = Raise (ClientError e') ->
  provision_policy aws account_id t
  = (Ok tt,
     t ++ [CreatePolicy POLICY_NAME; GetPolicy (existing_policy_arn account_id);
           Print (ErrorGettingExistingPolicy e')]).
Proof.
  intros Hcreate Hcode Hlookup. unfold provision_policy, bind at 1.
  rewrite (create_iam_policy_client_error aws account_id t e Hcreate), Hcode.
  cbn [String.eqb Ascii.eqb Bool.eqb]. now rewrite Hlookup.
Qed.


(** *** What [main] never does, and what it prints *)

(** A computation appends only events that satisfy [p]. *)
Definition emits (p : event -> bool) {A} (m : M A) : Prop :=
  forall t, exists rest, snd (m t) = t ++ rest /\ forallb p rest = true.

Lemma emits_ret p {A} (a : A) : emits p (ret a).
Proof. intros t. exists []. cbn. now rewrite app_nil_r. Qed.

Lemma emits_raise p {A} (e : exn) : emits p (A := A) (fun t => (Raise e, t)).
Proof. intros t. exists []. cbn. now rewrite app_nil_r. Qed.

Lemma emits_call p {A} ev (answer : list event -> result exn A) :
  p ev = true -> emits p (call ev answer).
Proof. intros H t. exists [ev]. cbn. now rewrite H. Qed.

Lemma emits_print p m : p (Print m) = true -> emits p (print m).
Proof. intros H t. exists [Print m]. cbn. now rewrite H. Qed.

Lemma emits_sleep p d : p (Sleep d) = true -> emits p (sleep d).
Proof.
  intros H t. unfold sleep. destruct (d <? 0).
  - exists []. cbn. now rewrite app_nil_r.
  - exists [Sleep d]. cbn. now rewrite H.
Qed.

Lemma emits_bind p {A B} (m : M A) (k : A -> M B) :
  emits p m -> (forall a, emits p (k a)) -> emits p (bind m k).
Proof.
  intros Hm Hk t. unfold bind. destruct (Hm t) as [r1 [H1 P1]].
  destruct (m t) as [[a | e] t']; cbn in H1; subst t'.
  - destruct (Hk a (t ++ r1)) as [r2 [H2 P2]]. exists (r1 ++ r2).
    rewrite H2, app_assoc, forallb_app, P1, P2. now split.
  - now exists r1.
Qed.

Lemma emits_try_except p {A} (body : M A) handler :
  emits p body -> (forall e, emits p (handler e)) -> emits p (try_except body handler).
Proof.
  intros Hb Hh t. unfold try_except. destruct (Hb t) as [r1 [H1 P1]].
  destruct (body t) as [[a | [e | what]] t']; cbn in H1; subst t'.
  - now exists r1.
  - destruct (Hh e (t ++ r1)) as [r2 [H2 P2]]. exists (r1 ++ r2).
    rewrite H2, app_assoc, forallb_app, P1, P2. now split.
  - now exists r1.
Qed.

Lemma emits_if p {A} (b : bool) (m1 m2 : M A) :
  emits p m1 -> emits p m2 -> emits p (if b then m1 else m2).
Proof. now destruct b. Qed.

(** A computation never lets a client error out. *)
Definition contains_client_errors {A} (m : M A) : Prop :=
  forall t e, fst (m t) <> Raise (ClientError e).

Lemma contains_ret {A} (a : A) : contains_client_errors (ret a).
Proof. intros t e. discriminate. Qed.

Lemma contains_print m : contains_client_errors (print m).
Proof. intros t e. discriminate. Qed.

Lemma contains_bind {A B} (m : M A) (k : A -> M B) :
  contains_client_errors m -> (forall a, contains_client_errors (k a)) ->
  contains_client_errors (bind m k).
Proof.
  intros Hm Hk t e. unfold bind. specialize (Hm t e).
  destruct (m t) as [[a | e'] t']; cbn in *; [apply Hk |].
  intros H. apply Hm. congruence.
Qed.

Lemma contains_try_except {A} (body : M A) handler :
  (forall e, contains_client_errors (handler e)) ->
  contains_client_errors (try_except body handler).
Proof.
  intros Hh t e. unfold try_except.
  destruct (body t) as [[a | [e' | what]] t']; cbn; try discriminate. apply Hh.
Qed.

Lemma contains_flow {A B} (r : flow A) (k : A -> M B) (stop : M B) :
  contains_client_errors stop -> (forall a, contains_client_errors (k a)) ->
  contains_client_errors (match r with Return => stop | Continue a => k a end).
Proof. destruct r; auto. Qed.

Lemma wait_for_role_contains aws role_name max_attempts delay :
  contains_client_errors (wait_for_role aws role_name max_attempts delay).
Proof.
  apply contains_try_except. intros e.
  apply contains_bind; [apply contains_print | intros _; apply contains_ret].
Qed.

(** X12.  [main] never lets a [ClientError] out: whatever the IAM and STS
    calls answer, the script returns or raises an exception of another
    kind.  [wait_for_role] makes the one waiter call and returns [True]
    when it returns; when it raises a [ClientError] it prints "Error
    waiting for role" with the error and returns [False]; any other
    exception of the waiter leaves it. *)
Theorem main_contains_client_errors aws t e :
  fst (main aws t) <> Raise (ClientError e)
  /\ forall role_name max_attempts delay,
       let waiter := WaitRoleExists role_name delay max_attempts in
       wait_for_role aws role_name max_attempts delay t
       = match role_exists_waiter aws t role_name delay max_attempts with
         | Ok _ => (Ok true, t ++ [waiter])
         | Raise (ClientError e') =>
             (Ok false, t ++ [waiter; Print (ErrorWaitingForRole e')])
         | Raise (OtherError what) => (Raise (OtherError what), t ++ [waiter])
         end.
Proof.
  split.
  2:{ intros role_name max_attempts delay. cbv zeta.
      unfold wait_for_role, try_except, bind, call, print, ret.
      destruct (role_exists_waiter aws t role_name delay max_attempts)
        as [[] | [e' | what]]; cbn; try reflexivity.
      now rewrite <- app_assoc. }
  revert t e.
  change (contains_client_errors (main aws)). unfold main.
  apply contains_bind.
  { apply contains_try_except. intros e.
    apply contains_bind; [apply contains_print | intros _; apply contains_ret]. }
  intros account. apply (contains_flow account); [apply contains_ret |].
  intros account_id. apply contains_bind.
  { apply contains_try_except. intros e.
    destruct (String.eqb (code e) "EntityAlreadyExists");
      (apply contains_bind; [apply contains_print | intros _; apply contains_ret]). }
  intros role. apply (contains_flow role); [apply contains_ret |].
  intros _. apply contains_bind.
  { apply contains_try_except. intros e.
    destruct (String.eqb (code e) "EntityAlreadyExists").
    - apply contains_try_except. intros e'.
      apply contains_bind; [apply contains_print | intros _; apply contains_ret].
    - apply contains_bind; [apply contains_print | intros _; apply contains_ret]. }
  intros policy. apply (contains_flow policy); [apply contains_ret |].
  intros policy_arn. apply contains_bind.
  { apply contains_try_except. intros e.
    apply contains_bind; [apply contains_print | intros _; apply contains_ret]. }
  intros attached. apply (contains_flow attached);
    [apply contains_ret | intros _; apply contains_print].
Qed.


(** A computation adds at most [np] policy lookups and [ns] [time.sleep]
    calls of the script, each of 2 seconds. *)
Definition bounded (np ns : nat) {A} (m : M A) : Prop :=
  forall t, exists rest,
    snd (m t) = t ++ rest
    /\ (polls rest <= np)%nat
    /\ exists k, (k <= ns)%nat /\ pauses rest = repeat 2 k.

Definition is_quiet (ev : event) : bool :=
  match ev with
  | GetPolicy _ | Sleep _ => false
  | _ => true
  end.

Lemma bounded_ret {A} (a : A) : bounded 0 0 (ret a).
Proof.
  intros t. exists []. cbn. rewrite app_nil_r.
  split; [reflexivity | split; [lia | now exists 0%nat]].
Qed.

Lemma bounded_raise {A} (e : exn) : bounded 0 0 (A := A) (fun t => (Raise e, t)).
Proof.
  intros t. exists []. cbn. rewrite app_nil_r.
  split; [reflexivity | split; [lia | now exists 0%nat]].
Qed.

Lemma bounded_call {A} ev (answer : list event -> result exn A) :
  is_quiet ev = true -> bounded 0 0 (call ev answer).
Proof.
  intros H t. exists [ev]. split; [reflexivity |].
  destruct ev; try discriminate H; cbn; (split; [lia | now exists 0%nat]).
Qed.

Lemma bounded_print m : bounded 0 0 (print m).
Proof.
  intros t. exists [Print m]. cbn. split; [reflexivity | split; [lia | now exists 0%nat]].
Qed.

Lemma bounded_lookup {A} policy_arn (answer : list event -> result exn A) :
  bounded 1 0 (call (GetPolicy policy_arn) answer).
Proof.
  intros t. exists [GetPolicy policy_arn]. cbn.
  split; [reflexivity | split; [lia | now exists 0%nat]].
Qed.

Lemma bounded_weaken {A} (m : M A) np ns np' ns' :
  bounded np ns m -> (np <= np')%nat -> (ns <= ns')%nat -> bounded np' ns' m.
Proof.
  intros H Hp Hs t. destruct (H t) as [rest [E [P [k [K S]]]]].
  exists rest. split; [exact E | split; [lia |]]. exists k. split; [lia | exact S].
Qed.

Lemma bounded_app t r1 r2 np1 ns1 np2 ns2 :
  (polls r1 <= np1)%nat -> (exists k, (k <= ns1)%nat /\ pauses r1 = repeat 2 k) ->
  (polls r2 <= np2)%nat -> (exists k, (k <= ns2)%nat /\ pauses r2 = repeat 2 k) ->
  (t ++ r1) ++ r2 = t ++ (r1 ++ r2)
  /\ (polls (r1 ++ r2) <= np1 + np2)%nat
  /\ exists k, (k <= ns1 + ns2)%nat /\ pauses (r1 ++ r2) = repeat 2 k.
Proof.
  intros P1 [k1 [K1 S1]] P2 [k2 [K2 S2]].
  split; [now rewrite app_assoc |]. rewrite polls_app, pauses_app.
  split; [lia |]. exists (k1 + k2)%nat. split; [lia |].
  now rewrite S1, S2, repeat_app.
Qed.

Lemma bounded_bind {A B} (m : M A) (k : A -> M B) np1 ns1 np2 ns2 :
  bounded np1 ns1 m -> (forall a, bounded np2 ns2 (k a)) ->
  bounded (np1 + np2) (ns1 + ns2) (bind m k).
Proof.
  intros Hm Hk t. unfold bind. destruct (Hm t) as [r1 [H1 [P1 S1]]].
  destruct (m t) as [[a | e] t']; cbn in H1; subst t'.
  - destruct (Hk a (t ++ r1)) as [r2 [H2 [P2 S2]]]. exists (r1 ++ r2).
    rewrite H2. apply (bounded_app t r1 r2 np1 ns1 np2 ns2); assumption.
  - exists r1. split; [reflexivity | split; [cbn; lia |]].
    destruct S1 as [k1 [K1 S1]]. exists k1. split; [lia | exact S1].
Qed.

Lemma bounded_try_except {A} (body : M A) handler np1 ns1 np2 ns2 :
  bounded np1 ns1 body -> (forall e, bounded np2 ns2 (handler e)) ->
  bounded (np1 + np2) (ns1 + ns2) (try_except body handler).
Proof.
  intros Hb Hh t. unfold try_except. destruct (Hb t) as [r1 [H1 [P1 S1]]].
  assert (Halone : exists rest,
            t ++ r1 = t ++ rest /\ (polls rest <= np1 + np2)%nat
            /\ exists k, (k <= ns1 + ns2)%nat /\ pauses rest = repeat 2 k).
  { exists r1. split; [reflexivity | split; [lia |]].
    destruct S1 as [k1 [K1 S1]]. exists k1. split; [lia | exact S1]. }
  destruct (body t) as [[a | [e | what]] t']; cbn in H1; subst t'; cbn [snd];
    try exact Halone.
  destruct (Hh e (t ++ r1)) as [r2 [H2 [P2 S2]]]. exists (r1 ++ r2).
  rewrite H2. apply (bounded_app t r1 r2 np1 ns1 np2 ns2); assumption.
Qed.

Lemma bounded_wait_for_policy aws policy_arn :
  bounded 10 10 (wait_for_policy aws policy_arn 10 2).
Proof.
  intros t. unfold wait_for_policy.
  destruct (wait_for_policy_loop_shape aws policy_arn 2 ltac:(lia) (Z.to_nat 10) t)
    as [k [Hk [[Hs _] | [Hs Hlt]]]].
  - exists (rounds policy_arn 2 k). rewrite polls_rounds, pauses_rounds.
    change (Z.to_nat 10) with 10%nat in Hk.
    split; [exact Hs | split; [exact Hk | now exists k]].
  - exists (rounds policy_arn 2 k ++ [GetPolicy policy_arn]).
    rewrite polls_app, pauses_app, polls_rounds, pauses_rounds. cbn.
    rewrite app_nil_r. change (Z.to_nat 10) with 10%nat in Hk, Hlt.
    split; [exact Hs | split; [lia | now exists k]].
Qed.

Lemma bounded_get_account_id aws : bounded 0 0 (get_account_id aws).
Proof.
  unfold get_account_id.
  apply (bounded_try_except _ _ 0 0 0 0).
  - apply (bounded_bind _ _ 0 0 0 0); [now apply bounded_call |].
    intros a. apply bounded_ret.
  - intros e. apply (bounded_bind _ _ 0 0 0 0); [apply bounded_print |].
    intros _. apply bounded_ret.
Qed.

Lemma bounded_print_then {A} m (a : A) : bounded 0 0 (print m >> ret a).
Proof.
  apply (bounded_bind _ _ 0 0 0 0); [apply bounded_print | intros _; apply bounded_ret].
Qed.

Lemma bounded_create_iam_role aws account_id :
  bounded 0 0 (create_iam_role aws account_id).
Proof.
  unfold create_iam_role, wait_for_role.
  apply (bounded_try_except _ _ 0 0 0 0).
  - apply (bounded_bind _ _ 0 0 0 0); [now apply bounded_call |]. intros _.
    apply (bounded_bind _ _ 0 0 0 0); [apply bounded_print |]. intros _.
    apply (bounded_bind _ _ 0 0 0 0).
    + apply (bounded_try_except _ _ 0 0 0 0).
      * apply (bounded_bind _ _ 0 0 0 0); [now apply bounded_call |].
        intros _. apply bounded_ret.
      * intros e. apply bounded_print_then.
    + intros confirmed. destruct (negb confirmed);
        [apply bounded_print_then | apply bounded_ret].
  - intros e. destruct (String.eqb (code e) "EntityAlreadyExists");
      apply bounded_print_then.
Qed.

Lemma bounded_create_iam_policy aws account_id :
  bounded 11 10 (create_iam_policy aws account_id).
Proof.
  unfold create_iam_policy.
  apply (bounded_try_except _ _ 10 10 1 0).
  - apply (bounded_bind _ _ 0 0 10 10); [now apply bounded_call |]. intros arn.
    apply (bounded_bind _ _ 0 0 10 10); [apply bounded_print |]. intros _.
    apply (bounded_bind _ _ 10 10 0 0); [apply bounded_wait_for_policy |].
    intros confirmed. destruct (negb confirmed);
      [apply bounded_print_then | apply bounded_ret].
  - intros e. destruct (String.eqb (code e) "EntityAlreadyExists").
    + apply (bounded_try_except _ _ 1 0 0 0).
      * apply (bounded_bind _ _ 1 0 0 0); [apply bounded_lookup |]. intros arn.
        apply bounded_print_then.
      * intros e'. apply bounded_print_then.
    + apply (bounded_weaken _ 0 0); [apply bounded_print_then | lia | lia].
Qed.

Lemma bounded_attach_policy_to_role aws policy_arn :
  bounded 0 0 (attach_policy_to_role aws policy_arn).
Proof.
  unfold attach_policy_to_role.
  apply (bounded_try_except _ _ 0 0 0 0).
  - apply (bounded_bind _ _ 0 0 0 0); [now apply bounded_call |]. intros _.
    apply (bounded_bind _ _ 0 0 0 0); [apply bounded_print |]. intros _.
    apply (bounded_bind _ _ 0 0 0 0); [now apply bounded_call |]. intros names.
    apply (bounded_bind _ _ 0 0 0 0); [| intros _; apply bounded_ret].
    destruct (existsb _ names); apply bounded_print.
  - intros e. apply bounded_print_then.
Qed.

Lemma bounded_flow {A B} (r : flow A) (k : A -> M B) (stop : M B) np ns :
  bounded np ns stop -> (forall a, bounded np ns (k a)) ->
  bounded np ns (match r with Return => stop | Continue a => k a end).
Proof. destruct r; auto. Qed.

Lemma sum_repeat_two k : fold_right Z.add 0 (repeat 2 k) = 2 * Z.of_nat k.
Proof. induction k as [| k IH]; [reflexivity |]. cbn [repeat fold_right]. lia. Qed.

(** X14.  A run of [main] asks for the policy at most 11 times (ten
    polls after creating it and one lookup of an existing policy), and
    the script itself calls [time.sleep] at most 10 times, for 2 seconds
    each: at most 20 seconds of its own sleeping.  The waiting of the
    botocore waiter inside [wait_for_role] is not part of this count. *)
Theorem main_lookups_and_pauses_bounded aws :
  let trace := snd (main aws []) in
  (polls trace <= 11)%nat
  /\ (exists k, (k <= 10)%nat /\ pauses trace = repeat 2 k)
  /\ fold_right Z.add 0 (pauses trace) <= 20.
Proof.
  assert (Hmain : bounded 11 10 (main aws)).
  { unfold main.
    apply (bounded_bind _ _ 0 0 11 10); [apply bounded_get_account_id |].
    intros account. apply bounded_flow.
    { apply (bounded_weaken _ 0 0); [apply bounded_ret | lia | lia]. }
    intros account_id.
    apply (bounded_bind _ _ 0 0 11 10); [apply bounded_create_iam_role |].
    intros role. apply bounded_flow.
    { apply (bounded_weaken _ 0 0); [apply bounded_ret | lia | lia]. }
    intros _.
    apply (bounded_bind _ _ 11 10 0 0); [apply bounded_create_iam_policy |].
    intros policy. apply bounded_flow; [apply bounded_ret |].
    intros policy_arn.
    apply (bounded_bind _ _ 0 0 0 0); [apply bounded_attach_policy_to_role |].
    intros attached. apply bounded_flow; [apply bounded_ret |].
    intros _. apply bounded_print. }
  destruct (Hmain []) as [rest [Htrace [Hpolls [k [Hk Hpauses]]]]].
  cbn [app] in Htrace. cbv zeta. rewrite Htrace.
  split; [exact Hpolls | split; [now exists k |]].
  rewrite Hpauses, sum_repeat_two. lia.
Qed.


(** The events of the steps before the attachment. *)
Definition early (ev : event) : bool :=
  match ev with
  | AttachRolePolicy _ _ | ListAttachedRolePolicies _ => false
  | Print PolicyAttachedToRole | Print VerifiedPolicyAttachment
  | Print PolicyAttachmentVerificationFailed
  | Print (ErrorAttachingPolicyToRole _) | Print AllOperationsCompleted => false
  | _ => true
  end.

Lemma emits_print_then p {A} m (a : A) :
  p (Print m) = true -> emits p (print m >> ret a).
Proof.
  intros H. apply emits_bind; [now apply emits_print | intros _; apply emits_ret].
Qed.

Lemma emits_wait_for_policy_loop aws attempts policy_arn delay :
  emits early (wait_for_policy_loop aws attempts policy_arn delay).
Proof.
  induction attempts as [| attempts IH]; cbn [wait_for_policy_loop].
  - apply emits_ret.
  - apply emits_bind.
    + apply emits_try_except.
      * apply emits_bind; [now apply emits_call | intros _; apply emits_ret].
      * intros e. destruct (String.eqb (code e) "NoSuchEntity").
        -- apply emits_bind; [now apply emits_sleep | intros _; apply emits_ret].
        -- apply emits_raise.
    + intros [|]; [apply emits_ret | exact IH].
Qed.

Lemma emits_get_account_id aws : emits early (get_account_id aws).
Proof.
  apply emits_try_except.
  - apply emits_bind; [now apply emits_call | intros a; apply emits_ret].
  - intros e. now apply emits_print_then.
Qed.

Lemma emits_create_iam_role aws account_id :
  emits early (create_iam_role aws account_id).
Proof.
  apply emits_try_except.
  - apply emits_bind; [now apply emits_call |]. intros _.
    apply emits_bind; [now apply emits_print |]. intros _.
    apply emits_bind.
    + apply emits_try_except.
      * apply emits_bind; [now apply emits_call | intros _; apply emits_ret].
      * intros e. now apply emits_print_then.
    + intros confirmed. destruct (negb confirmed);
        [now apply emits_print_then | apply emits_ret].
  - intros e. destruct (String.eqb (code e) "EntityAlreadyExists");
      now apply emits_print_then.
Qed.

Lemma emits_create_iam_policy aws account_id :
  emits early (create_iam_policy aws account_id).
Proof.
  apply emits_try_except.
  - apply emits_bind; [now apply emits_call |]. intros arn.
    apply emits_bind; [now apply emits_print |]. intros _.
    apply emits_bind; [apply emits_wait_for_policy_loop |].
    intros confirmed. destruct (negb confirmed);
      [now apply emits_print_then | apply emits_ret].
  - intros e. destruct (String.eqb (code e) "EntityAlreadyExists").
    + apply emits_try_except.
      * apply emits_bind; [now apply emits_call |]. intros arn.
        now apply emits_print_then.
      * intros e'. now apply emits_print_then.
    + now apply emits_print_then.
Qed.

(** The end of [main], from the result of the attachment step. *)
Definition after_attach (attached : result exn (flow unit) * list event)
  : result exn unit * list event :=
  match attached with
  | (Ok (Continue _), t) => (Ok tt, t ++ [Print AllOperationsCompleted])
  | (Ok Return, t) => (Ok tt, t)
  | (Raise e, t) => (Raise e, t)
  end.

(** A run of [main] stops in the early steps or goes through the
    attachment step. *)
Lemma main_cases aws :
  (forallb early (snd (main aws [])) = true)
  \/ exists before policy_arn,
       forallb early before = true
       /\ main aws [] = after_attach (attach_policy_to_role aws policy_arn before).
Proof.
  unfold main, bind.
  destruct (emits_get_account_id aws []) as [r1 [H1 P1]].
  destruct (get_account_id aws []) as [[[account_id |] | e] t1];
    cbn in H1; subst t1; try (left; exact P1).
  destruct (emits_create_iam_role aws account_id r1) as [r2 [H2 P2]].
  destruct (create_iam_role aws account_id r1) as [[[[] |] | e] t2];
    cbn in H2; subst t2;
    try (left; cbn [snd ret]; now rewrite forallb_app, P1, P2).
  destruct (emits_create_iam_policy aws account_id (r1 ++ r2)) as [r3 [H3 P3]].
  destruct (create_iam_policy aws account_id (r1 ++ r2)) as [[[policy_arn |] | e] t3];
    cbn in H3; subst t3;
    try (left; cbn [snd ret]; now rewrite !forallb_app, P1, P2, P3).
  right. exists ((r1 ++ r2) ++ r3), policy_arn.
  split; [now rewrite !forallb_app, P1, P2, P3 |].
  unfold after_attach.
  destruct (attach_policy_to_role aws policy_arn _) as [[[[] |] | e] t4];
    reflexivity.
Qed.

(** The outcomes of the attachment step. *)
Lemma attach_policy_to_role_cases aws policy_arn t :
  let attach := AttachRolePolicy ROLE_NAME policy_arn in
  let listed := [attach; Print PolicyAttachedToRole;
                 ListAttachedRolePolicies ROLE_NAME] in
  (exists verdict,
     (verdict = VerifiedPolicyAttachment
      \/ verdict = PolicyAttachmentVerificationFailed)
     /\ attach_policy_to_role aws policy_arn t
        = (Ok (Continue tt), t ++ listed ++ [Print verdict]))
  \/ (exists r rest,
        attach_policy_to_role aws policy_arn t = (r, t ++ attach :: rest)
        /\ r <> Ok (Continue tt)
        /\ ~ In (Print PolicyAttachmentVerificationFailed) rest
        /\ ~ In (Print AllOperationsCompleted) rest).
Proof.
  intros attach listed. subst attach listed.
  unfold attach_policy_to_role, try_except, bind, call, print, ret.
  destruct (attach_role_policy aws t ROLE_NAME policy_arn) as [[] | [e | what]]; cbn.
  - destruct (list_attached_role_policies aws _ ROLE_NAME)
      as [names | [e | what]]; cbn.
    + left. destruct (existsb _ names); cbn; eexists;
        (split; [| rewrite <- !app_assoc; reflexivity]); auto.
    + right. eexists _, _. rewrite <- !app_assoc. cbn [app].
      split; [reflexivity | split; [discriminate |]].
      cbn. intuition discriminate.
    + right. eexists _, _. rewrite <- !app_assoc. cbn [app].
      split; [reflexivity | split; [discriminate |]].
      cbn. intuition discriminate.
  - right. eexists _, _. rewrite <- !app_assoc. cbn [app].
    split; [reflexivity | split; [discriminate |]]. cbn. intuition discriminate.
  - right. exists (Raise (OtherError what)), [].
    split; [reflexivity | split; [discriminate |]]. split; intros [].
Qed.

Lemma early_In trace ev : forallb early trace = true -> In ev trace -> early ev = true.
Proof. intros H Hin. rewrite forallb_forall in H. now apply H. Qed.

(** X13.  [main] prints "All operations completed successfully!" only
    at the end of a run that returns normally and in which the policy
    was attached to the role; and it prints it also when the check of the
    attachment failed: every run that prints "Policy attachment
    verification failed" goes on to print the success message. *)
Theorem main_success_message aws :
  let run := main aws [] in
  (In (Print AllOperationsCompleted) (snd run) ->
   fst run = Ok tt
   /\ (exists before, snd run = before ++ [Print AllOperationsCompleted])
   /\ exists policy_arn, In (AttachRolePolicy ROLE_NAME policy_arn) (snd run))
  /\ (In (Print PolicyAttachmentVerificationFailed) (snd run) ->
      In (Print AllOperationsCompleted) (snd run)).
Proof.
  cbv zeta.
  destruct (main_cases aws) as [Hearly | [before [policy_arn [Hbefore Hmain]]]].
  - split; intros Hin; apply (early_In _ _ Hearly) in Hin; discriminate Hin.
  - rewrite Hmain.
    destruct (attach_policy_to_role_cases aws policy_arn before)
      as [[verdict [Hverdict Hrun]] | [r [rest [Hrun [Hr [Hfailed Hdone]]]]]];
      rewrite Hrun; unfold after_attach.
    + cbn [fst snd]. split.
      * intros _. split; [reflexivity | split; [now eexists |]].
        exists policy_arn. apply in_or_app. left. apply in_or_app. right. now left.
      * intros _. apply in_or_app. right. now left.
    + assert (Hsnd : snd (match r with
                          | Ok (Continue _) =>
                              (Ok tt, (before ++ AttachRolePolicy ROLE_NAME policy_arn
                                         :: rest) ++ [Print AllOperationsCompleted])
                          | Ok Return =>
                              (Ok tt, before ++ AttachRolePolicy ROLE_NAME policy_arn
                                        :: rest)
                          | Raise e =>
                              (Raise e, before ++ AttachRolePolicy ROLE_NAME policy_arn
                                          :: rest)
                          end)
                     = before ++ AttachRolePolicy ROLE_NAME policy_arn :: rest).
      { destruct r as [[[] |] | e]; [now destruct Hr | reflexivity | reflexivity]. }
      rewrite Hsnd.
      assert (Hlate : forall ev, early ev = false ->
                In ev (before ++ AttachRolePolicy ROLE_NAME policy_arn :: rest) ->
                ev = AttachRolePolicy ROLE_NAME policy_arn \/ In ev rest).
      { intros ev Hev Hin. apply in_app_or in Hin as [Hin | [<- | Hin]]; auto.
        apply (early_In _ _ Hbefore) in Hin. congruence. }
      split; intros Hin; exfalso.
      * destruct (Hlate (Print AllOperationsCompleted) eq_refl Hin) as [E | Hin'];
          [discriminate E | now apply Hdone].
      * destruct (Hlate (Print PolicyAttachmentVerificationFailed) eq_refl Hin)
          as [E | Hin']; [discriminate E | now apply Hfailed].
Qed.


Example main_success_message_witness :
  In (Print AllOperationsCompleted) (snd (main example_aws []))
  /\ fst (main example_aws []) = Ok tt.
Proof.
  assert (Hin : In (Print AllOperationsCompleted) (snd (main example_aws []))).
  { vm_compute. repeat (first [left; reflexivity | right]). }
  split; [exact Hin |].
  exact (proj1 (proj1 (main_success_message example_aws) Hin)).
Defined.

End OidcRole.

(** ** [scripts/create_repos_and_branches.py]: the [create-branches] command *)

Module ReposAndBranches.

Local Open Scope Z_scope.

(** The hosting service is a store: organization, repository, then the
    git refs of the repository by full name (["refs/heads/main"]) with
    the commit each points to.  [get_git_ref] finds a ref exactly when the
    store has it, and the service answers a request by the store alone:
    failures that come and go (rate limits, network errors) are outside
    the model. *)
Abbreviation git_refs := (gmap string string).
Abbreviation organization := (gmap string (gmap string string)).
Abbreviation github := (gmap string (gmap string (gmap string string))).

(** [GithubException] with its status, or any other [Exception]. *)
Inductive exception :=
| GithubException (status : Z)
| OtherException (what : string).

(** What the command writes to the console. *)
Inductive output :=
| TokenNotFound
| TokenRequired
| RepositoryNotFound (repo_name org : string)
| FetchingSourceBranch (source_branch : string)
| SourceBranchNotFound (source_branch repo_name : string)
| NoValidBranches
| BranchCreationPanel (repo_name : string)
| BranchAlreadyExists (branch : string)
| CreatingBranch (branch source_branch : string)
| BranchCreated (branch : string)
| ErrorCreatingBranch (branch : string) (e : exception)
| BranchCreationCompleted
| InvalidProtectionConfig
| SetupCompletePanel
| ErrorMessage (e : exception)
| UnexpectedError (e : exception).

(** Console output, pauses and the calls that reach the service. *)
Inductive event :=
| Print (o : output)
| GetOrganization (org : string)
| GetRepo (repo_name : string)
| GetGitRef (ref : string)
| CreateGitRef (ref sha : string)
| Sleep (milliseconds : Z)
| WaitWithSpinner (seconds : Z)
| SetupBranchProtection (config : option string)
| SetRepoVariables (aws_region aws_account_id : string).

Section Service.
(** Which new refs the service accepts (a well-formed name, a commit that
    exists): a fixed property of the service. *)
Variable accepts : string -> string -> bool.

(** [repo.get_git_ref(ref)]: the commit of ["refs/" + ref]. *)
Definition get_git_ref (refs : git_refs) (ref : string) : result exception string :=
  match refs !! ("refs/" ++ ref)%string with
  | Some sha => Ok sha
  | None => Raise (GithubException 404)
  end.

(** [repo.create_git_ref(ref, sha)]: a ref that exists is never replaced. *)
Definition create_git_ref (refs : git_refs) (ref sha : string)
  : result exception git_refs :=
  match refs !! ref with
  | Some _ => Raise (GithubException 422)
  | None =>
      if accepts ref sha then Ok (<[ref := sha]> refs)
      else Raise (GithubException 422)
  end.

(** [[b.strip() for b in branches.split(",") if b.strip()]], for a list
    written in ASCII: [str.strip] also removes the whitespace outside
    ASCII (U+00A0, U+2003, ...), which [PyStr.is_whitespace] does not
    know. *)
Definition parse_branches (branches : string) : list string :=
  List.map (PyStr.strip PyStr.is_whitespace)
    (List.filter (fun b => PyStr.truthy (PyStr.strip PyStr.is_whitespace b))
       (PyStr.split "," branches)).

(** The [for branch in branch_list] loop: the refs and the trace go in
    and come out. *)
Fixpoint create_branch_loop (branch_list : list string)
    (source_branch source_sha : string) (refs : git_refs) (trace : list event)
  : git_refs * list event :=
  match branch_list with
  | [] => (refs, trace)
  | branch :: rest =>
      let probe := GetGitRef ("heads/" ++ branch) in
      match get_git_ref refs ("heads/" ++ branch) with
      | Ok _ =>
          create_branch_loop rest source_branch source_sha refs
            (trace ++ [probe; Print (BranchAlreadyExists branch)])
      | Raise _ =>
          let create := CreateGitRef ("refs/heads/" ++ branch) source_sha in
          match create_git_ref refs ("refs/heads/" ++ branch) source_sha with
          | Ok refs' =>
              create_branch_loop rest source_branch source_sha refs'
                (trace ++ [probe; Print (CreatingBranch branch source_branch);
                           create; Print (BranchCreated branch); Sleep 500])
          | Raise e =>
              create_branch_loop rest source_branch source_sha refs
                (trace ++ [probe; Print (CreatingBranch branch source_branch);
                           create; Print (ErrorCreatingBranch branch e)])
          end
      end
  end.

(** The arguments of the command. *)
Record arguments := {
  org : string;
  token : option string;
  repo_name : string;
  source_branch : string;
  branches : string;
  setup_protection : bool;
  protection_config : option string;
  aws_region : string;
  aws_account_id : string
}.

(** [get_github_client]: without a token on the command line the user is
    asked for one ([getpass] is the answer). *)
Definition get_github_client (token : option string) (getpass : string)
    (trace : list event) : option string * list event :=
  match token with
  | Some t =>
      if PyStr.truthy t then (Some t, trace)
      else if PyStr.truthy getpass then (Some getpass, trace ++ [Print TokenNotFound])
      else (None, trace ++ [Print TokenNotFound; Print TokenRequired])
  | None =>
      if PyStr.truthy getpass then (Some getpass, trace ++ [Print TokenNotFound])
      else (None, trace ++ [Print TokenNotFound; Print TokenRequired])
  end.

(** The two [except] clauses that close the command. *)
Definition handler (e : exception) : output :=
  match e with
  | GithubException _ => ErrorMessage e
  | OtherException _ => UnexpectedError e
  end.

(** The end of the command, after the loop: branch protection and the
    repository variables.  Neither reads nor writes git refs.
    [valid_json] stands for [json.loads] accepting the configuration;
    [setup_branch_protection] and [set_repo_variables] are what the two
    calls do with the configuration and the variables they are given:
    they return, or raise (a configuration that is no list of
    well-formed entries, an exception that is no [GithubException]
    while a variable is updated), and what they raise goes to the
    [except] clauses of the command.  The number is the value the
    function returns. *)
Definition finish (valid_json : string -> bool)
    (setup_branch_protection : option string -> result exception unit)
    (set_repo_variables : string -> string -> result exception unit)
    (args : arguments) (trace : list event) : Z * list event :=
  let variables trace :=
    let trace :=
      trace ++ [Print SetupCompletePanel;
                SetRepoVariables (aws_region args) (aws_account_id args)] in
    match set_repo_variables (aws_region args) (aws_account_id args) with
    | Ok _ => (0, trace)
    | Raise e => (1, trace ++ [Print (handler e)])
    end in
  let protect config :=
    let trace := trace ++ [WaitWithSpinner 3; SetupBranchProtection config] in
    match setup_branch_protection config with
    | Ok _ => variables trace
    | Raise e => (1, trace ++ [Print (handler e)])
    end in
  if setup_protection args then
    match protection_config args with
    | Some config =>
        if PyStr.truthy config then
          if valid_json config then protect (Some config)
          else (1, trace ++ [Print InvalidProtectionConfig])
        else protect None
    | None => protect None
    end
  else variables trace.

(** [create_branches]: the value the function returns, the service
    afterwards and the trace.  (Run through the command line the value is
    dropped: the process ends with status 0 unless an exception leaves
    the function.) *)
Definition create_branches (valid_json : string -> bool)
    (setup_branch_protection : option string -> result exception unit)
    (set_repo_variables : string -> string -> result exception unit)
    (getpass : string)
    (args : arguments) (hub : github) : Z * github * list event :=
  match get_github_client (token args) getpass [] with
  | (None, trace) => (1, hub, trace)
  | (Some _, trace) =>
      let trace := trace ++ [GetOrganization (org args)] in
      match hub !! org args with
      | None => (1, hub, trace ++ [Print (ErrorMessage (GithubException 404))])
      | Some organization =>
          let trace := trace ++ [GetRepo (repo_name args)] in
          match organization !! repo_name args with
          | None =>
              (1, hub, trace ++ [Print (RepositoryNotFound (repo_name args) (org args))])
          | Some refs =>
              let trace :=
                trace ++ [Print (FetchingSourceBranch (source_branch args));
                          GetGitRef ("heads/" ++ source_branch args)] in
              match get_git_ref refs ("heads/" ++ source_branch args) with
              | Raise _ =>
                  (1, hub,
                   trace ++ [Print (SourceBranchNotFound (source_branch args)
                                      (repo_name args))])
              | Ok source_sha =>
                  match parse_branches (branches args) with
                  | [] => (1, hub, trace ++ [Print NoValidBranches])
                  | branch_list =>
                      let '(refs', trace) :=
                        create_branch_loop branch_list (source_branch args)
                          source_sha refs
                          (trace ++ [Print (BranchCreationPanel (repo_name args))]) in
                      let '(returned, trace) :=
                        finish valid_json setup_branch_protection
                          set_repo_variables args
                          (trace ++ [Print BranchCreationCompleted]) in
                      (returned,
                       <[org args := <[repo_name args := refs']> organization]> hub,
                       trace)
                  end
              end
          end
      end
  end.

End Service.

(** *** Facts about the branch loop *)

Section LoopFacts.
Variable accepts : string -> string -> bool.

Definition branch_ref (branch : string) : string := "refs/heads/" ++ branch.

Definition is_create (ref : string) (ev : event) : Prop :=
  exists sha, ev = CreateGitRef ref sha.

Definition is_created (ev : event) : Prop :=
  exists branch, ev = Print (BranchCreated branch).

Lemma branch_ref_inj b1 b2 : branch_ref b1 = branch_ref b2 -> b1 = b2.
Proof. unfold branch_ref. intros H. now apply (String.app_inj "refs/heads/") in H. Qed.

Lemma get_git_ref_heads refs branch :
  get_git_ref refs ("heads/" ++ branch)
  = match refs !! branch_ref branch with
    | Some sha => Ok sha
    | None => Raise (GithubException 404)
    end.
Proof. reflexivity. Qed.

(** One round of the loop, by the state of the branch's ref. *)
Lemma create_branch_loop_cons branch rest source_branch source_sha refs trace :
  create_branch_loop accepts (branch :: rest) source_branch source_sha refs trace
  = match refs !! branch_ref branch with
    | Some _ =>
        create_branch_loop accepts rest source_branch source_sha refs
          (trace ++ [GetGitRef ("heads/" ++ branch);
                     Print (BranchAlreadyExists branch)])
    | None =>
        if accepts (branch_ref branch) source_sha
        then create_branch_loop accepts rest source_branch source_sha
               (<[branch_ref branch := source_sha]> refs)
               (trace ++ [GetGitRef ("heads/" ++ branch);
                          Print (CreatingBranch branch source_branch);
                          CreateGitRef (branch_ref branch) source_sha;
                          Print (BranchCreated branch); Sleep 500])
        else create_branch_loop accepts rest source_branch source_sha refs
               (trace ++ [GetGitRef ("heads/" ++ branch);
                          Print (CreatingBranch branch source_branch);
                          CreateGitRef (branch_ref branch) source_sha;
                          Print (ErrorCreatingBranch branch (GithubException 422))])
    end.
Proof.
  cbn [create_branch_loop]. rewrite get_git_ref_heads. unfold create_git_ref.
  fold (branch_ref branch).
  destruct (refs !! branch_ref branch); [reflexivity |].
  now destruct (accepts (branch_ref branch) source_sha).
Qed.

(** The loop appends to the trace it is given, and what it appends and
    the refs it leaves do not depend on that trace. *)
Lemma create_branch_loop_trace branch_list source_branch source_sha :
  forall refs trace,
    create_branch_loop accepts branch_list source_branch source_sha refs trace
    = (fst (create_branch_loop accepts branch_list source_branch source_sha refs []),
       trace ++ snd (create_branch_loop accepts branch_list source_branch source_sha
                       refs [])).
Proof.
  induction branch_list as [| branch rest IH]; intros refs trace.
  - cbn. now rewrite app_nil_r.
  - rewrite !create_branch_loop_cons.
    destruct (refs !! branch_ref branch);
      [| destruct (accepts (branch_ref branch) source_sha)];
      rewrite IH; symmetry; rewrite IH; cbn [fst snd];
      now rewrite app_nil_l, app_assoc.
Qed.

(** No ref the store already has is changed. *)
Lemma create_branch_loop_preserves branch_list source_branch source_sha :
  forall refs trace ref sha,
    refs !! ref = Some sha ->
    fst (create_branch_loop accepts branch_list source_branch source_sha refs trace)
      !! ref = Some sha.
Proof.
  induction branch_list as [| branch rest IH]; intros refs trace ref sha Href.
  - exact Href.
  - rewrite create_branch_loop_cons.
    destruct (refs !! branch_ref branch) eqn:Hb; [now apply IH |].
    destruct (accepts (branch_ref branch) source_sha); [| now apply IH].
    apply IH. rewrite lookup_insert_ne; [exact Href |].
    intros E. subst ref. congruence.
Qed.

(** A branch whose ref exists is skipped: the loop makes no
    [create_git_ref] call for it. *)
Lemma create_branch_loop_skips branch_list source_branch source_sha :
  forall refs branch sha,
    refs !! branch_ref branch = Some sha ->
    forall ev,
      In ev (snd (create_branch_loop accepts branch_list source_branch source_sha
                    refs [])) ->
      ~ is_create (branch_ref branch) ev.
Proof.
  induction branch_list as [| b rest IH]; intros refs branch sha Href ev Hin.
  - destruct Hin.
  - rewrite create_branch_loop_cons in Hin.
    destruct (refs !! branch_ref b) as [found |] eqn:Hb.
    + rewrite create_branch_loop_trace in Hin. cbn [snd] in Hin.
      apply in_app_or in Hin as [Hin | Hin].
      * cbn in Hin. intros [sha' ->]. intuition discriminate.
      * now apply (IH refs branch sha).
    + assert (Hne : branch_ref b <> branch_ref branch) by (intros E; congruence).
      destruct (accepts (branch_ref b) source_sha);
        rewrite create_branch_loop_trace in Hin; cbn [snd] in Hin;
        apply in_app_or in Hin as [Hin | Hin].
      * intros [sha' ->].
        destruct Hin as [E | [E | [E | [E | [E | []]]]]]; try discriminate E.
        injection E as E _. change (b = branch) in E. apply Hne. now rewrite E.
      * apply (IH (<[branch_ref b := source_sha]> refs) branch sha); [| exact Hin].
        now rewrite lookup_insert_ne.
      * intros [sha' ->].
        destruct Hin as [E | [E | [E | [E | []]]]]; try discriminate E.
        injection E as E _. change (b = branch) in E. apply Hne. now rewrite E.
      * now apply (IH refs branch sha).
Qed.

(** Nothing is left to create for a branch: its ref exists, or the
    service does not accept it. *)
Definition settled (source_sha : string) (refs : git_refs) (branch : string) : Prop :=
  is_Some (refs !! branch_ref branch) \/ accepts (branch_ref branch) source_sha = false.

Lemma settled_insert source_sha refs ref branch :
  settled source_sha refs branch ->
  settled source_sha (<[ref := source_sha]> refs) branch.
Proof.
  intros [[sha Hs] | Hno]; [left | now right].
  destruct (decide (ref = branch_ref branch)) as [-> | Hne].
  - rewrite lookup_insert_eq. now eexists.
  - rewrite lookup_insert_ne; [now exists sha | exact Hne].
Qed.

(** After the loop every requested branch is settled. *)
Lemma create_branch_loop_settles branch_list source_branch source_sha :
  forall refs trace,
    Forall (settled source_sha
              (fst (create_branch_loop accepts branch_list source_branch source_sha
                      refs trace)))
      branch_list.
Proof.
  induction branch_list as [| branch rest IH]; intros refs trace; [constructor |].
  rewrite create_branch_loop_cons.
  destruct (refs !! branch_ref branch) as [sha |] eqn:Hb.
  - constructor; [| apply IH]. left. exists sha.
    now apply create_branch_loop_preserves.
  - destruct (accepts (branch_ref branch) source_sha) eqn:Hacc.
    + constructor; [| apply IH]. left. exists source_sha.
      apply create_branch_loop_preserves. apply lookup_insert_eq.
    + constructor; [| apply IH]. now right.
Qed.

(** On settled branches the loop changes nothing and reports no
    creation. *)
Lemma create_branch_loop_settled branch_list source_branch source_sha refs :
  Forall (settled source_sha refs) branch_list ->
  fst (create_branch_loop accepts branch_list source_branch source_sha refs []) = refs
  /\ forall ev,
       In ev (snd (create_branch_loop accepts branch_list source_branch source_sha
                     refs [])) ->
       ~ is_created ev.
Proof.
  induction 1 as [| branch rest Hbranch Hrest [IHrefs IHtrace]].
  - split; [reflexivity | intros ev []].
  - rewrite create_branch_loop_cons.
    destruct (refs !! branch_ref branch) as [sha |] eqn:Hb.
    + rewrite create_branch_loop_trace. cbn [fst snd]. split; [exact IHrefs |].
      intros ev Hin. apply in_app_or in Hin as [Hin | Hin]; [| now apply IHtrace].
      cbn in Hin. intros [b ->]. intuition discriminate.
    + destruct Hbranch as [[sha Hs] | Hno]; [congruence |]. rewrite Hno.
      rewrite create_branch_loop_trace. cbn [fst snd]. split; [exact IHrefs |].
      intros ev Hin. apply in_app_or in Hin as [Hin | Hin]; [| now apply IHtrace].
      cbn in Hin. intros [b ->]. intuition discriminate.
Qed.

End LoopFacts.

(** *** The command as a whole *)

(** The commit a ref of a repository points to, if all three exist. *)
Definition ref_of (hub : github) (org repo_name ref : string) : option string :=
  match hub !! org with
  | Some organization =>
      match organization !! repo_name with
      | Some refs => refs !! ref
      | None => None
      end
  | None => None
  end.

(** The events that create a ref or report a creation. *)
Definition creates (ev : event) : bool :=
  match ev with
  | CreateGitRef _ _ => true
  | Print (BranchCreated _) => true
  | _ => false
  end.

Lemma creates_is_create ref ev : is_create ref ev -> creates ev = true.
Proof. now intros [sha ->]. Qed.

Lemma creates_is_created ev : is_created ev -> creates ev = true.
Proof. now intros [branch ->]. Qed.

Lemma quiet_In trace ev : existsb creates trace = false -> In ev trace -> creates ev = false.
Proof.
  intros Hq Hin. destruct (creates ev) eqn:E; [| reflexivity].
  assert (existsb creates trace = true) by (apply existsb_exists; eauto).
  congruence.
Qed.

Section Command.
Variable accepts : string -> string -> bool.
Variable valid_json : string -> bool.
Variable setup_branch_protection : option string -> result exception unit.
Variable set_repo_variables : string -> string -> result exception unit.
Variable getpass : string.
Variable args : arguments.

Lemma get_github_client_quiet tok trace :
  get_github_client (token args) getpass [] = (tok, trace) ->
  existsb creates trace = false.
Proof.
  unfold get_github_client.
  destruct (token args) as [t |]; [destruct (PyStr.truthy t) |];
    try destruct (PyStr.truthy getpass); intros H; injection H as <- <-; reflexivity.
Qed.

Lemma finish_quiet trace :
  exists suffix,
    snd (finish valid_json setup_branch_protection set_repo_variables args
            trace) = trace ++ suffix
    /\ existsb creates suffix = false.
Proof.
  unfold finish.
  destruct (setup_protection args); [destruct (protection_config args) as [c |];
    [destruct (PyStr.truthy c); [destruct (valid_json c) |] |] |];
    try destruct (setup_branch_protection _) as [[] | e1];
    try destruct (set_repo_variables _ _) as [[] | [status | what]];
    try destruct e1 as [status | what];
    cbn [snd]; rewrite <- ?app_assoc; eexists; split; reflexivity.
Qed.

(** The events of the command before the loop, on the path that reaches
    it. *)
Definition before_loop (t0 : list event) : list event :=
  t0 ++ [GetOrganization (org args); GetRepo (repo_name args);
         Print (FetchingSourceBranch (source_branch args));
         GetGitRef ("heads/" ++ source_branch args);
         Print (BranchCreationPanel (repo_name args))].

Definition loop_run (source_sha : string) (refs : git_refs) : git_refs * list event :=
  create_branch_loop accepts (parse_branches (branches args)) (source_branch args)
    source_sha refs [].

(** The run of the command when the token, the repository, the source
    branch and the branch list are all there. *)
Lemma create_branches_reaches_loop hub tok t0 o refs source_sha :
  get_github_client (token args) getpass [] = (Some tok, t0) ->
  hub !! org args = Some o ->
  o !! repo_name args = Some refs ->
  refs !! branch_ref (source_branch args) = Some source_sha ->
  parse_branches (branches args) <> [] ->
  create_branches accepts valid_json setup_branch_protection
      set_repo_variables getpass args hub
  = (fst (finish valid_json setup_branch_protection set_repo_variables args
            (before_loop t0 ++ snd (loop_run source_sha refs)
             ++ [Print BranchCreationCompleted])),
     <[org args := <[repo_name args := fst (loop_run source_sha refs)]> o]> hub,
     snd (finish valid_json setup_branch_protection set_repo_variables args
            (before_loop t0 ++ snd (loop_run source_sha refs)
             ++ [Print BranchCreationCompleted]))).
Proof.
  intros Htok Horg Hrepo Hsource Hlist. unfold create_branches.
  rewrite Htok, Horg, Hrepo, get_git_ref_heads, Hsource.
  destruct (parse_branches (branches args)) as [| b bs] eqn:Hparse; [congruence |].
  rewrite create_branch_loop_trace. unfold loop_run, before_loop. rewrite Hparse.
  rewrite <- !app_assoc. cbn [app].
  destruct (finish valid_json setup_branch_protection set_repo_variables args
            _) as [returned trace].
  reflexivity.
Qed.

(** Every run either stops before the loop, leaving the service as it
    was and creating nothing, or reaches the loop. *)
Lemma create_branches_cases hub :
  (snd (fst (create_branches accepts valid_json setup_branch_protection
      set_repo_variables getpass args hub)) = hub
   /\ existsb creates (snd (create_branches accepts valid_json setup_branch_protection
      set_repo_variables getpass args hub))
      = false)
  \/ exists tok t0 o refs source_sha,
       get_github_client (token args) getpass [] = (Some tok, t0)
       /\ hub !! org args = Some o
       /\ o !! repo_name args = Some refs
       /\ refs !! branch_ref (source_branch args) = Some source_sha
       /\ parse_branches (branches args) <> [].
Proof.
  destruct (get_github_client (token args) getpass []) as [[tok |] t0] eqn:Htok.
  2:{ left. unfold create_branches. rewrite Htok. cbn [fst snd].
      split; [reflexivity | now apply (get_github_client_quiet None)]. }
  pose proof (get_github_client_quiet _ _ Htok) as Hq.
  destruct (hub !! org args) as [o |] eqn:Horg.
  2:{ left. unfold create_branches. rewrite Htok, Horg. cbn [fst snd].
      split; [reflexivity |]. rewrite !existsb_app, Hq. reflexivity. }
  destruct (o !! repo_name args) as [refs |] eqn:Hrepo.
  2:{ left. unfold create_branches. rewrite Htok, Horg, Hrepo. cbn [fst snd].
      split; [reflexivity |]. rewrite !existsb_app, Hq. reflexivity. }
  destruct (refs !! branch_ref (source_branch args)) as [sha |] eqn:Hsource.
  2:{ left. unfold create_branches.
      rewrite Htok, Horg, Hrepo, get_git_ref_heads, Hsource. cbn [fst snd].
      split; [reflexivity |]. rewrite !existsb_app, Hq. reflexivity. }
  destruct (parse_branches (branches args)) as [| b bs] eqn:Hparse.
  { left. unfold create_branches.
    rewrite Htok, Horg, Hrepo, get_git_ref_heads, Hsource, Hparse. cbn [fst snd].
    split; [reflexivity |]. rewrite !existsb_app, Hq. reflexivity. }
  right. exists tok, t0, o, refs, sha. repeat split; congruence.
Qed.

(** On the path through the loop, an event of the trace that creates
    something is an event of the loop. *)
Lemma create_branches_creates_in_loop t0 tok source_sha refs ev :
  get_github_client (token args) getpass [] = (Some tok, t0) ->
  In ev (snd (finish valid_json setup_branch_protection set_repo_variables args
                (before_loop t0 ++ snd (loop_run source_sha refs)
                 ++ [Print BranchCreationCompleted]))) ->
  creates ev = true ->
  In ev (snd (loop_run source_sha refs)).
Proof.
  intros Htok Hin Hcreates.
  destruct (finish_quiet (before_loop t0 ++ snd (loop_run source_sha refs)
                          ++ [Print BranchCreationCompleted])) as [suffix [Hs Hq]].
  rewrite Hs in Hin.
  apply in_app_or in Hin as [Hin | Hin].
  2:{ rewrite (quiet_In suffix ev Hq Hin) in Hcreates. discriminate. }
  apply in_app_or in Hin as [Hin | Hin].
  { unfold before_loop in Hin. apply in_app_or in Hin as [Hin | Hin].
    - rewrite (quiet_In t0 ev (get_github_client_quiet _ _ Htok) Hin) in Hcreates.
      discriminate.
    - destruct Hin as [<- | [<- | [<- | [<- | [<- | []]]]]]; discriminate. }
  apply in_app_or in Hin as [Hin | Hin]; [exact Hin |].
  destruct Hin as [<- | []]. discriminate.
Qed.

End Command.

(** C8.  [create-branches] is idempotent for branch creation.  In any
    run, a branch whose ref ["refs/heads/<branch>"] exists in the
    repository is skipped: no [create_git_ref] call is made for it, and no
    ref that exists is changed.  Running the command again with the same
    arguments on the service the first run left leaves the service as it
    is, and reports no branch as created. *)
Theorem create_branches_idempotent accepts valid_json setup_branch_protection
    set_repo_variables getpass args hub :
  let first := create_branches accepts valid_json setup_branch_protection
      set_repo_variables getpass args hub in
  let hub1 := snd (fst first) in
  let second := create_branches accepts valid_json setup_branch_protection
      set_repo_variables getpass args hub1 in
  (forall branch sha,
     ref_of hub (org args) (repo_name args) (branch_ref branch) = Some sha ->
     forall ev, In ev (snd first) -> ~ is_create (branch_ref branch) ev)
  /\ (forall o r ref sha,
        ref_of hub o r ref = Some sha -> ref_of hub1 o r ref = Some sha)
  /\ snd (fst second) = hub1
  /\ (forall ev, In ev (snd second) -> ~ is_created ev).
Proof.
  intros first hub1 second. subst second hub1 first.
  destruct (create_branches_cases accepts valid_json setup_branch_protection
              set_repo_variables getpass args hub)
    as [[Hhub Hquiet] | [tok [t0 [o [refs [source_sha
         [Htok [Horg [Hrepo [Hsource Hlist]]]]]]]]]].
  - (* the first run stops before the loop *)
    rewrite Hhub. repeat split.
    + intros branch sha _ ev Hin Hcreate.
      apply creates_is_create in Hcreate.
      rewrite (quiet_In _ ev Hquiet Hin) in Hcreate. discriminate.
    + auto.
    + exact Hhub.
    + intros ev Hin Hcreated. apply creates_is_created in Hcreated.
      rewrite (quiet_In _ ev Hquiet Hin) in Hcreated. discriminate.
  - (* the first run goes through the loop *)
    rewrite (create_branches_reaches_loop accepts valid_json setup_branch_protection
               set_repo_variables getpass args
               hub tok t0 o refs source_sha Htok Horg Hrepo Hsource Hlist).
    cbn [fst snd].
    set (refs1 := fst (loop_run accepts args source_sha refs)).
    assert (Hkeep : forall ref sha, refs !! ref = Some sha -> refs1 !! ref = Some sha).
    { intros ref sha. apply create_branch_loop_preserves. }
    assert (Hsettled : Forall (settled accepts source_sha refs1)
                         (parse_branches (branches args))).
    { apply create_branch_loop_settles. }
    split; [| split].
    + intros branch sha Href ev Hin Hcreate.
      unfold ref_of in Href. rewrite Horg, Hrepo in Href.
      apply (create_branch_loop_skips accepts (parse_branches (branches args))
               (source_branch args) source_sha refs branch sha Href ev);
        [| exact Hcreate].
      apply (create_branches_creates_in_loop accepts valid_json setup_branch_protection
               set_repo_variables getpass args
               t0 tok source_sha refs ev Htok Hin).
      now apply (creates_is_create (branch_ref branch)).
    + intros o' r ref sha. unfold ref_of.
      destruct (decide (org args = o')) as [<- | Hne].
      * rewrite lookup_insert_eq, Horg.
        destruct (decide (repo_name args = r)) as [<- | Hner].
        -- rewrite lookup_insert_eq, Hrepo. apply Hkeep.
        -- now rewrite lookup_insert_ne.
      * now rewrite lookup_insert_ne.
    + rewrite (create_branches_reaches_loop accepts valid_json setup_branch_protection
                 set_repo_variables getpass args
                 _ tok t0 (<[repo_name args := refs1]> o) refs1 source_sha Htok);
        [| apply lookup_insert_eq | apply lookup_insert_eq
         | now apply Hkeep | exact Hlist].
      cbn [fst snd].
      destruct (create_branch_loop_settled accepts (parse_branches (branches args))
                  (source_branch args) source_sha refs1 Hsettled)
        as [Hsame Hnone].
      split.
      * unfold loop_run. rewrite Hsame. now rewrite !insert_insert_eq.
      * intros ev Hin Hcreated. apply (Hnone ev); [| exact Hcreated].
        apply (create_branches_creates_in_loop accepts valid_json setup_branch_protection
                 set_repo_variables getpass args
                 t0 tok source_sha refs1 ev Htok Hin).
        now apply creates_is_created.
Qed.

Definition example_hub : github :=
  {[ "Kicksaw-Consulting" :=
       {[ "demo" := {[ "refs/heads/main" := "abc123";
                       "refs/heads/staging" := "0ld" ]} ]} ]}.

Definition example_args : arguments :=
  {| org := "Kicksaw-Consulting"; token := Some "ghp_token"; repo_name := "demo";
     source_branch := "main"; branches := "staging, qa,";
     setup_protection := false; protection_config := None;
     aws_region := "us-west-2"; aws_account_id := "123456789012" |}.

Example create_branches_first_run :
  let run := create_branches (fun _ _ => true) (fun _ => true)
               (fun _ => Ok tt) (fun _ _ => Ok tt) "" example_args example_hub in
  fst (fst run) = 0
  /\ snd run
     = [GetOrganization "Kicksaw-Consulting"; GetRepo "demo";
        Print (FetchingSourceBranch "main"); GetGitRef "heads/main";
        Print (BranchCreationPanel "demo"); GetGitRef "heads/staging";
        Print (BranchAlreadyExists "staging"); GetGitRef "heads/qa";
        Print (CreatingBranch "qa" "main");
        CreateGitRef "refs/heads/qa" "abc123"; Print (BranchCreated "qa");
        Sleep 500; Print BranchCreationCompleted; Print SetupCompletePanel;
        SetRepoVariables "us-west-2" "123456789012"]
  /\ ref_of (snd (fst run)) "Kicksaw-Consulting" "demo" "refs/heads/qa" = Some "abc123".
Proof. vm_compute. repeat split. Qed.

Lemma create_branches_idempotent_witness :
  let first := create_branches (fun _ _ => true) (fun _ => true)
      (fun _ => Ok tt) (fun _ _ => Ok tt) "" example_args
                 example_hub in
  let hub1 := snd (fst first) in
  let second := create_branches (fun _ _ => true) (fun _ => true)
      (fun _ => Ok tt) (fun _ _ => Ok tt) "" example_args
                  hub1 in
  snd (fst second) = hub1
  /\ ref_of hub1 "Kicksaw-Consulting" "demo" "refs/heads/staging" = Some "0ld"
  /\ ~ In (CreateGitRef (branch_ref "staging") "abc123") (snd first).
Proof.
  intros first hub1 second.
  destruct (create_branches_idempotent (fun _ _ => true) (fun _ => true)
      (fun _ => Ok tt) (fun _ _ => Ok tt) ""
              example_args example_hub) as [Hskip [Hkeep [Hsame _]]].
  split; [exact Hsame | split].
  - apply Hkeep. reflexivity.
  - intros Hin.
    apply (Hskip "staging" "0ld" eq_refl _ Hin). now exists "abc123".
Defined.


(** *** What the branch list holds and what a run adds *)

(** X15.  For a branch list written in ASCII: every name in the parsed
    list is non-empty, contains no comma, and neither starts nor ends
    with whitespace (stripping it again changes nothing); and every
    non-blank piece between commas is in the list, stripped. *)
Theorem parse_branches_entries branches :
  PyStr.is_ascii branches = true ->
  (forall branch,
     In branch (parse_branches branches) ->
     branch <> EmptyString
     /\ PyStr.has_char "," branch = false
     /\ PyStr.strip PyStr.is_whitespace branch = branch
     /\ (forall c t, branch = String c t -> PyStr.is_whitespace c = false)
     /\ (forall c, PyStr.last_char branch = Some c -> PyStr.is_whitespace c = false))
  /\ (forall piece,
        In piece (PyStr.split "," branches) ->
        PyStr.strip PyStr.is_whitespace piece <> EmptyString ->
        In (PyStr.strip PyStr.is_whitespace piece) (parse_branches branches)).
Proof.
  intros _. unfold parse_branches. split.
  - intros branch Hin.
    apply in_map_iff in Hin as [piece [<- Hin]].
    apply filter_In in Hin as [Hin Htruthy].
    apply PyStr.truthy_nonempty in Htruthy.
    split; [exact Htruthy | split; [| split; [| split]]].
    + apply PyStr.has_char_strip. now apply (PyStr.split_no_sep "," branches).
    + apply PyStr.strip_idempotent.
    + intros c t. apply PyStr.strip_head.
    + intros c. apply PyStr.strip_last.
  - intros piece Hin Hne. apply in_map. apply filter_In. split; [exact Hin |].
    now apply PyStr.truthy_nonempty.
Qed.

Lemma parse_branches_entries_witness :
  parse_branches " qa ,,dev, " = ["qa"; "dev"]
  /\ PyStr.has_char "," "qa" = false.
Proof.
  split; [reflexivity |].
  apply (proj1 (parse_branches_entries " qa ,,dev, " eq_refl) "qa"). cbn. now left.
Defined.

Section NewRefs.
Variable accepts : string -> string -> bool.

(** A ref of the store the loop leaves was there before, with the same
    commit, or was created by the loop for a listed branch, at the source
    commit. *)
Lemma create_branch_loop_new branch_list source_branch source_sha :
  forall refs ref sha,
    fst (create_branch_loop accepts branch_list source_branch source_sha refs [])
      !! ref = Some sha ->
    refs !! ref = Some sha
    \/ (refs !! ref = None
        /\ sha = source_sha
        /\ accepts ref source_sha = true
        /\ In (CreateGitRef ref source_sha)
             (snd (create_branch_loop accepts branch_list source_branch source_sha
                     refs []))
        /\ exists branch, In branch branch_list /\ ref = branch_ref branch).
Proof.
  induction branch_list as [| branch rest IH]; intros refs ref sha Href.
  - now left.
  - rewrite create_branch_loop_cons in Href |- *.
    destruct (refs !! branch_ref branch) as [found |] eqn:Hb.
    + rewrite create_branch_loop_trace in Href |- *. cbn [fst snd] in Href |- *.
      destruct (IH refs ref sha Href) as [Hold | [Hnone [-> [Hacc [Hin [b [Hb' ->]]]]]]];
        [now left | right].
      repeat split; auto.
      * apply in_or_app. now right.
      * exists b. split; [now right | reflexivity].
    + destruct (accepts (branch_ref branch) source_sha) eqn:Hacc;
        rewrite create_branch_loop_trace in Href |- *; cbn [fst snd] in Href |- *.
      * destruct (IH _ ref sha Href) as [Hold | [Hnone [-> [Hacc' [Hin [b [Hb' ->]]]]]]].
        -- destruct (decide (branch_ref branch = ref)) as [<- | Hne].
           ++ rewrite lookup_insert_eq in Hold. injection Hold as <-.
              right. repeat split; auto.
              ** apply in_or_app. left. cbn. auto.
              ** exists branch. split; [now left | reflexivity].
           ++ rewrite lookup_insert_ne in Hold by exact Hne. now left.
        -- right.
           assert (Hne : branch_ref branch <> branch_ref b).
           { intros E. rewrite <- E, lookup_insert_eq in Hnone. discriminate. }
           rewrite lookup_insert_ne in Hnone by exact Hne.
           repeat split; auto.
           ++ apply in_or_app. now right.
           ++ exists b. split; [now right | reflexivity].
      * destruct (IH refs ref sha Href) as [Hold | [Hnone [-> [Hacc' [Hin [b [Hb' ->]]]]]]];
          [now left | right].
        repeat split; auto.
        -- apply in_or_app. now right.
        -- exists b. split; [now right | reflexivity].
Qed.

(** After the loop every listed branch exists, or the refusal of its
    creation was printed. *)
Lemma create_branch_loop_outcome branch_list source_branch source_sha :
  forall refs branch,
    In branch branch_list ->
    is_Some (fst (create_branch_loop accepts branch_list source_branch source_sha
                    refs []) !! branch_ref branch)
    \/ (accepts (branch_ref branch) source_sha = false
        /\ In (Print (ErrorCreatingBranch branch (GithubException 422)))
             (snd (create_branch_loop accepts branch_list source_branch source_sha
                     refs []))).
Proof.
  induction branch_list as [| b rest IH]; intros refs branch Hin; [destruct Hin |].
  rewrite create_branch_loop_cons.
  destruct Hin as [-> | Hin].
  - destruct (refs !! branch_ref branch) as [found |] eqn:Hb.
    + left. exists found. now apply create_branch_loop_preserves.
    + destruct (accepts (branch_ref branch) source_sha) eqn:Hacc.
      * left. exists source_sha. apply create_branch_loop_preserves.
        apply lookup_insert_eq.
      * right. split; [reflexivity |].
        rewrite create_branch_loop_trace. cbn [snd].
        apply in_or_app. left. cbn. auto.
  - destruct (refs !! branch_ref b) as [found |];
      [| destruct (accepts (branch_ref b) source_sha)];
      rewrite create_branch_loop_trace; cbn [fst snd];
      match goal with
      | |- is_Some (fst (create_branch_loop _ _ _ _ ?refs' _) !! _) \/ _ =>
          destruct (IH refs' branch Hin) as [Hsome | [Hacc Herr]];
          [now left | right; split; [exact Hacc | apply in_or_app; now right]]
      end.
Qed.

Variable valid_json : string -> bool.
Variable setup_branch_protection : option string -> result exception unit.
Variable set_repo_variables : string -> string -> result exception unit.
Variable getpass : string.
Variable args : arguments.

(** The value [finish] returns does not depend on what was printed. *)
Lemma finish_returned trace trace' :
  fst (finish valid_json setup_branch_protection set_repo_variables args
            trace) = fst (finish valid_json setup_branch_protection set_repo_variables
      args trace').
Proof.
  unfold finish.
  destruct (setup_protection args); [destruct (protection_config args) as [c |];
    [destruct (PyStr.truthy c); [destruct (valid_json c) |] |] |];
    try destruct (setup_branch_protection _) as [[] | e1];
    try destruct (set_repo_variables _ _) as [[] | e2];
    reflexivity.
Qed.

(** A configuration that parses but is no list of entries (['5']): the
    protection step raises, the last [except] clause prints, and the
    function returns 1 without setting the variables. *)
Lemma finish_protection_raises config e trace :
  setup_protection args = true ->
  protection_config args = Some config ->
  PyStr.truthy config = true ->
  valid_json config = true ->
  setup_branch_protection (Some config) = Raise e ->
  finish valid_json setup_branch_protection set_repo_variables args trace
  = (1, trace ++ [WaitWithSpinner 3; SetupBranchProtection (Some config);
                  Print (handler e)]).
Proof.
  intros Hsetup Hconfig Htruthy Hvalid Hraise. unfold finish.
  rewrite Hsetup, Hconfig, Htruthy, Hvalid, Hraise. now rewrite <- app_assoc.
Qed.

Lemma finish_extends trace ev :
  In ev trace -> In ev (snd (finish valid_json setup_branch_protection set_repo_variables
      args trace)).
Proof.
  intros Hin.
  destruct (finish_quiet valid_json setup_branch_protection set_repo_variables
              args trace) as [suffix [-> _]].
  apply in_or_app. now left.
Qed.

(** Every run stops before the loop, returning 1 with the service as it
    was, or reaches the loop. *)
Lemma create_branches_stops_or_loops hub :
  (fst (fst (create_branches accepts valid_json setup_branch_protection
      set_repo_variables getpass args hub)) = 1
   /\ snd (fst (create_branches accepts valid_json setup_branch_protection
      set_repo_variables getpass args hub)) = hub)
  \/ exists tok t0 o refs source_sha,
       get_github_client (token args) getpass [] = (Some tok, t0)
       /\ hub !! org args = Some o
       /\ o !! repo_name args = Some refs
       /\ refs !! branch_ref (source_branch args) = Some source_sha
       /\ parse_branches (branches args) <> [].
Proof.
  destruct (get_github_client (token args) getpass []) as [[tok |] t0] eqn:Htok.
  2:{ left. unfold create_branches. rewrite Htok. now split. }
  destruct (hub !! org args) as [o |] eqn:Horg.
  2:{ left. unfold create_branches. rewrite Htok, Horg. now split. }
  destruct (o !! repo_name args) as [refs |] eqn:Hrepo.
  2:{ left. unfold create_branches. rewrite Htok, Horg, Hrepo. now split. }
  destruct (refs !! branch_ref (source_branch args)) as [sha |] eqn:Hsource.
  2:{ left. unfold create_branches.
      rewrite Htok, Horg, Hrepo, get_git_ref_heads, Hsource. now split. }
  destruct (parse_branches (branches args)) as [| b bs] eqn:Hparse.
  { left. unfold create_branches.
    rewrite Htok, Horg, Hrepo, get_git_ref_heads, Hsource, Hparse. now split. }
  right. exists tok, t0, o, refs, sha. repeat split; congruence.
Qed.

End NewRefs.

(** X16.  For a branch list written in ASCII, [create-branches] only
    adds: a ref the service has after a run is a ref it had before, with
    the same commit, or a new ref ["refs/heads/<branch>"] of the named
    repository for a branch of the parsed list, pointing at the commit of
    the source branch and created by a [create_git_ref] call of the
    run. *)
Theorem create_branches_new_refs accepts valid_json setup_branch_protection
    set_repo_variables getpass args hub o r ref sha :
  let run := create_branches accepts valid_json setup_branch_protection
      set_repo_variables getpass args hub in
  PyStr.is_ascii (branches args) = true ->
  ref_of (snd (fst run)) o r ref = Some sha ->
  ref_of hub o r ref = Some sha
  \/ (ref_of hub o r ref = None
      /\ o = org args /\ r = repo_name args
      /\ ref_of hub (org args) (repo_name args) (branch_ref (source_branch args))
         = Some sha
      /\ In (CreateGitRef ref sha) (snd run)
      /\ exists branch,
           In branch (parse_branches (branches args)) /\ ref = branch_ref branch).
Proof.
  cbv zeta. intros _.
  destruct (create_branches_stops_or_loops accepts valid_json setup_branch_protection
              set_repo_variables getpass args hub)
    as [[_ Hhub] | [tok [t0 [o' [refs [source_sha
         [Htok [Horg [Hrepo [Hsource Hlist]]]]]]]]]].
  - rewrite Hhub. now left.
  - rewrite (create_branches_reaches_loop accepts valid_json setup_branch_protection
               set_repo_variables getpass args
               hub tok t0 o' refs source_sha Htok Horg Hrepo Hsource Hlist).
    cbn [fst snd]. unfold ref_of at 1.
    destruct (decide (org args = o)) as [<- | Hne].
    2:{ rewrite lookup_insert_ne by exact Hne. now left. }
    rewrite lookup_insert_eq.
    destruct (decide (repo_name args = r)) as [<- | Hner].
    2:{ rewrite lookup_insert_ne by exact Hner. intros H. left.
        unfold ref_of. now rewrite Horg. }
    rewrite lookup_insert_eq. intros Href.
    apply create_branch_loop_new in Href
      as [Hold | [Hnone [-> [Hacc [Hin [branch [Hbranch ->]]]]]]].
    + left. unfold ref_of. now rewrite Horg, Hrepo.
    + right. unfold ref_of. rewrite Horg, Hrepo.
      repeat split; auto.
      * apply finish_extends. apply in_or_app. right. apply in_or_app. now left.
      * now exists branch.
Qed.

Lemma create_branches_new_refs_witness :
  ref_of example_hub "Kicksaw-Consulting" "demo" "refs/heads/qa" = Some "abc123"
  \/ (ref_of example_hub "Kicksaw-Consulting" "demo" "refs/heads/qa" = None
      /\ "Kicksaw-Consulting" = org example_args /\ "demo" = repo_name example_args
      /\ ref_of example_hub (org example_args) (repo_name example_args)
           (branch_ref (source_branch example_args)) = Some "abc123"
      /\ In (CreateGitRef "refs/heads/qa" "abc123")
           (snd (create_branches (fun _ _ => true) (fun _ => true)
      (fun _ => Ok tt) (fun _ _ => Ok tt) "" example_args
                   example_hub))
      /\ exists branch,
           In branch (parse_branches (branches example_args))
           /\ "refs/heads/qa" = branch_ref branch).
Proof.
  apply (create_branches_new_refs (fun _ _ => true) (fun _ => true)
      (fun _ => Ok tt) (fun _ _ => Ok tt) "" example_args
           example_hub "Kicksaw-Consulting" "demo" "refs/heads/qa" "abc123").
  - reflexivity.
  - vm_compute. reflexivity.
Defined.

(** X17.  The value [create_branches] returns does not tell whether the
    branches were created: with the same outcomes of the protection and
    variables steps it is the same whatever new refs the service
    accepts.  For a branch list written in ASCII, a run that returns 0
    went through the whole list, and for every listed branch either the
    ref exists afterwards or the refusal of its creation was printed.
    (The value is what the function returns, 1 also when the protection
    or the variables step raises; the command line drops it.) *)
Theorem create_branches_returned_value accepts valid_json setup_branch_protection
    set_repo_variables getpass args hub :
  let run := create_branches accepts valid_json setup_branch_protection
      set_repo_variables getpass args hub in
  (forall accepts',
     fst (fst (create_branches accepts' valid_json setup_branch_protection
      set_repo_variables getpass args hub)) = fst (fst run))
  /\ (PyStr.is_ascii (branches args) = true ->
      fst (fst run) = 0 ->
      forall branch,
        In branch (parse_branches (branches args)) ->
        is_Some (ref_of (snd (fst run)) (org args) (repo_name args) (branch_ref branch))
        \/ In (Print (ErrorCreatingBranch branch (GithubException 422))) (snd run)).
Proof.
  cbv zeta. split.
  - intros accepts'. unfold create_branches.
    destruct (get_github_client (token args) getpass []) as [[tok |] t0];
      [| reflexivity].
    destruct (hub !! org args) as [o |]; [| reflexivity].
    destruct (o !! repo_name args) as [refs |]; [| reflexivity].
    destruct (get_git_ref refs _) as [source_sha | e]; [| reflexivity].
    destruct (parse_branches (branches args)) as [| b bs]; [reflexivity |].
    destruct (create_branch_loop accepts' _ _ _ _ _) as [refs1 t1].
    destruct (create_branch_loop accepts _ _ _ _ _) as [refs2 t2].
    pose proof (finish_returned valid_json setup_branch_protection set_repo_variables args
                  (t1 ++ [Print BranchCreationCompleted])
                  (t2 ++ [Print BranchCreationCompleted])) as Hreturned.
    destruct (finish valid_json setup_branch_protection set_repo_variables args
            (t1 ++ _)) as [c1 u1].
    destruct (finish valid_json setup_branch_protection set_repo_variables args
            (t2 ++ _)) as [c2 u2]. exact Hreturned.
  - destruct (create_branches_stops_or_loops accepts valid_json setup_branch_protection
              set_repo_variables getpass args hub)
      as [[Hone _] | [tok [t0 [o [refs [source_sha
           [Htok [Horg [Hrepo [Hsource Hlist]]]]]]]]]].
    { rewrite Hone. intros _. discriminate. }
    rewrite (create_branches_reaches_loop accepts valid_json setup_branch_protection
               set_repo_variables getpass args
               hub tok t0 o refs source_sha Htok Horg Hrepo Hsource Hlist).
    cbn [fst snd]. intros _ _ branch Hin.
    unfold ref_of. rewrite !lookup_insert_eq.
    destruct (create_branch_loop_outcome accepts (parse_branches (branches args))
                (source_branch args) source_sha refs branch Hin)
      as [Hsome | [_ Herr]]; [now left | right].
    apply finish_extends. apply in_or_app. right. apply in_or_app. now left.
Qed.

Lemma create_branches_returned_value_witness :
  fst (fst (create_branches (fun _ _ => false) (fun _ => true)
      (fun _ => Ok tt) (fun _ _ => Ok tt) "" example_args
              example_hub)) = 0
  /\ In (Print (ErrorCreatingBranch "qa" (GithubException 422)))
       (snd (create_branches (fun _ _ => false) (fun _ => true)
               (fun _ => Ok tt) (fun _ _ => Ok tt) "" example_args example_hub)).
Proof.
  assert (Hreturned : fst (fst (create_branches (fun _ _ => false) (fun _ => true)
      (fun _ => Ok tt) (fun _ _ => Ok tt) ""
                              example_args example_hub)) = 0) by reflexivity.
  split; [exact Hreturned |].
  destruct (proj2 (create_branches_returned_value (fun _ _ => false) (fun _ => true)
                     (fun _ => Ok tt) (fun _ _ => Ok tt) ""
                     example_args example_hub) eq_refl Hreturned "qa") as [Hsome | Herr].
  - vm_compute. auto.
  - exfalso. revert Hsome. vm_compute. intros [x Hx]. discriminate Hx.
  - exact Herr.
Defined.

End ReposAndBranches.

(** ** [integration/models/base.py] and [integration/models/time_range.py] *)

Module TimeRangeModel.

Local Open Scope Z_scope.

(** A [datetime.datetime]: the wall-clock reading in microseconds and,
    for an aware value, its time zone (the identity of the [tzinfo]
    object and its offset from UTC in microseconds). *)
Record tzinfo := {
  tz_id : nat;
  utcoffset : Z
}.

Record datetime := {
  wall : Z;
  tz : option tzinfo
}.

Inductive exception :=
| TypeError
| ValueError (message : string)
| ValidationError (errors : list string).

(** The two integers an order comparison of datetimes compares: the wall
    clocks of two naive values or of two values of one time zone, the UTC
    instants of two aware values of different zones.  A naive and an
    aware value cannot be ordered. *)
Definition comparison_keys (a b : datetime) : result exception (Z * Z) :=
  match tz a, tz b with
  | None, None => Ok (wall a, wall b)
  | Some za, Some zb =>
      if Nat.eqb (tz_id za) (tz_id zb) then Ok (wall a, wall b)
      else Ok (wall a - utcoffset za, wall b - utcoffset zb)
  | _, _ => Raise TypeError
  end.

Local Open Scope result_scope.

(** [a > b] and [a <= b] *)
Definition datetime_gt (a b : datetime) : result exception bool :=
  let* keys := comparison_keys a b in Ok (fst keys >? snd keys).

Definition datetime_le (a b : datetime) : result exception bool :=
  let* keys := comparison_keys a b in Ok (fst keys <=? snd keys).

Record TimeRange := {
  start : datetime;
  end_ : datetime
}.

(** [TimeRange.end_after_start], the [mode="after"] model validator. *)
Definition end_after_start (self : TimeRange) : result exception TimeRange :=
  let* later := datetime_gt (start self) (end_ self) in
  if later then Raise (ValueError "End must be after start") else Ok self.

(** Values handed to the model. *)
Inductive value :=
| Str (s : string)
| Datetime (d : datetime)
| NoneValue
| Other (repr : string).

(** [BaseModel.empty_string_to_none], the [mode="before"] validator of
    every field.  [str.strip] also removes the whitespace outside ASCII;
    a string that is blank by such whitespace only is not caught here
    and goes on to [parse_str] below, which then stands for what the
    before-validator and the library make of it together (no
    datetime). *)
Definition empty_string_to_none (v : value) : value :=
  match v with
  | Str s => if String.eqb (PyStr.strip PyStr.is_whitespace s) "" then NoneValue else v
  | _ => v
  end.

Section Model.
(** The validation library's reading of a string or of another value as
    a datetime. *)
Variable parse_str : string -> option datetime.
Variable parse_other : string -> option datetime.

Definition validate_datetime (v : value) : option datetime :=
  match v with
  | Datetime d => Some d
  | Str s => parse_str s
  | NoneValue => None
  | Other repr => parse_other repr
  end.

(** A field: the before-validator, then the type. *)
Definition validate_field (v : value) : option datetime :=
  validate_datetime (empty_string_to_none v).

(** The model validator as the library runs it: a [ValueError] becomes
    a validation error, any other exception passes through. *)
Definition run_model_validator (self : TimeRange) : result exception TimeRange :=
  match end_after_start self with
  | Raise (ValueError message) => Raise (ValidationError [message])
  | r => r
  end.

Definition field_errors (name : string) (kwargs : gmap string value) : list string :=
  match kwargs !! name with
  | None => [name]
  | Some v => match validate_field v with
              | None => [name]
              | Some _ => []
              end
  end.

(** Keyword arguments that are not fields ([extra = "forbid"]). *)
Definition extra_errors (kwargs : gmap string value) : list string :=
  List.map fst (map_to_list (delete "start" (delete "end" kwargs))).

(** The constructor, on its keyword arguments. *)
Definition new_TimeRange (kwargs : gmap string value) : result exception TimeRange :=
  match kwargs !! "start" ≫= validate_field, kwargs !! "end" ≫= validate_field,
        extra_errors kwargs with
  | Some s, Some e, [] => run_model_validator {| start := s; end_ := e |}
  | _, _, extras =>
      Raise (ValidationError
               (field_errors "start" kwargs ++ field_errors "end" kwargs ++ extras))
  end.

(** [self.<name> = v] under [validate_assignment]: the result of the
    statement and the instance afterwards.  A value that does not
    validate for its field never reaches the instance.  A value that
    does is put on the instance before the [mode="after"] model validator
    runs on it, and the library does not take it back when the validator
    raises. *)
Definition setattr (self : TimeRange) (name : string) (v : value)
  : result exception unit * TimeRange :=
  let assign (updated : TimeRange) :=
    match run_model_validator updated with
    | Ok _ => (Ok tt, updated)
    | Raise e => (Raise e, updated)
    end in
  if String.eqb name "start" then
    match validate_field v with
    | Some d => assign {| start := d; end_ := end_ self |}
    | None => (Raise (ValidationError ["start"]), self)
    end
  else if String.eqb name "end" then
    match validate_field v with
    | Some d => assign {| start := start self; end_ := d |}
    | None => (Raise (ValidationError ["end"]), self)
    end
  else (Raise (ValidationError [name]), self).

End Model.

Definition naive (microseconds : Z) : datetime :=
  {| wall := microseconds; tz := None |}.

Example time_range_accepts_equal :
  new_TimeRange (fun _ => None) (fun _ => None)
    {[ "start" := Datetime (naive 5); "end" := Datetime (naive 5) ]}
  = Ok {| start := naive 5; end_ := naive 5 |}.
Proof. reflexivity. Qed.

Example time_range_rejects_reversed :
  new_TimeRange (fun _ => None) (fun _ => None)
    {[ "start" := Datetime (naive 6); "end" := Datetime (naive 5) ]}
  = Raise (ValidationError ["End must be after start"]).
Proof. reflexivity. Qed.

Example time_range_rejects_blank :
  new_TimeRange (fun _ => Some (naive 0)) (fun _ => None)
    {[ "start" := Str "  "; "end" := Datetime (naive 5) ]}
  = Raise (ValidationError ["start"]).
Proof. reflexivity. Qed.

Example time_range_rejects_extra :
  new_TimeRange (fun _ => None) (fun _ => None)
    {[ "start" := Datetime (naive 1); "end" := Datetime (naive 5);
       "middle" := Datetime (naive 3) ]}
  = Raise (ValidationError ["middle"]).
Proof. reflexivity. Qed.

Lemma comparison_gt_le a b later :
  datetime_gt a b = Ok later -> datetime_le a b = Ok (negb later).
Proof.
  unfold datetime_gt, datetime_le.
  destruct (comparison_keys a b) as [[x y] | e]; cbn; [| discriminate].
  intros H. injection H as <-. f_equal.
  destruct (Z.gtb_spec x y), (Z.leb_spec x y); cbn; try reflexivity; lia.
Qed.

Lemma end_after_start_ok self t :
  end_after_start self = Ok t ->
  t = self /\ datetime_le (start self) (end_ self) = Ok true.
Proof.
  unfold end_after_start.
  destruct (datetime_gt (start self) (end_ self)) as [later | e] eqn:Hgt;
    cbn; [| discriminate].
  destruct later; [discriminate |].
  intros H. injection H as <-. split; [reflexivity |].
  now apply comparison_gt_le in Hgt.
Qed.

Lemma run_model_validator_ok self t :
  run_model_validator self = Ok t ->
  t = self /\ datetime_le (start self) (end_ self) = Ok true.
Proof.
  unfold run_model_validator.
  destruct (end_after_start self) as [t' | [| m | errs]] eqn:H; try discriminate.
  intros E. injection E as <-. now apply end_after_start_ok.
Qed.

Lemma datetime_gt_refl d : datetime_gt d d = Ok false.
Proof.
  unfold datetime_gt, comparison_keys.
  destruct (tz d) as [z |]; [rewrite Nat.eqb_refl |]; cbn;
    now rewrite Z.gtb_ltb, Z.ltb_irrefl.
Qed.

Lemma datetime_gt_raises a b e : datetime_gt a b = Raise e -> e = TypeError.
Proof.
  unfold datetime_gt, comparison_keys.
  destruct (tz a) as [za |], (tz b) as [zb |]; cbn;
    try destruct (Nat.eqb _ _); cbn; congruence.
Qed.

(** *** What the constructor accepts *)

Section Construction.
Variable parse_str : string -> option datetime.
Variable parse_other : string -> option datetime.

Lemma extra_errors_nil kwargs :
  extra_errors kwargs = []
  <-> forall key, key <> "start" -> key <> "end" -> kwargs !! key = None.
Proof.
  unfold extra_errors. split.
  - intros H key Hs He.
    assert (Hnil : map_to_list (delete "start" (delete "end" kwargs)) = []).
    { destruct (map_to_list _); [reflexivity | discriminate H]. }
    apply map_to_list_empty_iff in Hnil.
    assert (Hkey : delete "start" (delete "end" kwargs) !! key = None)
      by now rewrite Hnil.
    rewrite lookup_delete_ne in Hkey by congruence.
    now rewrite lookup_delete_ne in Hkey by congruence.
  - intros H.
    assert (Hempty : delete "start" (delete "end" kwargs) = ∅).
    { apply map_eq. intros key. rewrite lookup_empty.
      destruct (decide (key = "start")) as [-> | Hs]; [apply lookup_delete_eq |].
      rewrite lookup_delete_ne by congruence.
      destruct (decide (key = "end")) as [-> | He]; [apply lookup_delete_eq |].
      rewrite lookup_delete_ne by congruence. now apply H. }
    rewrite Hempty. now rewrite map_to_list_empty.
Qed.

Lemma validate_field_blank s :
  PyStr.strip PyStr.is_whitespace s = EmptyString ->
  validate_field parse_str parse_other (Str s) = None.
Proof.
  intros H. unfold validate_field, empty_string_to_none. now rewrite H.
Qed.

(** The constructor on two datetimes and nothing else. *)
Lemma new_TimeRange_datetimes s e :
  new_TimeRange parse_str parse_other
    {[ "start" := Datetime s; "end" := Datetime e ]}
  = run_model_validator {| start := s; end_ := e |}.
Proof.
  unfold new_TimeRange.
  assert (Hextra : extra_errors {[ "start" := Datetime s; "end" := Datetime e ]} = []).
  { apply extra_errors_nil. intros key Hs He.
    rewrite lookup_insert_ne by congruence. apply lookup_singleton_ne. congruence. }
  rewrite Hextra, lookup_insert_eq.
  rewrite lookup_insert_ne by discriminate. now rewrite lookup_singleton_eq.
Qed.

(** An assignment of a datetime to a field, by what the model validator
    says of the instance with the new value. *)
Lemma setattr_start self d :
  setattr parse_str parse_other self "start" (Datetime d)
  = match run_model_validator {| start := d; end_ := end_ self |} with
    | Ok _ => (Ok tt, {| start := d; end_ := end_ self |})
    | Raise e => (Raise e, {| start := d; end_ := end_ self |})
    end.
Proof. reflexivity. Qed.

Lemma setattr_end self d :
  setattr parse_str parse_other self "end" (Datetime d)
  = match run_model_validator {| start := start self; end_ := d |} with
    | Ok _ => (Ok tt, {| start := start self; end_ := d |})
    | Raise e => (Raise e, {| start := start self; end_ := d |})
    end.
Proof. reflexivity. Qed.

Lemma run_model_validator_later self :
  datetime_gt (start self) (end_ self) = Ok true ->
  run_model_validator self = Raise (ValidationError ["End must be after start"]).
Proof.
  intros Hgt. unfold run_model_validator, end_after_start. now rewrite Hgt.
Qed.

End Construction.

(** C9, as the code has it.  Every successfully constructed [TimeRange]
    has [start <= end].  The model validator raises [ValueError] exactly
    when [start > end], so a range whose start equals its end is
    accepted, by the validator and by the constructor.  Under
    [validate_assignment] every field assignment runs the validator
    again: an assignment that returns leaves [start <= end].  An
    assignment that would make [start > end] raises a validation error,
    and the instance then holds the assigned value: until it is
    assigned again its [start] is after its [end]. *)
Theorem time_range_start_le_end parse_str parse_other :
  (forall kwargs t,
     new_TimeRange parse_str parse_other kwargs = Ok t ->
     datetime_le (start t) (end_ t) = Ok true)
  /\ (forall self,
        (exists message, end_after_start self = Raise (ValueError message))
        <-> datetime_gt (start self) (end_ self) = Ok true)
  /\ (forall d,
        end_after_start {| start := d; end_ := d |} = Ok {| start := d; end_ := d |}
        /\ new_TimeRange parse_str parse_other
             {[ "start" := Datetime d; "end" := Datetime d ]}
           = Ok {| start := d; end_ := d |})
  /\ (forall self name v self',
        setattr parse_str parse_other self name v = (Ok tt, self') ->
        datetime_le (start self') (end_ self') = Ok true)
  /\ (forall self d,
        datetime_gt d (end_ self) = Ok true ->
        setattr parse_str parse_other self "start" (Datetime d)
        = (Raise (ValidationError ["End must be after start"]),
           {| start := d; end_ := end_ self |}))
  /\ (forall self d,
        datetime_gt (start self) d = Ok true ->
        setattr parse_str parse_other self "end" (Datetime d)
        = (Raise (ValidationError ["End must be after start"]),
           {| start := start self; end_ := d |})).
Proof.
  split; [| split; [| split; [| split; [| split]]]].
  - intros kwargs t. unfold new_TimeRange.
    destruct (kwargs !! "start" ≫= _) as [s |]; [| discriminate].
    destruct (kwargs !! "end" ≫= _) as [e |]; [| discriminate].
    destruct (extra_errors kwargs); [| discriminate].
    intros H. apply run_model_validator_ok in H as [-> H]. exact H.
  - intros self. unfold end_after_start.
    destruct (datetime_gt (start self) (end_ self)) as [[|] | e] eqn:Hgt; cbn.
    + split; [reflexivity | intros _; now eexists].
    + split; [intros [m H]; discriminate H | discriminate].
    + apply datetime_gt_raises in Hgt as ->.
      split; [intros [m H]; discriminate H | discriminate].
  - intros d.
    assert (Hequal : end_after_start {| start := d; end_ := d |}
                     = Ok {| start := d; end_ := d |}).
    { unfold end_after_start. cbn [start end_]. now rewrite datetime_gt_refl. }
    split; [exact Hequal |].
    rewrite new_TimeRange_datetimes. unfold run_model_validator. now rewrite Hequal.
  - intros self name v self'. unfold setattr.
    destruct (String.eqb name "start"); [| destruct (String.eqb name "end")].
    + destruct (validate_field _ _ v) as [d |]; [| discriminate].
      destruct (run_model_validator _) as [t |] eqn:Hv; [| discriminate].
      intros H. injection H as <-. now apply run_model_validator_ok in Hv.
    + destruct (validate_field _ _ v) as [d |]; [| discriminate].
      destruct (run_model_validator _) as [t |] eqn:Hv; [| discriminate].
      intros H. injection H as <-. now apply run_model_validator_ok in Hv.
    + discriminate.
  - intros self d Hgt. rewrite setattr_start.
    now rewrite (run_model_validator_later {| start := d; end_ := end_ self |} Hgt).
  - intros self d Hgt. rewrite setattr_end.
    now rewrite (run_model_validator_later {| start := start self; end_ := d |} Hgt).
Qed.

Lemma time_range_start_le_end_witness :
  datetime_le (naive 3) (naive 5) = Ok true
  /\ setattr (fun _ => None) (fun _ => None)
       {| start := naive 3; end_ := naive 5 |} "end" (Datetime (naive 2))
     = (Raise (ValidationError ["End must be after start"]),
        {| start := naive 3; end_ := naive 2 |}).
Proof.
  destruct (time_range_start_le_end (fun _ => None) (fun _ => None))
    as [Hnew [_ [_ [_ [_ Hend]]]]].
  split.
  - apply (Hnew {[ "start" := Datetime (naive 3); "end" := Datetime (naive 5) ]}
             {| start := naive 3; end_ := naive 5 |}).
    reflexivity.
  - apply (Hend {| start := naive 3; end_ := naive 5 |} (naive 2)). reflexivity.
Defined.

(** C9, as the specification has it, fails.  A range from 3 to 5 is
    constructed and its [end] is then assigned 2: the assignment raises,
    and the instance is left with [start] 3 after [end] 2, so the order of
    the bounds is not preserved under field assignment. *)
Lemma time_range_rejected_assignment_kept :
  new_TimeRange (fun _ => None) (fun _ => None)
    {[ "start" := Datetime (naive 3); "end" := Datetime (naive 5) ]}
  = Ok {| start := naive 3; end_ := naive 5 |}
  /\ setattr (fun _ => None) (fun _ => None)
       {| start := naive 3; end_ := naive 5 |} "end" (Datetime (naive 2))
     = (Raise (ValidationError ["End must be after start"]),
        {| start := naive 3; end_ := naive 2 |})
  /\ datetime_le (naive 3) (naive 2) = Ok false
  /\ datetime_gt (naive 3) (naive 2) = Ok true.
Proof. repeat split. Qed.


(** X24.  [TimeRange(...)] returns a range exactly when both [start] and
    [end] are given and validate, no other keyword is given and
    [start <= end]; the range holds the two validated values.  A string
    that is empty or all whitespace validates for neither field, however
    the library reads strings as datetimes.  When one of the two values
    is naive and the other aware the comparison of the model validator
    fails: the constructor raises [TypeError], not a validation error. *)
Theorem time_range_construction parse_str parse_other kwargs :
  (forall t,
     new_TimeRange parse_str parse_other kwargs = Ok t
     <-> (kwargs !! "start" ≫= validate_field parse_str parse_other = Some (start t)
          /\ kwargs !! "end" ≫= validate_field parse_str parse_other = Some (end_ t)
          /\ (forall key, key <> "start" -> key <> "end" -> kwargs !! key = None)
          /\ datetime_le (start t) (end_ t) = Ok true))
  /\ (forall name s,
        PyStr.strip PyStr.is_whitespace s = EmptyString ->
        kwargs !! name = Some (Str s) ->
        name = "start" \/ name = "end" ->
        exists errors,
          new_TimeRange parse_str parse_other kwargs = Raise (ValidationError errors)
          /\ In name errors)
  /\ (forall s e,
        kwargs !! "start" ≫= validate_field parse_str parse_other = Some s ->
        kwargs !! "end" ≫= validate_field parse_str parse_other = Some e ->
        (forall key, key <> "start" -> key <> "end" -> kwargs !! key = None) ->
        (tz s = None /\ tz e <> None) \/ (tz s <> None /\ tz e = None) ->
        new_TimeRange parse_str parse_other kwargs = Raise TypeError).
Proof.
  split; [| split].
  - intros t. unfold new_TimeRange. split.
    + destruct (kwargs !! "start" ≫= _) as [s |]; [| discriminate].
      destruct (kwargs !! "end" ≫= _) as [e |]; [| discriminate].
      destruct (extra_errors kwargs) eqn:Hextra; [| discriminate].
      intros H. apply run_model_validator_ok in H as [-> H]. cbn [start end_] in *.
      repeat split; auto. now apply extra_errors_nil.
    + intros [-> [-> [Hextra Hle]]]. apply extra_errors_nil in Hextra.
      rewrite Hextra. unfold run_model_validator, end_after_start.
      destruct t as [s e]. cbn [start end_] in *.
      unfold datetime_le in Hle. unfold datetime_gt.
      destruct (comparison_keys s e) as [[x y] | err]; cbn in *; [| discriminate].
      injection Hle as Hle. apply Z.leb_le in Hle.
      destruct (Z.gtb_spec x y); [lia | reflexivity].
  - intros name s Hblank Hname Hfield. unfold new_TimeRange.
    assert (Hnone : kwargs !! name ≫= validate_field parse_str parse_other = None).
    { rewrite Hname. cbn. now apply validate_field_blank. }
    assert (Herr : field_errors parse_str parse_other name kwargs = [name]).
    { unfold field_errors. rewrite Hname.
      now rewrite (validate_field_blank parse_str parse_other s Hblank). }
    destruct Hfield as [-> | ->].
    + rewrite Hnone. eexists. split; [reflexivity |]. rewrite Herr. now left.
    + rewrite Hnone.
      destruct (kwargs !! "start" ≫= _);
        (eexists; split; [reflexivity |]); rewrite Herr;
        apply in_or_app; right; now left.
  - intros s e Hs He Hextra Hmixed. unfold new_TimeRange.
    apply extra_errors_nil in Hextra. rewrite Hs, He, Hextra.
    unfold run_model_validator, end_after_start, datetime_gt, comparison_keys.
    cbn [start end_].
    destruct (tz s) as [zs |], (tz e) as [ze |]; cbn; try reflexivity;
      exfalso; destruct Hmixed as [[H1 H2] | [H1 H2]]; congruence.
Qed.


Definition utc : tzinfo := {| tz_id := 0; utcoffset := 0 |}.

Lemma time_range_construction_witness :
  new_TimeRange (fun _ => None) (fun _ => None)
    {[ "start" := Datetime (naive 1);
       "end" := Datetime {| wall := 5; tz := Some utc |} ]}
  = Raise TypeError.
Proof.
  apply (proj2 (proj2 (time_range_construction (fun _ => None) (fun _ => None)
                         {[ "start" := Datetime (naive 1);
                            "end" := Datetime {| wall := 5; tz := Some utc |} ]}))
           (naive 1) {| wall := 5; tz := Some utc |}).
  - reflexivity.
  - reflexivity.
  - intros key Hs He. rewrite lookup_insert_ne by congruence.
    apply lookup_singleton_ne. congruence.
  - left. split; [reflexivity | discriminate].
Defined.

End TimeRangeModel.

(** ** [handlers/do_something.py]

    From the [try] statement on, the handler is run as a state-passing
    computation over the execution record and the list of its effects.
    Calls into the tracing and logging libraries, and the closing of the
    HTTP client, are recorded as effects and return.  The statements
    before the [try] (the HTTP client is opened, the Salesforce client is
    obtained, the execution record is built from [dict(event)]),
    [json.dumps(event)] in the [try] block and [execution.create_all()]
    in the [finally] block return or raise as their parameters say. *)

Module DoSomething.

(** *** Exceptions and exception groups *)

(** An exception is an instance of [Exception] that is not a group, an
    instance of [BaseException] that is not an [Exception]
    ([KeyboardInterrupt], [asyncio.CancelledError]), or a group. *)
#[warnings="-register-all"]
Inductive exn :=
| Exc (cls message : string)
| BaseExc (cls message : string)
| Group (message : string) (exceptions : list exn).

(** [isinstance(e, Exception)]: a group is an [ExceptionGroup] when all
    its members are [Exception]s, a [BaseExceptionGroup] otherwise. *)
Fixpoint is_Exception (e : exn) : bool :=
  match e with
  | Exc _ _ => true
  | BaseExc _ _ => false
  | Group _ members => forallb is_Exception members
  end.

Definition nonempty_group (message : string) (members : list exn) : option exn :=
  match members with
  | [] => None
  | _ => Some (Group message members)
  end.

(** [e.split(Exception)]: the part made of [Exception]s and the rest, the
    nesting kept. *)
Fixpoint split_Exception (e : exn) : option exn * option exn :=
  if is_Exception e then (Some e, None)
  else
    match e with
    | Group message members =>
        let parts := List.map split_Exception members in
        (nonempty_group message (omap fst parts),
         nonempty_group message (omap snd parts))
    | _ => (None, Some e)
    end.

(** What [except* Exception as eg] binds to [eg] for a raised [e], and
    the part of [e] it leaves unhandled.  An [Exception] that is not a
    group is wrapped in a group of its own. *)
Definition except_star_Exception (e : exn) : option exn * option exn :=
  match e with
  | Group _ _ => split_Exception e
  | _ => if is_Exception e then (Some (Group "" [e]), None) else (None, Some e)
  end.

(** [eg.exceptions] *)
Definition exceptions (eg : exn) : list exn :=
  match eg with
  | Group _ members => members
  | _ => []
  end.

Example split_mixed_group :
  except_star_Exception
    (Group "tasks" [Exc "ValueError" "bad"; BaseExc "KeyboardInterrupt" "";
                    Group "inner" [Exc "KeyError" "k"]])
  = (Some (Group "tasks" [Exc "ValueError" "bad"; Group "inner" [Exc "KeyError" "k"]]),
     Some (Group "tasks" [BaseExc "KeyboardInterrupt" ""])).
Proof. reflexivity. Qed.

Example wrap_naked_exception :
  except_star_Exception (Exc "TypeError" "not serializable")
  = (Some (Group "" [Exc "TypeError" "not serializable"]), None).
Proof. reflexivity. Qed.

(** *** Formatting a count with [:,d] *)

Fixpoint commas (reversed_digits : list ascii) (in_group : nat) : list ascii :=
  match reversed_digits with
  | [] => []
  | d :: rest =>
      match in_group with
      | 3%nat => ","%char :: d :: commas rest 1
      | _ => d :: commas rest (S in_group)
      end
  end.

(** [f"{n:,d}"] for a count [n]. *)
Definition format_comma_d (n : nat) : string :=
  string_of_list_ascii
    (rev (commas (rev (list_ascii_of_string
                         (DecimalString.NilZero.string_of_uint (Nat.to_uint n)))) 0)).

Example format_small : format_comma_d 2 = "2".
Proof. reflexivity. Qed.

Example format_thousands : format_comma_d 4321 = "4,321".
Proof. reflexivity. Qed.

(** *** The execution record and the effects of the handler *)

(** A JSON object with boolean values, enough for the response payload. *)
Definition payload : Type := list (string * bool).

Section Handler.
(** The Lambda event. *)
Variable Event : Type.

(** [KicksawIntegrationAppExecution], as far as the handler reads and
    writes it. *)
Record Execution := {
  integration_name : string;
  execution_payload : Event;
  error_message : option string;
  response_payload : option payload;
  success : option bool
}.

Definition set_error_message (m : string) (x : Execution) : Execution :=
  {| integration_name := integration_name x;
     execution_payload := execution_payload x;
     error_message := Some m;
     response_payload := response_payload x;
     success := success x |}.

Definition set_response_payload (p : payload) (x : Execution) : Execution :=
  {| integration_name := integration_name x;
     execution_payload := execution_payload x;
     error_message := error_message x;
     response_payload := Some p;
     success := success x |}.

Definition set_success (b : bool) (x : Execution) : Execution :=
  {| integration_name := integration_name x;
     execution_payload := execution_payload x;
     error_message := error_message x;
     response_payload := response_payload x;
     success := Some b |}.

Inductive annotation :=
| AStr (s : string)
| ABool (b : option bool).

(** What the handler does that is visible outside it.  [CreateTask x] is
    [asyncio.create_task(execution.create_all())] with the record as it
    is at that moment; [AwaitShield] is [await asyncio.shield(task)]. *)
Inductive effect :=
| OpenHttpxClient
| CloseHttpxClient
| GetSalesforceClient
| EnterSubsegment (name : string)
| ExitSubsegment (name : string)
| LoggerInfo (text : string)
| LoggerWarning (count : nat)
| ExecutionLoggerWarning (message : string)
| ExecutionLoggerError (message : string)
| CreateTask (record : Execution)
| AwaitShield
| PutAnnotation (key : string) (value : annotation).

(** The state the handler threads: the execution record and the effects
    so far. *)
Record state := {
  execution : Execution;
  effects : list effect
}.

Definition M (A : Type) : Type := state -> result exn A * state.

Definition ret {A} (a : A) : M A := fun s => (Ok a, s).

Definition raise {A} (e : exn) : M A := fun s => (Raise e, s).

Definition bind {A B} (m : M A) (k : A -> M B) : M B :=
  fun s =>
    match m s with
    | (Ok a, s') => k a s'
    | (Raise e, s') => (Raise e, s')
    end.

Definition seq {A B} (m : M A) (k : M B) : M B := bind m (fun _ => k).

Definition emit (f : effect) : M unit :=
  fun s => (Ok tt, {| execution := execution s; effects := effects s ++ [f] |}).

Definition modify (f : Execution -> Execution) : M unit :=
  fun s => (Ok tt, {| execution := f (execution s); effects := effects s |}).

Definition read : M Execution := fun s => (Ok (execution s), s).

(** [for x in xs: body(x)] *)
Fixpoint for_each {A} (xs : list A) (body : A -> M unit) : M unit :=
  match xs with
  | [] => ret tt
  | x :: rest => seq (body x) (for_each rest body)
  end.

(** [try: body finally: final]: [final] runs whatever [body] did; its own
    exception, if any, is the one that leaves the statement. *)
Definition try_finally {A} (body : M A) (final : M unit) : M A :=
  fun s =>
    match body s with
    | (r, s1) =>
        match final s1 with
        | (Ok _, s2) => (r, s2)
        | (Raise f, s2) => (Raise f, s2)
        end
    end.

(** [with manager: body]: the exit of the context manager runs whatever
    [body] did. *)
Definition with_context {A} (enter leave : effect) (body : M A) : M A :=
  seq (emit enter) (try_finally body (emit leave)).

Section Interpreter.
(** The exception that leaves a [try ... except*] statement when the
    statement caught a part of the group [original], its clause raised
    [raised], and [rest] was left unhandled: the interpreter's
    combination of the three. *)
Variable combine : exn -> exn -> option exn -> exn.

(** [try: body except* Exception as eg: handler(eg)] *)
Definition try_except_star {A} (body : M A) (handler : exn -> M A) : M A :=
  fun s =>
    match body s with
    | (Ok a, s1) => (Ok a, s1)
    | (Raise e, s1) =>
        match except_star_Exception e with
        | (Some eg, rest) =>
            match handler eg s1 with
            | (Ok a, s2) =>
                match rest with
                | None => (Ok a, s2)
                | Some unhandled => (Raise unhandled, s2)
                end
            | (Raise raised, s2) =>
                (Raise (match e with
                        | Group _ _ => combine e raised rest
                        | _ => raised
                        end), s2)
            end
        | (None, _) => (Raise e, s1)
        end
    end.

(** The settings the handler reads. *)
Variable settings : ProjectSettings.Settings.
(** [get_httpx_client()] and the entry of its context. *)
Variable get_httpx_client : result exn unit.
(** [get_salesforce_client(httpx_client)] *)
Variable get_salesforce_client : result exn unit.
(** The call of the constructor of the execution record with its name
    and the event: the evaluation of [dict(event)], which raises
    [TypeError] on an event that is no mapping, then the constructor. *)
Variable new_execution : string -> Event -> result exn Execution.
(** [json.dumps(event)]: the text, or the exception it raised. *)
Variable json_dumps : Event -> result exn string.
(** [traceback.format_exception_only] *)
Variable format_exception_only : exn -> list string.
(** [execution.create_all()]: the ids of the integration and of the
    execution record it wrote, or the exception it raised. *)
Variable create_all : Execution -> result exn (string * string).

Definition subsegment {A} (name : string) (body : M A) : M A :=
  with_context (EnterSubsegment name) (ExitSubsegment name) body.

(** The statements of the [try] block. *)
Definition try_block (event : Event) (execution_soft_errors : list string) : M unit :=
  seq (subsegment "Doing something"
         (match json_dumps event with
          | Ok text => emit (LoggerInfo text)
          | Raise e => raise e
          end))
    (if (0 <? length execution_soft_errors)%nat
     then
       seq (emit (LoggerWarning (length execution_soft_errors)))
         (seq (for_each execution_soft_errors
                 (fun error => emit (ExecutionLoggerWarning error)))
            (seq (modify (set_error_message
                            ("Encountered "
                             ++ format_comma_d (length execution_soft_errors)
                             ++ " errors, see execution logs for details")))
               (modify (set_success false))))
     else
       seq (modify (set_response_payload [("success", true)]))
         (modify (set_success true))).

(** The [except* Exception as eg] clause. *)
Definition except_clause (eg : exn) : M unit :=
  seq (match length (exceptions eg) with
       | 1%nat =>
           match exceptions eg with
           | first :: _ =>
               modify (set_error_message (PyStr.join (String "010" "")
                                            (format_exception_only first)))
           | [] => ret tt
           end
       | _ =>
           seq (for_each (exceptions eg)
                  (fun exception =>
                     emit (ExecutionLoggerError
                             (PyStr.join (String "010" "")
                                (format_exception_only exception)))))
             (modify (set_error_message
                        ("Execution failed with "
                         ++ format_comma_d (length (exceptions eg))
                         ++ " errors, see ERROR logs for details")))
       end)
    (raise eg).

(** The [finally] block. *)
Definition finally_block : M unit :=
  subsegment "Creating Kicksaw Integration App execution record"
    (bind read (fun record =>
     seq (emit (CreateTask record))
    (seq (emit AwaitShield)
       (match create_all record with
        | Raise e => raise e
        | Ok (integration_id, execution_id) =>
            bind read (fun x =>
            seq (emit (PutAnnotation "integration_name" (AStr (integration_name x))))
           (seq (emit (PutAnnotation "integration_id" (AStr integration_id)))
           (seq (emit (PutAnnotation "execution_id" (AStr execution_id)))
                (emit (PutAnnotation "success" (ABool (success x)))))))
        end)))).

Definition try_statement (event : Event) : M unit :=
  let execution_soft_errors : list string := [] in
  try_finally
    (try_except_star (try_block event execution_soft_errors) except_clause)
    finally_block.

(** [f"{settings.PROJECT_SLUG} {settings.ENVIRONMENT} Do something"] *)
Definition execution_name : string :=
  ProjectSettings.PROJECT_SLUG settings ++ " "
  ++ ProjectSettings.Environment_str (ProjectSettings.ENVIRONMENT settings)
  ++ " Do something".

(** The rest of the [async with] block once the record [execution0] is
    built: the [try] statement, then the exit of the context of the HTTP
    client, which runs whatever the statement did. *)
Definition from_try (event : Event) (execution0 : Execution)
  : result exn unit * state :=
  try_finally (try_statement event) (emit CloseHttpxClient)
    {| execution := execution0;
       effects := [OpenHttpxClient; GetSalesforceClient] |}.

(** [async_handler(event, context)], run from the start: what it returns
    or raises, the execution record if one was built, and the effects.
    An exception of a statement before the [try] leaves the handler
    through the exit of the context of the HTTP client, if that was
    entered; the [try] statement is then never reached. *)
Definition async_handler (event : Event)
  : result exn unit * option Execution * list effect :=
  match get_httpx_client with
  | Raise e => (Raise e, None, [])
  | Ok _ =>
      match get_salesforce_client with
      | Raise e =>
          (Raise e, None, [OpenHttpxClient; GetSalesforceClient; CloseHttpxClient])
      | Ok _ =>
          match new_execution execution_name event with
          | Raise e =>
              (Raise e, None,
               [OpenHttpxClient; GetSalesforceClient; CloseHttpxClient])
          | Ok execution0 =>
              let '(r, s) := from_try event execution0 in
              (r, Some (execution s), effects s)
          end
      end
  end.

End Interpreter.
End Handler.

Arguments integration_name {Event} _.
Arguments execution_payload {Event} _.
Arguments error_message {Event} _.
Arguments response_payload {Event} _.
Arguments success {Event} _.
Arguments set_error_message {Event} m x.
Arguments set_response_payload {Event} p x.
Arguments set_success {Event} b x.
Arguments OpenHttpxClient {Event}.
Arguments CloseHttpxClient {Event}.
Arguments GetSalesforceClient {Event}.
Arguments EnterSubsegment {Event} name.
Arguments ExitSubsegment {Event} name.
Arguments LoggerInfo {Event} text.
Arguments LoggerWarning {Event} count.
Arguments ExecutionLoggerWarning {Event} message.
Arguments ExecutionLoggerError {Event} message.
Arguments CreateTask {Event} record.
Arguments AwaitShield {Event}.
Arguments PutAnnotation {Event} key value.
Arguments execution {Event} _.
Arguments effects {Event} _.
Arguments Build_state {Event} _ _.
Arguments ret {Event A} a s.
Arguments raise {Event A} e s.
Arguments bind {Event A B} m k s.
Arguments seq {Event A B} m k s.
Arguments emit {Event} f s.
Arguments modify {Event} f s.
Arguments read {Event} s.
Arguments for_each {Event A} xs body s.
Arguments try_finally {Event A} body final s.
Arguments with_context {Event A} enter leave body s.
Arguments try_except_star {Event} combine {A} body handler s.
Arguments subsegment {Event A} name body s.
Arguments try_block {Event} json_dumps event execution_soft_errors s.
Arguments except_clause {Event} format_exception_only eg s.
Arguments finally_block {Event} create_all s.
Arguments try_statement {Event} combine json_dumps format_exception_only create_all event s.
Arguments from_try {Event} combine json_dumps format_exception_only create_all
  event execution0.
Arguments async_handler {Event} combine settings get_httpx_client
  get_salesforce_client new_execution json_dumps format_exception_only create_all
  event.

(** *** Facts about the handler *)

Section HandlerFacts.
Context {Event : Type}.
Variable combine : exn -> exn -> option exn -> exn.
Variable settings : ProjectSettings.Settings.
Variable get_httpx_client : result exn unit.
Variable get_salesforce_client : result exn unit.
Variable new_execution : string -> Event -> result exn (Execution Event).
Variable json_dumps : Event -> result exn string.
Variable format_exception_only : exn -> list string.
Variable create_all : Execution Event -> result exn (string * string).

Lemma for_each_emit {A} (f : A -> effect Event) xs s :
  for_each xs (fun x => emit (f x)) s
  = (Ok tt, {| execution := execution s; effects := effects s ++ List.map f xs |}).
Proof.
  revert s. induction xs as [| x rest IH]; intros s.
  - cbn. rewrite app_nil_r. now destruct s.
  - cbn [for_each List.map]. unfold seq, bind. cbn [emit]. rewrite IH. cbn.
    now rewrite <- app_assoc.
Qed.

(** The text of one exception, and the message for several. *)
Definition traceback_text (e : exn) : string :=
  PyStr.join (String "010" "") (format_exception_only e).

Definition aggregate_message (n : nat) : string :=
  "Execution failed with " ++ format_comma_d n ++ " errors, see ERROR logs for details".

(** The clause, by the number of exceptions of the group. *)
Lemma except_clause_one message first (s : state Event) :
  except_clause format_exception_only (Group message [first]) s
  = (Raise (Group message [first]),
     {| execution := set_error_message (traceback_text first) (execution s);
        effects := effects s |}).
Proof. reflexivity. Qed.

Lemma except_clause_many eg (s : state Event) :
  length (exceptions eg) <> 1%nat ->
  except_clause format_exception_only eg s
  = (Raise eg,
     {| execution := set_error_message (aggregate_message (length (exceptions eg)))
                       (execution s);
        effects := effects s
                   ++ List.map (fun e => ExecutionLoggerError (traceback_text e))
                        (exceptions eg) |}).
Proof.
  intros Hlen. unfold except_clause, seq at 1, bind at 1.
  destruct (length (exceptions eg)) as [| [| n]] eqn:Hn; [| congruence |];
    unfold seq, bind; rewrite for_each_emit; reflexivity.
Qed.

(** The [try] block on an event that serializes, and on one that does
    not. *)
Lemma try_block_completes event text (s : state Event) :
  json_dumps event = Ok text ->
  try_block json_dumps event [] s
  = (Ok tt,
     {| execution := set_success true
                       (set_response_payload [("success", true)] (execution s));
        effects := effects s ++ [EnterSubsegment "Doing something"; LoggerInfo text;
                                 ExitSubsegment "Doing something"] |}).
Proof.
  intros H. unfold try_block, subsegment, with_context, seq, bind, try_finally.
  rewrite H. cbn. now rewrite <- !app_assoc.
Qed.

Lemma try_block_raises event e (s : state Event) :
  json_dumps event = Raise e ->
  try_block json_dumps event [] s
  = (Raise e,
     {| execution := execution s;
        effects := effects s ++ [EnterSubsegment "Doing something";
                                 ExitSubsegment "Doing something"] |}).
Proof.
  intros H. unfold try_block, subsegment, with_context, seq, bind, try_finally.
  rewrite H. cbn. now rewrite <- !app_assoc.
Qed.

(** The effects that write the execution record, and the warnings of the
    soft-error branch. *)
Definition is_write (f : effect Event) : bool :=
  match f with
  | CreateTask _ | AwaitShield => true
  | _ => false
  end.

Definition is_warning (f : effect Event) : bool :=
  match f with
  | LoggerWarning _ | ExecutionLoggerWarning _ => true
  | _ => false
  end.

Definition plain (f : effect Event) : bool := negb (is_write f) && negb (is_warning f).

Lemma plain_errors (texts : list exn) :
  forallb plain
    (List.map (fun e => ExecutionLoggerError (Event := Event) (traceback_text e)) texts)
  = true.
Proof. induction texts; cbn; auto. Qed.

(** The group an [except*] clause receives is a group. *)
Lemma except_star_Exception_group e eg rest :
  except_star_Exception e = (Some eg, rest) ->
  exists message members, eg = Group message members.
Proof.
  destruct e as [cls m | cls m | m members]; cbn.
  - intros H. injection H as <- _. now eexists _, _.
  - discriminate.
  - destruct (forallb is_Exception members).
    + intros H. injection H as <- _. now eexists _, _.
    + unfold nonempty_group. destruct (omap fst _); [discriminate |].
      intros H. injection H as <- _. now eexists _, _.
Qed.

(** The [try ... except*] part of the handler: it only adds plain
    effects, and when the [try] block completes the record says so. *)
Lemma try_except_star_shape event (s : state Event) :
  exists r x mid,
    try_except_star combine (try_block json_dumps event [])
      (except_clause format_exception_only) s
    = (r, {| execution := x; effects := effects s ++ mid |})
    /\ forallb plain mid = true
    /\ (forall text, json_dumps event = Ok text ->
        r = Ok tt
        /\ x = set_success true
                 (set_response_payload [("success", true)] (execution s))).
Proof.
  unfold try_except_star.
  destruct (json_dumps event) as [text | e] eqn:Hdump.
  - rewrite (try_block_completes event text s Hdump).
    eexists _, _, _. split; [reflexivity |]. split; [reflexivity |].
    intros text' H. injection H as <-. split; reflexivity.
  - rewrite (try_block_raises event e s Hdump).
    destruct (except_star_Exception e) as [[eg |] rest] eqn:Hmatch.
    + destruct (except_star_Exception_group e eg rest Hmatch)
        as [message [members ->]].
      destruct (Nat.eq_dec (length (exceptions (Group message members))) 1)
        as [Hone | Hmany].
      * destruct members as [| first [| second more]]; try discriminate Hone.
        rewrite except_clause_one. cbn [effects execution].
        eexists _, _, _. split; [reflexivity |]. split; [reflexivity |].
        intros text H. discriminate H.
      * rewrite (except_clause_many _ _ Hmany). cbn [effects execution].
        rewrite <- app_assoc.
        eexists _, _, _. split; [reflexivity |]. split.
        -- rewrite forallb_app. cbn. apply plain_errors.
        -- intros text H. discriminate H.
    + eexists _, _, _. split; [reflexivity |]. split; [reflexivity |].
      intros text H. discriminate H.
Qed.

(** A group made of [Exception]s only is caught whole. *)
Lemma except_star_Exception_whole message members :
  forallb is_Exception members = true ->
  except_star_Exception (Group message members)
  = (Some (Group message members), None).
Proof. intros H. cbn. now rewrite H. Qed.

(** What [except* Exception] does not catch leaves the statement as it
    is, and the clause does not run. *)
Lemma try_except_star_uncaught event e rest (s : state Event) :
  json_dumps event = Raise e ->
  except_star_Exception e = (None, rest) ->
  try_except_star combine (try_block json_dumps event [])
    (except_clause format_exception_only) s
  = (Raise e,
     {| execution := execution s;
        effects := effects s ++ [EnterSubsegment "Doing something";
                                 ExitSubsegment "Doing something"] |}).
Proof.
  intros Hdump Hmatch. unfold try_except_star.
  now rewrite (try_block_raises event e s Hdump), Hmatch.
Qed.

Definition record_subsegment : string :=
  "Creating Kicksaw Integration App execution record".

(** The [finally] block: one task for the record as it is, awaited under
    the shield, inside its subsegment; the record is left as it is. *)
Lemma finally_block_shape (s : state Event) :
  exists r tail,
    finally_block create_all s
    = (r, {| execution := execution s;
             effects := effects s
                        ++ [EnterSubsegment record_subsegment;
                            CreateTask (execution s); AwaitShield]
                        ++ tail |})
    /\ forallb plain tail = true.
Proof.
  unfold finally_block, subsegment, with_context, seq, bind, try_finally, read.
  cbn [emit execution effects].
  destruct (create_all (execution s)) as [[integration_id execution_id] | e]; cbn;
    eexists _, _; (split; [rewrite <- !app_assoc; reflexivity | reflexivity]).
Qed.

(** The handler from the [try] statement on: its effects and its
    record. *)
Lemma from_try_shape event execution0 :
  exists r x mid tail,
    from_try combine json_dumps format_exception_only create_all event execution0
    = (r, {| execution := x;
             effects := [OpenHttpxClient; GetSalesforceClient] ++ mid
                        ++ [EnterSubsegment record_subsegment; CreateTask x;
                            AwaitShield]
                        ++ tail ++ [CloseHttpxClient] |})
    /\ forallb plain mid = true
    /\ forallb plain tail = true
    /\ (forall text, json_dumps event = Ok text ->
        response_payload x = Some [("success", true)] /\ success x = Some true).
Proof.
  unfold from_try, try_finally at 1.
  unfold try_statement, try_finally at 1.
  match goal with
  | |- context [try_except_star _ _ _ ?s0] =>
      destruct (try_except_star_shape event s0) as [r1 [x [mid [Hrun [Hmid Hok]]]]]
  end.
  rewrite Hrun.
  match goal with
  | |- context [finally_block _ ?s1] =>
      destruct (finally_block_shape s1) as [r2 [tail [Hfin Htail]]]
  end.
  rewrite Hfin. cbn [execution effects].
  exists (match r2 with Ok _ => r1 | Raise f => Raise f end), x, mid, tail.
  split.
  - destruct r2; cbn; rewrite <- !app_assoc; reflexivity.
  - split; [exact Hmid | split; [exact Htail |]].
    intros text Hdump. destruct (Hok text Hdump) as [_ ->]. split; reflexivity.
Qed.

Lemma plain_no_write fs : forallb plain fs = true -> List.filter is_write fs = [].
Proof.
  induction fs as [| f rest IH]; [reflexivity |]. cbn.
  intros H. apply andb_true_iff in H as [Hf Hrest]. unfold plain in Hf.
  apply andb_true_iff in Hf as [Hw _]. apply negb_true_iff in Hw. rewrite Hw.
  now apply IH.
Qed.

Lemma plain_no_warning fs f :
  forallb plain fs = true -> In f fs -> is_warning f = false.
Proof.
  intros H Hin. rewrite forallb_forall in H. specialize (H f Hin).
  unfold plain in H. apply andb_true_iff in H as [_ Hw]. now apply negb_true_iff.
Qed.

(** The run when the statements before the [try] return, and when one
    of them raises. *)
Lemma async_handler_built event execution0 :
  get_httpx_client = Ok tt ->
  get_salesforce_client = Ok tt ->
  new_execution (execution_name settings) event = Ok execution0 ->
  let rest :=
    from_try combine json_dumps format_exception_only create_all event execution0 in
  async_handler combine settings get_httpx_client get_salesforce_client
    new_execution json_dumps format_exception_only create_all event
  = (fst rest, Some (execution (snd rest)), effects (snd rest)).
Proof.
  intros Hopen Hclient Hrecord. cbv zeta. unfold async_handler.
  rewrite Hopen, Hclient, Hrecord. now destruct (from_try _ _ _ _ _ _).
Qed.

Lemma async_handler_not_built event :
  (exists e opened,
     async_handler combine settings get_httpx_client get_salesforce_client
       new_execution json_dumps format_exception_only create_all event
     = (Raise e, None, opened)
     /\ (opened = [] \/ opened = [OpenHttpxClient; GetSalesforceClient;
                                  CloseHttpxClient]))
  \/ (exists execution0,
        get_httpx_client = Ok tt
        /\ get_salesforce_client = Ok tt
        /\ new_execution (execution_name settings) event = Ok execution0).
Proof.
  unfold async_handler.
  destruct get_httpx_client as [[] | e]; [| left; eauto].
  destruct get_salesforce_client as [[] | e]; [| left; eauto].
  destruct (new_execution _ event) as [execution0 | e]; [| left; eauto].
  right. now exists execution0.
Qed.

End HandlerFacts.

(** C1, as the code has it.  In every run in which the statements before
    the [try] return (the HTTP client is opened, the Salesforce client is
    obtained and the execution record is built from [dict(event)]),
    whether [json.dumps] in the [try] block returns or raises and
    whatever [create_all] then does, the handler starts
    [execution.create_all()] as a task and awaits it under
    [asyncio.shield] exactly once, inside the subsegment of the [finally]
    block, after everything the [try] and [except*] parts do and before
    the HTTP client is closed and the handler returns or raises.  When
    one of the statements before the [try] raises, its exception leaves
    the handler, there is no record and [create_all] is never started. *)
Theorem execution_record_written_once {Event : Type}
    combine settings get_httpx_client get_salesforce_client
    (new_execution : string -> Event -> result exn (Execution Event))
    json_dumps format_exception_only create_all event :
  let run := async_handler combine settings get_httpx_client
               get_salesforce_client new_execution json_dumps
               format_exception_only create_all event in
  (forall execution0,
     get_httpx_client = Ok tt ->
     get_salesforce_client = Ok tt ->
     new_execution (execution_name settings) event = Ok execution0 ->
     exists before record after,
       snd run
       = before
         ++ [EnterSubsegment record_subsegment; CreateTask record; AwaitShield]
         ++ after ++ [CloseHttpxClient]
       /\ snd (fst run) = Some record
       /\ List.filter is_write before = []
       /\ List.filter is_write after = []
       /\ List.filter is_write (snd run) = [CreateTask record; AwaitShield])
  /\ (forall e,
        get_httpx_client = Raise e
        \/ (get_httpx_client = Ok tt /\ get_salesforce_client = Raise e)
        \/ (get_httpx_client = Ok tt /\ get_salesforce_client = Ok tt
            /\ new_execution (execution_name settings) event = Raise e) ->
        fst (fst run) = Raise e
        /\ snd (fst run) = None
        /\ List.filter is_write (snd run) = []
        /\ (get_httpx_client = Ok tt ->
            snd run = [OpenHttpxClient; GetSalesforceClient; CloseHttpxClient])).
Proof.
  cbv zeta. split.
  - intros execution0 Hopen Hclient Hrecord.
    rewrite (async_handler_built combine settings get_httpx_client
               get_salesforce_client new_execution json_dumps format_exception_only
               create_all event execution0 Hopen Hclient Hrecord).
    destruct (from_try_shape combine json_dumps format_exception_only create_all
                event execution0)
      as [r [x [mid [tail [Hrun [Hmid [Htail _]]]]]]].
    rewrite Hrun. cbn [fst snd effects execution].
    exists ([OpenHttpxClient; GetSalesforceClient] ++ mid), x, tail.
    assert (Hbefore : List.filter is_write
                        ([OpenHttpxClient (Event := Event); GetSalesforceClient] ++ mid)
                      = []).
    { cbn. now apply plain_no_write. }
    split; [now rewrite <- !app_assoc |].
    split; [reflexivity |].
    split; [exact Hbefore |].
    split; [now apply plain_no_write |].
    cbn [app]. cbn [List.filter is_write].
    rewrite List.filter_app, (plain_no_write mid Hmid). cbn [app List.filter is_write].
    rewrite List.filter_app, (plain_no_write tail Htail). reflexivity.
  - intros e [Hopen | [[Hopen Hclient] | [Hopen [Hclient Hrecord]]]];
      unfold async_handler; rewrite Hopen; try rewrite Hclient; try rewrite Hrecord;
      cbn [fst snd]; repeat split; try reflexivity.
    intros H. discriminate H.
Qed.

(** C2.  When the [try] block raises [e] and [except* Exception] catches
    the group [eg] of it: with exactly one exception in [eg], the error
    message of the record becomes that exception's exception-only
    traceback text and nothing is logged; with more than one, each is
    logged through [execution.logger.error], in order, and the error
    message becomes "Execution failed with N errors, see ERROR logs for
    details" (N written with thousands separators); in both cases the
    clause then raises [eg] itself. *)
Theorem except_star_error_message {Event : Type}
    combine json_dumps format_exception_only (event : Event) (s : state Event)
    e eg rest :
  json_dumps event = Raise e ->
  except_star_Exception e = (Some eg, rest) ->
  let caught :=
    {| execution := execution s;
       effects := effects s ++ [EnterSubsegment "Doing something";
                                ExitSubsegment "Doing something"] |} in
  let run :=
    try_except_star combine (try_block json_dumps event [])
      (except_clause format_exception_only) s in
  (forall only,
     exceptions eg = [only] ->
     snd run
     = {| execution := set_error_message
                         (PyStr.join (String "010" "") (format_exception_only only))
                         (execution s);
          effects := effects caught |})
  /\ ((1 < length (exceptions eg))%nat ->
      snd run
      = {| execution := set_error_message
                          ("Execution failed with "
                           ++ format_comma_d (length (exceptions eg))
                           ++ " errors, see ERROR logs for details")
                          (execution s);
           effects := effects caught
                      ++ List.map
                           (fun x => ExecutionLoggerError
                                       (PyStr.join (String "010" "")
                                          (format_exception_only x)))
                           (exceptions eg) |})
  /\ except_clause format_exception_only eg caught = (Raise eg, snd run)
  /\ fst run = Raise (match e with
                      | Group _ _ => combine e eg rest
                      | _ => eg
                      end).
Proof.
  intros Hdump Hmatch caught run. subst run caught.
  unfold try_except_star. rewrite (try_block_raises json_dumps event e s Hdump), Hmatch.
  destruct (except_star_Exception_group e eg rest Hmatch) as [message [members ->]].
  destruct (Nat.eq_dec (length (exceptions (Group message members))) 1)
    as [Hone | Hmany].
  - destruct members as [| first [| second more]]; try discriminate Hone.
    rewrite except_clause_one. cbn [fst snd execution effects exceptions].
    split; [| split; [| split]]; try reflexivity.
    + intros only H. injection H as <-. reflexivity.
    + cbn. lia.
  - rewrite (except_clause_many format_exception_only _ _ Hmany).
    cbn [fst snd execution effects].
    split; [| split; [| split]]; try reflexivity.
    intros only H. rewrite H in Hmany. now destruct Hmany.
Qed.

(** C10.  [execution_soft_errors] starts empty and nothing is appended
    to it: no run of the handler reaches the soft-error branch (no
    warning is ever logged), and whenever the [try] block completes
    without an exception the record has [response_payload] set to
    [{"success": True}] and [success] set to [True].  (The [try] block is
    reached, and there is a record, when the statements before it
    return.) *)
Theorem soft_error_branch_unreachable {Event : Type}
    combine settings get_httpx_client get_salesforce_client
    (new_execution : string -> Event -> result exn (Execution Event))
    json_dumps format_exception_only create_all event :
  let run := async_handler combine settings get_httpx_client
               get_salesforce_client new_execution json_dumps
               format_exception_only create_all event in
  (forall f, In f (snd run) -> is_warning f = false)
  /\ (forall text (s : state Event),
        json_dumps event = Ok text ->
        try_block json_dumps event [] s
        = (Ok tt,
           {| execution := set_success true
                             (set_response_payload [("success", true)] (execution s));
              effects := effects s ++ [EnterSubsegment "Doing something";
                                       LoggerInfo text;
                                       ExitSubsegment "Doing something"] |}))
  /\ (forall text execution0,
        get_httpx_client = Ok tt ->
        get_salesforce_client = Ok tt ->
        new_execution (execution_name settings) event = Ok execution0 ->
        json_dumps event = Ok text ->
        exists record,
          snd (fst run) = Some record
          /\ response_payload record = Some [("success", true)]
          /\ success record = Some true).
Proof.
  cbv zeta. split; [| split].
  - destruct (async_handler_not_built combine settings get_httpx_client
                get_salesforce_client new_execution json_dumps format_exception_only
                create_all event)
      as [[e [opened [Hrun [-> | ->]]]] | [execution0 [Hopen [Hclient Hrecord]]]].
    + rewrite Hrun. intros f [].
    + rewrite Hrun. intros f [<- | [<- | [<- | []]]]; reflexivity.
    + rewrite (async_handler_built combine settings get_httpx_client
                 get_salesforce_client new_execution json_dumps format_exception_only
                 create_all event execution0 Hopen Hclient Hrecord).
      destruct (from_try_shape combine json_dumps format_exception_only create_all
                  event execution0)
        as [r [x [mid [tail [Hrun [Hmid [Htail Hok]]]]]]].
      rewrite Hrun. cbn [fst snd effects execution].
      intros f Hin.
      apply in_app_or in Hin as [Hin | Hin].
      { destruct Hin as [<- | [<- | []]]; reflexivity. }
      apply in_app_or in Hin as [Hin | Hin];
        [now apply (plain_no_warning mid) |].
      apply in_app_or in Hin as [Hin | Hin].
      { destruct Hin as [<- | [<- | [<- | []]]]; reflexivity. }
      apply in_app_or in Hin as [Hin | Hin];
        [now apply (plain_no_warning tail) |].
      destruct Hin as [<- | []]. reflexivity.
  - intros text s. apply try_block_completes.
  - intros text execution0 Hopen Hclient Hrecord Hdump.
    rewrite (async_handler_built combine settings get_httpx_client
               get_salesforce_client new_execution json_dumps format_exception_only
               create_all event execution0 Hopen Hclient Hrecord).
    destruct (from_try_shape combine json_dumps format_exception_only create_all
                event execution0)
      as [r [x [mid [tail [Hrun [Hmid [Htail Hok]]]]]]].
    rewrite Hrun. cbn [fst snd effects execution].
    exists x. split; [reflexivity |]. exact (Hok text Hdump).
Qed.

(** A run on an event that does not serialize to JSON, and one on an
    event that does. *)
Definition example_format (e : exn) : list string :=
  match e with
  | Exc cls message | BaseExc cls message =>
      [(cls ++ ": " ++ message ++ String "010" "")%string]
  | Group message members =>
      [("ExceptionGroup: " ++ message ++ String "010" "")%string]
  end.

Definition example_record (name : string) (event : bool) : Execution bool :=
  {| integration_name := name; execution_payload := event;
     error_message := None; response_payload := None; success := None |}.

Definition example_new_execution (name : string) (event : bool)
  : result exn (Execution bool) :=
  Ok (example_record name event).

Definition example_json_dumps (event : bool) : result exn string :=
  if event then Ok "{}"
  else Raise (Group "tasks" [Exc "ValueError" "a"; Exc "KeyError" "b"]).

Definition example_state : state bool :=
  {| execution := example_record "demo" false; effects := [] |}.

Lemma except_star_error_message_witness :
  error_message
    (execution
       (snd (try_except_star (fun original _ _ => original)
               (try_block example_json_dumps false [])
               (except_clause example_format) example_state)))
  = Some "Execution failed with 2 errors, see ERROR logs for details".
Proof.
  destruct (except_star_error_message (fun original _ _ => original)
              example_json_dumps example_format false example_state
              (Group "tasks" [Exc "ValueError" "a"; Exc "KeyError" "b"])
              (Group "tasks" [Exc "ValueError" "a"; Exc "KeyError" "b"])
              None eq_refl eq_refl) as [_ [Hmany _]].
  rewrite Hmany; [reflexivity | cbn; lia].
Defined.

Lemma soft_error_branch_unreachable_witness :
  exists record,
    snd (fst (async_handler (fun original _ _ => original)
                ProjectSettings.example_settings (Ok tt) (Ok tt)
                example_new_execution example_json_dumps example_format
                (fun _ => Ok ("a0B", "a1C")) true))
    = Some record
    /\ response_payload record = Some [("success", true)]
    /\ success record = Some true.
Proof.
  destruct (soft_error_branch_unreachable (fun original _ _ => original)
              ProjectSettings.example_settings (Ok tt) (Ok tt) example_new_execution
              example_json_dumps example_format
              (fun _ => Ok ("a0B", "a1C")) true) as [_ [_ Hdone]].
  exact (Hdone "{}" _ eq_refl eq_refl eq_refl eq_refl).
Defined.

Lemma execution_record_written_once_witness :
  List.filter is_write
    (snd (async_handler (fun original _ _ => original)
            ProjectSettings.example_settings (Ok tt) (Ok tt)
            example_new_execution example_json_dumps example_format
            (fun _ => Ok ("a0B", "a1C")) true))
  = [CreateTask
       (set_success true
          (set_response_payload [("success", true)]
             (example_record "salesforce-integration staging Do something" true)));
     AwaitShield].
Proof.
  destruct (proj1 (execution_record_written_once (fun original _ _ => original)
                     ProjectSettings.example_settings (Ok tt) (Ok tt)
                     example_new_execution example_json_dumps example_format
                     (fun _ => Ok ("a0B", "a1C")) true)
              _ eq_refl eq_refl eq_refl)
    as [before [record [after [_ [Hrecord [_ [_ Hwrites]]]]]]].
  rewrite Hwrites. injection Hrecord as <-. reflexivity.
Defined.

Example async_handler_failing_run :
  async_handler (fun original _ _ => original) ProjectSettings.example_settings
    (Ok tt) (Ok tt) example_new_execution example_json_dumps example_format
    (fun _ => Ok ("a0B", "a1C")) false
  = (Raise (Group "tasks" [Exc "ValueError" "a"; Exc "KeyError" "b"]),
     Some
       {| integration_name := "salesforce-integration staging Do something";
          execution_payload := false;
          error_message :=
            Some "Execution failed with 2 errors, see ERROR logs for details";
          response_payload := None; success := None |},
     [OpenHttpxClient; GetSalesforceClient;
      EnterSubsegment "Doing something"; ExitSubsegment "Doing something";
      ExecutionLoggerError ("ValueError: a" ++ String "010" "")%string;
      ExecutionLoggerError ("KeyError: b" ++ String "010" "")%string;
      EnterSubsegment record_subsegment;
      CreateTask
        {| integration_name := "salesforce-integration staging Do something";
           execution_payload := false;
           error_message :=
             Some "Execution failed with 2 errors, see ERROR logs for details";
           response_payload := None; success := None |};
      AwaitShield;
      PutAnnotation "integration_name"
        (AStr "salesforce-integration staging Do something");
      PutAnnotation "integration_id" (AStr "a0B");
      PutAnnotation "execution_id" (AStr "a1C");
      PutAnnotation "success" (ABool None);
      ExitSubsegment record_subsegment;
      CloseHttpxClient]).
Proof. reflexivity. Qed.

(** An event that is no mapping: [None], or the mapping [Some entries].
    [dict(None)] raises before the constructor is called. *)
Definition mapping_event : Type := option payload.

Definition new_execution_of_mapping (name : string) (event : mapping_event)
  : result exn (Execution mapping_event) :=
  match event with
  | None => Raise (Exc "TypeError" "'NoneType' object is not iterable")
  | Some entries =>
      Ok {| integration_name := name; execution_payload := Some entries;
            error_message := None; response_payload := None; success := None |}
  end.

Definition json_dumps_of_mapping (event : mapping_event) : result exn string :=
  match event with
  | None => Ok "null"
  | Some _ => Ok "{}"
  end.

(** C1, as the specification has it, fails.  The handler is invoked on
    the event [None]: [dict(event)] raises [TypeError] before the [try]
    statement is entered, the [finally] block does not run, and
    [create_all] is never started, although the Salesforce client and the
    tracing behave. *)
Lemma execution_record_not_written :
  async_handler (fun original _ _ => original) ProjectSettings.example_settings
    (Ok tt) (Ok tt) new_execution_of_mapping json_dumps_of_mapping example_format
    (fun _ => Ok ("a0B", "a1C")) None
  = (Raise (Exc "TypeError" "'NoneType' object is not iterable"), None,
     [OpenHttpxClient; GetSalesforceClient; CloseHttpxClient])
  /\ List.filter is_write
       (snd (async_handler (fun original _ _ => original)
               ProjectSettings.example_settings (Ok tt) (Ok tt)
               new_execution_of_mapping json_dumps_of_mapping example_format
               (fun _ => Ok ("a0B", "a1C")) None))
     = [].
Proof. split; reflexivity. Qed.


(** *** What the handler returns or raises *)

Section Outcome.
Context {Event : Type}.
Variable combine : exn -> exn -> option exn -> exn.
Variable json_dumps : Event -> result exn string.
Variable format_exception_only : exn -> list string.
Variable create_all : Execution Event -> result exn (string * string).

(** What leaves the [try ... except*] statement. *)
Definition try_outcome (event : Event) : result exn unit :=
  match json_dumps event with
  | Ok _ => Ok tt
  | Raise e =>
      match except_star_Exception e with
      | (Some eg, rest) =>
          Raise (match e with
                 | Group _ _ => combine e eg rest
                 | _ => eg
                 end)
      | (None, _) => Raise e
      end
  end.

Definition is_annotation (f : effect Event) : bool :=
  match f with
  | PutAnnotation _ _ => true
  | _ => false
  end.

Lemma no_annotation_errors (members : list exn) :
  List.filter is_annotation
    (List.map (fun e => ExecutionLoggerError (Event := Event)
                          (traceback_text format_exception_only e)) members)
  = [].
Proof. induction members; cbn; auto. Qed.

Lemma try_except_star_outcome event (s : state Event) :
  exists x mid,
    try_except_star combine (try_block json_dumps event [])
      (except_clause format_exception_only) s
    = (try_outcome event, {| execution := x; effects := effects s ++ mid |})
    /\ List.filter is_annotation mid = []
    /\ (forall e, json_dumps event = Raise e ->
        success x = success (execution s)
        /\ response_payload x = response_payload (execution s)).
Proof.
  unfold try_except_star, try_outcome.
  destruct (json_dumps event) as [text | e] eqn:Hdump.
  - rewrite (try_block_completes json_dumps event text s Hdump).
    eexists _, _. split; [reflexivity |]. split; [reflexivity |].
    intros e H. discriminate H.
  - rewrite (try_block_raises json_dumps event e s Hdump).
    destruct (except_star_Exception e) as [[eg |] rest] eqn:Hmatch.
    + destruct (except_star_Exception_group e eg rest Hmatch)
        as [message [members ->]].
      destruct (Nat.eq_dec (length (exceptions (Group message members))) 1)
        as [Hone | Hmany].
      * destruct members as [| first [| second more]]; try discriminate Hone.
        rewrite except_clause_one. cbn [effects execution].
        eexists _, _. split; [reflexivity |]. split; [reflexivity |].
        intros e' _. split; reflexivity.
      * rewrite (except_clause_many format_exception_only _ _ Hmany).
        cbn [effects execution]. rewrite <- app_assoc.
        eexists _, _. split; [reflexivity |]. split.
        -- rewrite List.filter_app. cbn [List.filter is_annotation app].
           apply no_annotation_errors.
        -- intros e' _. split; reflexivity.
    + eexists _, _. split; [reflexivity |]. split; [reflexivity |].
      intros e' _. split; reflexivity.
Qed.

(** The [finally] block, by what [create_all] does. *)
Definition annotations (record : Execution Event) (ids : string * string)
  : list (effect Event) :=
  [PutAnnotation "integration_name" (AStr (integration_name record));
   PutAnnotation "integration_id" (AStr (fst ids));
   PutAnnotation "execution_id" (AStr (snd ids));
   PutAnnotation "success" (ABool (success record))].

Lemma finally_block_run (s : state Event) :
  finally_block create_all s
  = match create_all (execution s) with
    | Ok ids =>
        (Ok tt,
         {| execution := execution s;
            effects := effects s
                       ++ [EnterSubsegment record_subsegment;
                           CreateTask (execution s); AwaitShield]
                       ++ annotations (execution s) ids
                       ++ [ExitSubsegment record_subsegment] |})
    | Raise f =>
        (Raise f,
         {| execution := execution s;
            effects := effects s
                       ++ [EnterSubsegment record_subsegment;
                           CreateTask (execution s); AwaitShield;
                           ExitSubsegment record_subsegment] |})
    end.
Proof.
  unfold finally_block, subsegment, with_context, seq, bind, try_finally, read.
  cbn [emit execution effects].
  destruct (create_all (execution s)) as [[integration_id execution_id] | f]; cbn;
    now rewrite <- !app_assoc.
Qed.

(** The run from the [try] statement on, by what [create_all] does on
    the record. *)
Lemma from_try_run event execution0 :
  exists x mid,
    List.filter is_annotation mid = []
    /\ (forall e, json_dumps event = Raise e ->
        success x = success execution0
        /\ response_payload x = response_payload execution0)
    /\ from_try combine json_dumps format_exception_only create_all event execution0
       = match create_all x with
         | Ok ids =>
             (try_outcome event,
              {| execution := x;
                 effects := [OpenHttpxClient; GetSalesforceClient] ++ mid
                            ++ [EnterSubsegment record_subsegment; CreateTask x;
                                AwaitShield]
                            ++ annotations x ids
                            ++ [ExitSubsegment record_subsegment; CloseHttpxClient] |})
         | Raise f =>
             (Raise f,
              {| execution := x;
                 effects := [OpenHttpxClient; GetSalesforceClient] ++ mid
                            ++ [EnterSubsegment record_subsegment; CreateTask x;
                                AwaitShield; ExitSubsegment record_subsegment;
                                CloseHttpxClient] |})
         end.
Proof.
  unfold from_try, try_finally at 1.
  unfold try_statement, try_finally at 1.
  match goal with
  | |- context [try_except_star _ _ _ ?s0] =>
      destruct (try_except_star_outcome event s0) as [x [mid [Hrun [Hmid Hkeep]]]]
  end.
  rewrite Hrun, finally_block_run. cbn [execution effects] in *.
  exists x, mid. split; [exact Hmid | split; [exact Hkeep |]].
  destruct (create_all x) as [ids | f]; cbn [execution effects];
    destruct (try_outcome event); cbn; rewrite <- ?app_assoc; reflexivity.
Qed.

End Outcome.

(** X25.  What a run of the handler ends with once the statements before
    the [try] have returned and the record is built.  When [create_all]
    raises, its exception is the one that leaves the handler, also when
    the [try] block had raised another, and no annotation is put on the
    subsegment.  When [create_all] returns, the four annotations are put,
    with the record's own [success], and the handler returns if the [try]
    block completed; otherwise it raises what the [except*] statement let
    out: an exception that is no [Exception] as it is, an [Exception]
    that is not a group wrapped in a group with an empty message.  In
    both cases the subsegment and the HTTP client are closed last.  A run
    whose [try] block raised never sets [success]: it stays as the
    constructor of the record left it. *)
Theorem async_handler_outcome {Event : Type}
    combine settings get_httpx_client get_salesforce_client
    (new_execution : string -> Event -> result exn (Execution Event))
    json_dumps format_exception_only create_all event record0 :
  get_httpx_client = Ok tt ->
  get_salesforce_client = Ok tt ->
  new_execution (execution_name settings) event = Ok record0 ->
  let run := async_handler combine settings get_httpx_client
               get_salesforce_client new_execution json_dumps
               format_exception_only create_all event in
  exists record,
    snd (fst run) = Some record
    /\ (forall f,
          create_all record = Raise f ->
          fst (fst run) = Raise f /\ List.filter is_annotation (snd run) = [])
    /\ (forall ids,
          create_all record = Ok ids ->
          fst (fst run) = try_outcome combine json_dumps event
          /\ List.filter is_annotation (snd run) = annotations record ids)
    /\ (forall cls message,
          json_dumps event = Raise (Exc cls message) ->
          try_outcome combine json_dumps event = Raise (Group "" [Exc cls message]))
    /\ (forall cls message,
          json_dumps event = Raise (BaseExc cls message) ->
          try_outcome combine json_dumps event = Raise (BaseExc cls message))
    /\ (exists before,
          snd run = before ++ [ExitSubsegment record_subsegment; CloseHttpxClient])
    /\ (forall e,
          json_dumps event = Raise e ->
          success record = success record0
          /\ response_payload record = response_payload record0).
Proof.
  intros Hopen Hclient Hrecord. cbv zeta.
  rewrite (async_handler_built combine settings get_httpx_client
             get_salesforce_client new_execution json_dumps format_exception_only
             create_all event record0 Hopen Hclient Hrecord).
  destruct (from_try_run combine json_dumps format_exception_only create_all
              event record0)
    as [x [mid [Hmid [Hkeep Hrun]]]].
  rewrite Hrun. exists x.
  split; [now destruct (create_all x) |].
  split; [| split; [| split; [| split; [| split]]]].
  - intros f Hf. rewrite Hf. cbn [fst snd effects]. split; [reflexivity |].
    cbn [app List.filter is_annotation]. rewrite List.filter_app, Hmid. reflexivity.
  - intros ids Hids. rewrite Hids. cbn [fst snd effects]. split; [reflexivity |].
    cbn [app List.filter is_annotation]. rewrite List.filter_app, Hmid. reflexivity.
  - intros cls message H. unfold try_outcome. now rewrite H.
  - intros cls message H. unfold try_outcome. now rewrite H.
  - destruct (create_all x) as [ids | f]; cbn [snd effects].
    + exists ([OpenHttpxClient; GetSalesforceClient] ++ mid
              ++ [EnterSubsegment record_subsegment; CreateTask x; AwaitShield]
              ++ annotations x ids).
      now rewrite <- !app_assoc.
    + exists ([OpenHttpxClient; GetSalesforceClient] ++ mid
              ++ [EnterSubsegment record_subsegment; CreateTask x; AwaitShield]).
      now rewrite <- !app_assoc.
  - exact Hkeep.
Qed.

Lemma async_handler_outcome_witness :
  fst (fst (async_handler (fun original _ _ => original)
              ProjectSettings.example_settings (Ok tt) (Ok tt)
              example_new_execution example_json_dumps example_format
              (fun _ => Raise (Exc "SalesforceError" "session expired")) false))
  = Raise (Exc "SalesforceError" "session expired").
Proof.
  destruct (async_handler_outcome (fun original _ _ => original)
              ProjectSettings.example_settings (Ok tt) (Ok tt)
              example_new_execution example_json_dumps example_format
              (fun _ => Raise (Exc "SalesforceError" "session expired")) false
              _ eq_refl eq_refl eq_refl)
    as [record [_ [Hraises _]]].
  apply (Hraises (Exc "SalesforceError" "session expired")). reflexivity.
Defined.

End DoSomething.

(** ** [integration/exceptions.py] and [integration/config/sentry_config.py] *)

Module SentryConfig.

(** [Metadata] of a [KicksawIntegrationError]. *)
Record Metadata := {
  report_in_sentry : bool;
  sentry_fingerprint : option string;
  report_in_kicksaw_integration_app : bool
}.

(** [exception.request.url]: the client library's URL object, or a plain
    string. *)
Inductive url_value :=
| UrlObject (text : string)
| UrlStr (s : string).

(** [exception.request]: reading it raises when no request was attached. *)
Inductive http_request :=
| RequestUnset
| Request (url : url_value).

Inductive exception_value :=
| KicksawIntegrationError (metadata : Metadata)
| HTTPError (class_name : string) (request : http_request)
| OtherException (class_name : string).

(** [KicksawIntegrationError(message)] with the keyword arguments left
    out. *)
Definition default_metadata : Metadata :=
  {| report_in_sentry := true; sentry_fingerprint := None;
     report_in_kicksaw_integration_app := true |}.

(** The values of a Sentry event: the fingerprint list, or anything
    else. *)
Inductive event_value :=
| Fingerprint (parts : list string)
| Field (text : string).

Inductive exn := RuntimeError | IndexError.

(** [xs[i]] *)
Definition index {A} (xs : list A) (i : nat) : result exn A :=
  match nth_error xs i with
  | Some x => Ok x
  | None => Raise IndexError
  end.

(** [xs[-2:]] *)
Definition last_two {A} (xs : list A) : list A := skipn (length xs - 2) xs.

(** [".".join(url.split("/")[2].split(".")[-2:])] *)
Definition base_url (url : string) : result exn string :=
  rbind (index (PyStr.split "/" url) 2)
    (fun host => Ok (PyStr.join "." (last_two (PyStr.split "." host)))).

(** [before_send(event, hint)]; [hint] is the exception of
    [hint["exc_info"]], when the hint has one. *)
Definition before_send (event : gmap string event_value)
    (hint : option exception_value) : result exn (option (gmap string event_value)) :=
  match hint with
  | None => Ok (Some event)
  | Some (KicksawIntegrationError metadata) =>
      if negb (report_in_sentry metadata) then Ok None
      else
        match sentry_fingerprint metadata with
        | Some fingerprint =>
            Ok (Some (<["fingerprint" := Fingerprint [fingerprint]]> event))
        | None => Ok (Some event)
        end
  | Some (HTTPError class_name request) =>
      match request with
      | RequestUnset => Raise RuntimeError
      | Request (UrlObject _) => Ok (Some event)
      | Request (UrlStr url) =>
          rbind (base_url url)
            (fun base =>
               Ok (Some (<["fingerprint" :=
                            Fingerprint [PyStr.join "-" [class_name; base]]]> event)))
      end
  | Some (OtherException _) => Ok (Some event)
  end.

Example base_url_of_api : base_url "https://api.eu.example.com/v1/items?x=1" = Ok "example.com".
Proof. reflexivity. Qed.

Example base_url_without_host : base_url "localhost" = Raise IndexError.
Proof. reflexivity. Qed.

(** X7.  [before_send] drops an event exactly for a
    [KicksawIntegrationError] that is not to be reported; an event it
    passes on differs from the one it received in the "fingerprint" entry
    at most; and non-exception events, errors raised with the default
    metadata, other exceptions and HTTP errors whose URL is the client
    library's URL object pass unchanged. *)
Theorem before_send_only_fingerprint event hint :
  (before_send event hint = Ok None
   <-> exists metadata,
         hint = Some (KicksawIntegrationError metadata)
         /\ report_in_sentry metadata = false)
  /\ (forall event',
        before_send event hint = Ok (Some event') ->
        forall key, key <> "fingerprint" -> event' !! key = event !! key)
  /\ (hint = None
      \/ hint = Some (KicksawIntegrationError default_metadata)
      \/ (exists class_name, hint = Some (OtherException class_name))
      \/ (exists class_name text,
            hint = Some (HTTPError class_name (Request (UrlObject text)))) ->
      before_send event hint = Ok (Some event)).
Proof.
  split; [| split].
  - split.
    + destruct hint as [[metadata | class_name [| [text | url]] | class_name] |];
        cbn; try discriminate.
      * destruct (report_in_sentry metadata) eqn:E; cbn.
        -- destruct (sentry_fingerprint metadata); discriminate.
        -- intros _. now exists metadata.
      * destruct (base_url url); discriminate.
    + intros [metadata [-> Hreport]]. cbn. now rewrite Hreport.
  - intros event' H key Hkey.
    destruct hint as [[metadata | class_name [| [text | url]] | class_name] |];
      cbn in H; try discriminate; try (injection H as <-; reflexivity).
    + destruct (report_in_sentry metadata); cbn in H; [| discriminate].
      destruct (sentry_fingerprint metadata); injection H as <-; [| reflexivity].
      now apply lookup_insert_ne.
    + destruct (base_url url); cbn in H; [| discriminate].
      injection H as <-. now apply lookup_insert_ne.
  - intros [-> | [-> | [[class_name ->] | [class_name [text ->]]]]]; reflexivity.
Qed.

Lemma before_send_only_fingerprint_witness :
  (<["fingerprint" := Fingerprint ["billing"]]> {[ "message" := Field "boom" ]}
     : gmap string event_value) !! "message"
  = Some (Field "boom").
Proof.
  destruct (before_send_only_fingerprint {[ "message" := Field "boom" ]}
              (Some (KicksawIntegrationError
                       {| report_in_sentry := true;
                          sentry_fingerprint := Some "billing";
                          report_in_kicksaw_integration_app := false |})))
    as [_ [Hkeeps _]].
  rewrite (Hkeeps _ eq_refl "message"); [reflexivity | discriminate].
Defined.


Lemma append_empty_r (s : string) : (s ++ "")%string = s.
Proof.
  induction s as [| c s IH]; [reflexivity |].
  change (String c s ++ "")%string with (String c (s ++ "")). now rewrite IH.
Qed.

Lemma base_url_of_host scheme host rest :
  PyStr.has_char "/" scheme = false ->
  PyStr.has_char "/" host = false ->
  rest = EmptyString \/ (exists path, rest = String "/" path) ->
  base_url (scheme ++ "//" ++ host ++ rest)
  = Ok (PyStr.join "." (last_two (PyStr.split "." host))).
Proof.
  intros Hscheme Hhost Hrest. unfold base_url.
  change (scheme ++ "//" ++ host ++ rest)%string
    with (scheme ++ String "/" ("" ++ String "/" (host ++ rest)))%string.
  rewrite (PyStr.split_cons "/" scheme _ Hscheme).
  rewrite (PyStr.split_cons "/" "" _ eq_refl).
  destruct Hrest as [-> | [path ->]].
  - rewrite append_empty_r, (PyStr.split_one "/" host Hhost). reflexivity.
  - rewrite (PyStr.split_cons "/" host path Hhost). reflexivity.
Qed.

(** X8.  For an HTTP error whose request URL is a string
    [scheme//host] or [scheme//host/path] with a bare host name between
    the two slashes and the next one (no user name, port, query or
    fragment there: none of [@ : ? #]), [before_send] sets the
    fingerprint to the class name and the last two labels of the host.
    What follows the slash after the host, the path and its query, does
    not enter it, so all errors of one class against one domain share a
    fingerprint. *)
Theorem http_error_fingerprint event class_name scheme host rest :
  PyStr.has_char "/" scheme = false ->
  PyStr.has_char "/" host = false ->
  PyStr.has_char "@" host = false ->
  PyStr.has_char ":" host = false ->
  PyStr.has_char "?" host = false ->
  PyStr.has_char "#" host = false ->
  rest = EmptyString \/ (exists path, rest = String "/" path) ->
  before_send event
    (Some (HTTPError class_name (Request (UrlStr (scheme ++ "//" ++ host ++ rest)))))
  = Ok (Some (<["fingerprint" :=
                Fingerprint
                  [(class_name ++ "-"
                    ++ PyStr.join "." (last_two (PyStr.split "." host)))%string]]>
              event)).
Proof.
  intros Hscheme Hhost _ _ _ _ Hrest. cbn [before_send].
  now rewrite (base_url_of_host scheme host rest Hscheme Hhost Hrest).
Qed.

Lemma http_error_fingerprint_witness :
  before_send ∅
    (Some (HTTPError "ConnectTimeout"
             (Request (UrlStr ("https:" ++ "//" ++ "api.eu.example.com"
                               ++ "/v1/items?page=2")))))
  = Ok (Some {[ "fingerprint" := Fingerprint ["ConnectTimeout-example.com"] ]}).
Proof.
  rewrite (http_error_fingerprint ∅ "ConnectTimeout" "https:" "api.eu.example.com"
             "/v1/items?page=2" eq_refl eq_refl eq_refl eq_refl eq_refl eq_refl).
  - reflexivity.
  - right. now exists "v1/items?page=2".
Defined.


(** *** [configure_sentry] *)

(** The arguments of [sentry_sdk.init]. *)
Record sentry_init := {
  init_dsn : string;
  init_debug : bool;
  init_environment : string;
  init_send_default_pii : bool;
  init_timeout_warning : bool
}.

Section ConfigureSentry.
Variable os_environ : gmap string string.
Variable ENV_FILES : list (option (gmap string (option string))).
Variable HttpUrl : Type.
Variable HttpUrl_new : string -> result ProjectSettings.exception HttpUrl.
Variable get_secret :
  string -> result ProjectSettings.exception (gmap string (option string)).
(** [str(url)] *)
Variable url_text : HttpUrl -> string.

Definition SENTRY_DSN (settings : ProjectSettings.Settings) :=
  ProjectSettings.SENTRY_DSN os_environ ENV_FILES HttpUrl HttpUrl_new get_secret
    settings.

(** [configure_sentry()]: the arguments Sentry is initialised with, if it
    is, and the names of the secrets asked for on the way.  The property
    [settings.SENTRY_DSN] is read for the test and again for the [dsn]
    argument. *)
Definition configure_sentry (settings : ProjectSettings.Settings)
  : result ProjectSettings.exception (option sentry_init) * list string :=
  let environment :=
    ProjectSettings.Environment_str (ProjectSettings.ENVIRONMENT settings) in
  match SENTRY_DSN settings with
  | (Raise e, lookups) => (Raise e, lookups)
  | (Ok None, lookups) => (Ok None, lookups)
  | (Ok (Some _), lookups) =>
      if negb (String.eqb environment "testing") then
        match SENTRY_DSN settings with
        | (Raise e, again) => (Raise e, lookups ++ again)
        | (Ok dsn, again) =>
            (Ok (Some {| init_dsn := match dsn with
                                     | Some url => url_text url
                                     | None => "None"
                                     end;
                         init_debug := false;
                         init_environment := environment;
                         init_send_default_pii :=
                           existsb (String.eqb environment) ["development"; "staging"];
                         init_timeout_warning := true |}),
             lookups ++ again)
        end
      else (Ok None, lookups)
  end.

End ConfigureSentry.

(** X9.  [configure_sentry] initialises Sentry only outside the testing
    environment and only with the DSN the settings resolve to; default
    PII is sent in development and staging and in no other environment.
    In testing, with no DSN in the environment, nothing is initialised
    and no secret is looked up. *)
Theorem configure_sentry_guard os_environ ENV_FILES (HttpUrl : Type) HttpUrl_new
    get_secret (url_text : HttpUrl -> string) settings :
  let configured :=
    configure_sentry os_environ ENV_FILES HttpUrl HttpUrl_new get_secret url_text
      settings in
  let environment := ProjectSettings.ENVIRONMENT settings in
  (forall init,
     fst configured = Ok (Some init) ->
     environment <> ProjectSettings.testing
     /\ (exists url,
           fst (SENTRY_DSN os_environ ENV_FILES HttpUrl HttpUrl_new get_secret settings)
           = Ok (Some url)
           /\ init_dsn init = url_text url)
     /\ init_environment init = ProjectSettings.Environment_str environment
     /\ init_send_default_pii init
        = match environment with
          | ProjectSettings.development | ProjectSettings.staging => true
          | _ => false
          end)
  /\ (environment = ProjectSettings.testing ->
      ProjectSettings.get_env_value os_environ ENV_FILES "SENTRY_DSN" = None ->
      configured = (Ok None, [])).
Proof.
  intros configured environment. subst configured environment.
  unfold configure_sentry. split.
  - intros init.
    destruct (SENTRY_DSN _ _ _ _ _ settings) as [[[url |] | e] lookups] eqn:Hdsn;
      cbn [fst]; try discriminate.
    destruct (String.eqb _ "testing") eqn:Henv; cbn [negb fst]; [discriminate |].
    intros H. injection H as <-. cbn.
    split; [| split; [| split]].
    + intros Htesting. rewrite Htesting in Henv. discriminate.
    + now exists url.
    + reflexivity.
    + destruct (ProjectSettings.ENVIRONMENT settings); reflexivity.
  - intros Htesting Hnone.
    unfold SENTRY_DSN, ProjectSettings.SENTRY_DSN. now rewrite Hnone, Htesting.
Qed.

Definition staging_dsn_environ : gmap string string :=
  {[ "SENTRY_DSN" := "https://key@sentry.example/7" ]}.

Lemma configure_sentry_guard_witness :
  exists init,
    fst (configure_sentry staging_dsn_environ [] string
           ProjectSettings.example_HttpUrl_new ProjectSettings.example_get_secret
           (fun url => url) ProjectSettings.example_settings)
    = Ok (Some init)
    /\ init_send_default_pii init = true
    /\ init_dsn init = "https://key@sentry.example/7".
Proof.
  eexists. split; [reflexivity |].
  destruct (configure_sentry_guard staging_dsn_environ [] string
              ProjectSettings.example_HttpUrl_new ProjectSettings.example_get_secret
              (fun url => url) ProjectSettings.example_settings) as [Hinit _].
  destruct (Hinit _ eq_refl) as [_ [[url [Hurl Hdsn]] [_ Hpii]]].
  split; [exact Hpii |].
  rewrite Hdsn. injection Hurl as <-. reflexivity.
Defined.

End SentryConfig.

(** ** [infrastructure/stacks/main.py]: the queues of the main stack *)

Module MainStack.

Local Open Scope Z_scope.

(** [Queues.__init__]: the [queues] dictionary of the construct. *)
Definition Queues_init (settings : ProjectSettings.Settings)
  : result Sqs.exception (gmap string Sqs.QueueWithDLQ) :=
  rbind
    (Sqs.QueueWithDLQ_init "messages SQS Queue"
       (PyStr.join "-"
          [ProjectSettings.PROJECT_SLUG settings;
           ProjectSettings.AWS_RESOURCE_SUFFIX settings;
           "messages"])
       true 3 false false 900)
    (fun messages => Ok (<["messages" := messages]> ∅)).

Lemma messages_name_not_fifo slug suffix :
  PyStr.endswith (PyStr.join "-" [slug; suffix; "messages"]) ".fifo" = false.
Proof.
  apply PyStr.endswith_last_char; [discriminate |].
  rewrite ProjectSettings.join_three, ProjectSettings.resolved_name_last;
    discriminate.
Qed.

(** X11.  Whatever the settings, the [Queues] construct of the main
    stack is built (the ".fifo" assertion of [QueueWithDLQ] cannot fire):
    a standard queue named [PROJECT_SLUG-AWS_RESOURCE_SUFFIX-messages]
    with a dead-letter queue [...-messages-dlq] attached after 3
    receives.  For validated settings whose [SQS_QUEUE_MESSAGES] was left
    at its placeholder, that queue name is the one the settings resolve
    to. *)
Theorem queues_construct_built settings :
  exists messages dlq,
    Queues_init settings = Ok {[ "messages" := messages ]}
    /\ Sqs.queue_name (Sqs.self_queue messages)
       = (ProjectSettings.PROJECT_SLUG settings ++ "-"
          ++ ProjectSettings.AWS_RESOURCE_SUFFIX settings ++ "-messages")%string
    /\ Sqs.fifo (Sqs.self_queue messages) = None
    /\ Sqs.self_dead_letter_queue messages = Some dlq
    /\ Sqs.queue_name dlq
       = ((ProjectSettings.PROJECT_SLUG settings ++ "-"
           ++ ProjectSettings.AWS_RESOURCE_SUFFIX settings ++ "-messages")
          ++ "-dlq")%string
    /\ Sqs.dead_letter_queue (Sqs.self_queue messages)
       = Some (Sqs.mkDeadLetterQueue 3 dlq)
    /\ forall source sts_account,
         ProjectSettings.new_Settings source sts_account = Ok settings ->
         ProjectSettings.left_at_default source "SQS_QUEUE_MESSAGES" ->
         Sqs.queue_name (Sqs.self_queue messages)
         = ProjectSettings.SQS_QUEUE_MESSAGES settings.
Proof.
  unfold Queues_init.
  rewrite Sqs.QueueWithDLQ_init_built;
    [| apply messages_name_not_fifo | lia | intros _; lia].
  cbn [rbind]. unfold Sqs.built_QueueWithDLQ.
  eexists _, _. split; [reflexivity |].
  cbn [Sqs.self_queue Sqs.self_dead_letter_queue Sqs.queue_name Sqs.fifo
       Sqs.dead_letter_queue Sqs.p_fifo].
  repeat (split; [reflexivity |]).
  intros source sts_account Hvalid Hdefault.
  now rewrite (ProjectSettings.default_messages_queue_name source sts_account
                 settings Hvalid Hdefault).
Qed.

Lemma queues_construct_built_witness :
  exists messages,
    Queues_init ProjectSettings.example_settings = Ok {[ "messages" := messages ]}
    /\ Sqs.queue_name (Sqs.self_queue messages)
       = ProjectSettings.SQS_QUEUE_MESSAGES ProjectSettings.example_settings.
Proof.
  destruct (queues_construct_built ProjectSettings.example_settings)
    as [messages [dlq [Hbuilt [_ [_ [_ [_ [_ Hsame]]]]]]]].
  exists messages. split; [exact Hbuilt |].
  apply (Hsame ProjectSettings.example_source (Ok "123456789012")).
  - reflexivity.
  - left. reflexivity.
Defined.

End MainStack.

(** ** [scripts/create_repos_and_branches.py]: the other commands *)

Module RepoAdmin.

Local Open Scope Z_scope.

(** What a call of the client library may raise: its own
    [GithubException], with the HTTP status, or any other [Exception]. *)
Inductive exn :=
| GithubException (status : Z)
| OtherException (what : string).

(** *** [delete-repo] *)

Module DeleteRepo.

Inductive output :=
| RepositoryNotFound (repo_name org : string)
| DeletionWarning (repo_name org : string)
| DeletionCancelled
| DeletingRepository (repo_name : string)
| DeletionComplete (repo_name org : string)
| ErrorDeletingRepository (e : exn)
| UnexpectedError (e : exn).

Inductive event :=
| Client (ev : ReposAndBranches.event)
| Print (o : output)
| GetOrganization (org : string)
| GetRepo (org repo_name : string)
| Input (prompt : string)
| Delete (org repo_name : string).

(** The calls the command makes, each at most once in a run. *)
Record service := {
  get_organization : string -> result exn unit;
  get_repo : string -> string -> result exn unit;
  repo_delete : string -> string -> result exn unit
}.

(** The two [except] clauses that close the command. *)
Definition handler (e : exn) : output :=
  match e with
  | GithubException _ => ErrorDeletingRepository e
  | OtherException _ => UnexpectedError e
  end.

Definition prompt (repo_name : string) : string :=
  "To confirm deletion, type the repository name '" ++ repo_name ++ "': ".

(** [delete_repo]: the value the function returns and the trace.
    [getpass] and [input] are what the user types when asked.  (Run
    through the command line the returned value is dropped: the process
    ends with status 0 unless an exception leaves the function.) *)
Definition delete_repo (svc : service) (getpass : string)
    (input : string -> result exn string)
    (org : string) (token : option string) (repo_name : string) (confirm : bool)
  : Z * list event :=
  match ReposAndBranches.get_github_client token getpass [] with
  | (None, t) => (1, List.map Client t)
  | (Some _, t) =>
      let t := List.map Client t ++ [GetOrganization org] in
      match get_organization svc org with
      | Raise e => (1, t ++ [Print (handler e)])
      | Ok _ =>
          let t := t ++ [GetRepo org repo_name] in
          match get_repo svc org repo_name with
          | Raise (GithubException _) =>
              (1, t ++ [Print (RepositoryNotFound repo_name org)])
          | Raise e => (1, t ++ [Print (handler e)])
          | Ok _ =>
              let t := t ++ [Print (DeletionWarning repo_name org)] in
              let perform t :=
                let t := t ++ [Print (DeletingRepository repo_name);
                               Delete org repo_name] in
                match repo_delete svc org repo_name with
                | Raise e => (1, t ++ [Print (handler e)])
                | Ok _ => (0, t ++ [Print (DeletionComplete repo_name org)])
                end in
              if confirm then
                let t := t ++ [Input (prompt repo_name)] in
                match input (prompt repo_name) with
                | Raise e => (1, t ++ [Print (handler e)])
                | Ok confirmation =>
                    if String.eqb confirmation repo_name then perform t
                    else (1, t ++ [Print DeletionCancelled])
                end
              else perform t
          end
      end
  end.




Definition example_service : service :=
  {| get_organization := fun _ => Ok tt;
     get_repo := fun _ _ => Ok tt;
     repo_delete := fun _ _ => Ok tt |}.

Example delete_repo_mistyped :
  delete_repo example_service "" (fun _ => Ok "demo ") "Kicksaw-Consulting"
    (Some "ghp_token") "demo" true
  = (1, [GetOrganization "Kicksaw-Consulting"; GetRepo "Kicksaw-Consulting" "demo";
         Print (DeletionWarning "demo" "Kicksaw-Consulting");
         Input "To confirm deletion, type the repository name 'demo': ";
         Print DeletionCancelled]).
Proof. reflexivity. Qed.


End DeleteRepo.


(** *** [list-teams] *)

Module ListTeams.

Record team := {
  name : string;
  slug : string;
  description : option string
}.

Inductive output :=
| TeamListingPanel (org : string)
| NoTeamsFound
| Table (rows : list (string * string * string))
| SlugHint
| ErrorMessage (e : exn)
| UnexpectedError (e : exn).

Inductive event :=
| Client (ev : ReposAndBranches.event)
| Print (o : output)
| GetOrganization (org : string)
| GetTeams (org : string).

Record service := {
  get_organization : string -> result exn unit;
  get_teams : string -> result exn (list team)
}.

Definition handler (e : exn) : output :=
  match e with
  | GithubException _ => ErrorMessage e
  | OtherException _ => UnexpectedError e
  end.

(** [team.description or ""] *)
Definition or_empty (description : option string) : string :=
  match description with
  | Some d => if PyStr.truthy d then d else EmptyString
  | None => EmptyString
  end.

(** The description as the table shows it, for a description written
    in ASCII: [len] and the slice count characters, [String.length] and
    [PyStr.slice_to] bytes, and the two agree on ASCII only. *)
Definition shown (description : option string) : string :=
  let description := or_empty description in
  if (50 <? String.length description)%nat
  then (PyStr.slice_to 47 description ++ "...")%string
  else description.

Definition row (t : team) : string * string * string :=
  (name t, slug t, shown (description t)).

Definition list_teams (svc : service) (getpass : string)
    (org : string) (token : option string) : Z * list event :=
  match ReposAndBranches.get_github_client token getpass [] with
  | (None, t) => (1, List.map Client t)
  | (Some _, t) =>
      let t := List.map Client t ++ [GetOrganization org] in
      match get_organization svc org with
      | Raise e => (1, t ++ [Print (handler e)])
      | Ok _ =>
          let t := t ++ [Print (TeamListingPanel org); GetTeams org] in
          match get_teams svc org with
          | Raise e => (1, t ++ [Print (handler e)])
          | Ok [] => (0, t ++ [Print NoTeamsFound])
          | Ok teams => (0, t ++ [Print (Table (List.map row teams)); Print SlugHint])
          end
      end
  end.




Definition example_service : service :=
  {| get_organization := fun _ => Ok tt;
     get_teams := fun _ =>
       Ok [ {| name := "Engineering"; slug := "engineering";
               description :=
                 Some "Builds and runs every integration that Kicksaw ships to clients" |};
            {| name := "Kicksaw"; slug := "kicksaw"; description := None |} ] |}.

Example list_teams_example :
  list_teams example_service "" "Kicksaw-Consulting" (Some "ghp_token")
  = (0, [GetOrganization "Kicksaw-Consulting";
         Print (TeamListingPanel "Kicksaw-Consulting");
         GetTeams "Kicksaw-Consulting";
         Print (Table [("Engineering", "engineering",
                        "Builds and runs every integration that Kicksaw ...");
                       ("Kicksaw", "kicksaw", "")]);
         Print SlugHint]).
Proof. reflexivity. Qed.


End ListTeams.


(** *** [set_repo_variables] *)

Module RepoVariables.

Inductive output :=
| VariableSet (name : string)
| VariableUpdated (name : string)
| FailedToUpdate (name : string) (e : exn)
| FailedToSet (name : string) (e : exn)
| UnexpectedErrorSetting (name : string) (e : exn).

Inductive event :=
| Print (o : output)
| CreateVariable (name value : string)
| GetVariable (name : string)
| Edit (name value : string).

Section Api.
(** The repository as the service keeps it, of any shape [S], and the
    three calls on it; each returns or raises and leaves a repository. *)
Context {S : Type}.

Record api := {
  create_variable : string -> string -> S -> result exn unit * S;
  get_variable : string -> S -> result exn unit * S;
  edit : string -> string -> S -> result exn unit * S
}.

(** The handler of status 409: look the variable up and edit it.  A
    [GithubException] is caught and printed; any other exception leaves
    the handler, and with it the function: the [except Exception] clause
    beside it guards the [try] body only. *)
Definition update (repo : api) (name value : string) (s : S) (t : list event)
  : result exn unit * S * list event :=
  let t := t ++ [GetVariable name] in
  match get_variable repo name s with
  | (Ok _, s) =>
      let t := t ++ [Edit name value] in
      match edit repo name value s with
      | (Ok _, s) => (Ok tt, s, t ++ [Print (VariableUpdated name)])
      | (Raise (GithubException status), s) =>
          (Ok tt, s, t ++ [Print (FailedToUpdate name (GithubException status))])
      | (Raise e, s) => (Raise e, s, t)
      end
  | (Raise (GithubException status), s) =>
      (Ok tt, s, t ++ [Print (FailedToUpdate name (GithubException status))])
  | (Raise e, s) => (Raise e, s, t)
  end.

(** One round of [for name, value in variables.items()]. *)
Definition set_variable (repo : api) (name value : string) (s : S) (t : list event)
  : result exn unit * S * list event :=
  let t := t ++ [CreateVariable name value] in
  match create_variable repo name value s with
  | (Ok _, s) => (Ok tt, s, t ++ [Print (VariableSet name)])
  | (Raise (GithubException status), s) =>
      if status =? 409 then update repo name value s t
      else (Ok tt, s, t ++ [Print (FailedToSet name (GithubException status))])
  | (Raise e, s) => (Ok tt, s, t ++ [Print (UnexpectedErrorSetting name e)])
  end.

(** [set_repo_variables]: the dictionary as the list of its items, in
    order. *)
Fixpoint set_repo_variables (repo : api) (variables : list (string * string))
    (s : S) (t : list event) : result exn unit * S * list event :=
  match variables with
  | [] => (Ok tt, s, t)
  | (name, value) :: rest =>
      match set_variable repo name value s t with
      | (Ok _, s, t) => set_repo_variables repo rest s t
      | (Raise e, s, t) => (Raise e, s, t)
      end
  end.

End Api.

(** The service as a store of variables by name: a variable is created
    once, and found and edited when it is there. *)
Definition store_create (name value : string) (s : gmap string string)
  : result exn unit * gmap string string :=
  match s !! name with
  | Some _ => (Raise (GithubException 409), s)
  | None => (Ok tt, <[name := value]> s)
  end.

Definition store_get (name : string) (s : gmap string string)
  : result exn unit * gmap string string :=
  match s !! name with
  | Some _ => (Ok tt, s)
  | None => (Raise (GithubException 404), s)
  end.

Definition store_edit (name value : string) (s : gmap string string)
  : result exn unit * gmap string string :=
  match s !! name with
  | Some _ => (Ok tt, <[name := value]> s)
  | None => (Raise (GithubException 404), s)
  end.

Definition store : api :=
  {| create_variable := store_create;
     get_variable := store_get;
     edit := store_edit |}.






Example set_repo_variables_example :
  set_repo_variables store [("AWS_REGION", "us-west-2"); ("AWS_ACCOUNT_ID", "42")]
    {[ "AWS_REGION" := "eu-west-1" ]} []
  = (Ok tt, {[ "AWS_REGION" := "us-west-2"; "AWS_ACCOUNT_ID" := "42" ]},
     [CreateVariable "AWS_REGION" "us-west-2"; GetVariable "AWS_REGION";
      Edit "AWS_REGION" "us-west-2"; Print (VariableUpdated "AWS_REGION");
      CreateVariable "AWS_ACCOUNT_ID" "42"; Print (VariableSet "AWS_ACCOUNT_ID")]).
Proof. vm_compute. reflexivity. Qed.

Section Any.
Context {S : Type}.
Variable repo : @api S.

(** The variables a trace asks the service to create, in order. *)
Fixpoint created (t : list event) : list (string * string) :=
  match t with
  | [] => []
  | CreateVariable name value :: t => (name, value) :: created t
  | _ :: t => created t
  end.

Lemma created_app t u : created (t ++ u) = created t ++ created u.
Proof.
  induction t as [| ev t IH]; [reflexivity |].
  destruct ev; cbn [created app]; now rewrite IH.
Qed.

Lemma set_variable_shape name value s t :
  exists r s' added,
    set_variable repo name value s t = (r, s', t ++ added)
    /\ created added = [(name, value)]
    /\ (forall status, r <> Raise (GithubException status)).
Proof.
  unfold set_variable, update.
  destruct (create_variable repo name value s) as [[[] | [status | what]] s1].
  - eexists _, _, _. rewrite <- app_assoc. split; [reflexivity |].
    split; [reflexivity | discriminate].
  - destruct (status =? 409).
    + destruct (get_variable repo name s1) as [[[] | [status' | what]] s2].
      * destruct (edit repo name value s2) as [[[] | [status' | what]] s3];
          eexists _, _, _; rewrite <- ?app_assoc;
          (split; [reflexivity |]); split; try reflexivity; discriminate.
      * eexists _, _, _. rewrite <- !app_assoc.
        split; [reflexivity |]. split; [reflexivity | discriminate].
      * eexists _, _, _. rewrite <- !app_assoc.
        split; [reflexivity |]. split; [reflexivity | discriminate].
    + eexists _, _, _. rewrite <- !app_assoc.
      split; [reflexivity |]. split; [reflexivity | discriminate].
  - eexists _, _, _. rewrite <- !app_assoc.
    split; [reflexivity |]. split; [reflexivity | discriminate].
Qed.

Lemma set_repo_variables_shape variables :
  forall s t,
    exists r s' added attempted rest,
      set_repo_variables repo variables s t = (r, s', t ++ added)
      /\ variables = attempted ++ rest
      /\ created added = attempted
      /\ (r = Ok tt -> rest = [])
      /\ (forall status, r <> Raise (GithubException status)).
Proof.
  induction variables as [| [name value] rest IH]; intros s t.
  - exists (Ok tt), s, [], [], []. rewrite app_nil_r. repeat split. discriminate.
  - cbn [set_repo_variables].
    destruct (set_variable_shape name value s t) as [r [s1 [added [-> [Hc Hr]]]]].
    destruct r as [[] | e].
    + destruct (IH s1 (t ++ added))
        as [r [s2 [added' [attempted [rest' [-> [-> [Hc' [Hdone Hr']]]]]]]]].
      exists r, s2, (added ++ added'), ((name, value) :: attempted), rest'.
      rewrite <- app_assoc, created_app, Hc, Hc'. repeat split; auto.
    + exists (Raise e), s1, added, [(name, value)], rest.
      repeat split; auto. discriminate.
Qed.

End Any.

(** X21.  Whatever the service answers, [set_repo_variables] lets no
    [GithubException] out, and it asks for the creation of the variables
    one by one in the order of the dictionary, each once: all of them when
    it returns, and those up to the one at which another exception left
    it otherwise. *)
Theorem set_repo_variables_contains {S : Type} (repo : @api S) variables s :
  let run := set_repo_variables repo variables s [] in
  (forall status, fst (fst run) <> Raise (GithubException status))
  /\ exists attempted rest,
       variables = attempted ++ rest
       /\ created (snd run) = attempted
       /\ (fst (fst run) = Ok tt -> rest = []).
Proof.
  cbv zeta.
  destruct (set_repo_variables_shape repo variables s [])
    as [r [s' [added [attempted [rest [-> [-> [Hc [Hdone Hr]]]]]]]]].
  cbn [fst snd app]. split; [exact Hr |]. now exists attempted, rest.
Qed.

(** An exception of another kind raised while an existing variable is
    looked up leaves the function, and the next variable is not set. *)
Definition example_broken : @api unit :=
  {| create_variable := fun _ _ s => (Raise (GithubException 409), s);
     get_variable := fun _ s => (Raise (OtherException "connection reset"), s);
     edit := fun _ _ s => (Ok tt, s) |}.

Example set_repo_variables_escape :
  set_repo_variables example_broken
    [("AWS_REGION", "us-west-2"); ("AWS_ACCOUNT_ID", "42")] tt []
  = (Raise (OtherException "connection reset"), tt,
     [CreateVariable "AWS_REGION" "us-west-2"; GetVariable "AWS_REGION"]).
Proof. reflexivity. Qed.



Lemma set_repo_variables_contains_witness :
  exists attempted rest,
    [("AWS_REGION", "us-west-2"); ("AWS_ACCOUNT_ID", "42")] = attempted ++ rest
    /\ created (snd (set_repo_variables example_broken
                       [("AWS_REGION", "us-west-2"); ("AWS_ACCOUNT_ID", "42")] tt []))
       = attempted
    /\ (fst (fst (set_repo_variables example_broken
                    [("AWS_REGION", "us-west-2"); ("AWS_ACCOUNT_ID", "42")] tt []))
        = Ok tt -> rest = []).
Proof.
  exact (proj2 (set_repo_variables_contains example_broken
                  [("AWS_REGION", "us-west-2"); ("AWS_ACCOUNT_ID", "42")] tt)).
Defined.

End RepoVariables.


(** *** [setup_branch_protection] *)

Module BranchProtection.

(** An entry of the configuration.  The three keys the function reads
    with [[...]] are fields; the two it reads with [.get] may be absent.
    An entry that lacks one of the three raises [KeyError] before the
    [try] of its round; such entries are not part of the model. *)
Record branch_config := {
  name : string;
  require_pr : bool;
  allow_bypass : bool;
  require_code_owner_reviews : option bool;
  teams_bypass_pull_request_allowances : option (list string)
}.

Definition default_branches_config : list branch_config :=
  [ {| name := "main"; require_pr := true; allow_bypass := false;
       require_code_owner_reviews := Some true;
       teams_bypass_pull_request_allowances := Some ["engineering"] |};
    {| name := "staging"; require_pr := true; allow_bypass := false;
       require_code_owner_reviews := Some true;
       teams_bypass_pull_request_allowances := Some ["engineering"] |};
    {| name := "secure"; require_pr := true; allow_bypass := false;
       require_code_owner_reviews := Some true;
       teams_bypass_pull_request_allowances := Some ["engineering"] |};
    {| name := "development"; require_pr := true; allow_bypass := true;
       require_code_owner_reviews := Some true;
       teams_bypass_pull_request_allowances := Some ["engineering"] |} ].

(** The keyword arguments of [branch.edit_protection]. *)
Record protection := {
  enforce_admins : bool;
  required_linear_history : bool;
  allow_force_pushes : bool;
  allow_deletions : bool;
  code_owner_reviews : bool;
  teams_bypass : list string
}.

Inductive output :=
| BranchProtectionPanel
| BranchNotFound (branch_name : string)
| SettingUpProtection (branch_name : string)
| PullRequestRequired (branch_name : string)
| RequiresCodeOwnerReviews (branch_name : string)
| AllowsBypassForTeams (branch_name teams : string)
| AdminsMayBypass (branch_name : string)
| EnforcedForAll (branch_name : string)
| ErrorSettingUpProtection (branch_name : string) (e : exn).

Inductive event :=
| Print (o : output)
| GetBranch (branch_name : string)
| EditProtection (branch_name : string) (p : protection)
| EditRequiredPullRequestReviews (branch_name : string)
    (dismiss_stale_reviews code_owner_reviews : bool).

Section Api.
Context {S : Type}.

Record api := {
  get_branch : string -> S -> result exn unit * S;
  edit_protection : string -> protection -> S -> result exn unit * S;
  edit_required_pull_request_reviews :
    string -> bool -> bool -> S -> result exn unit * S
}.

Definition code_owner (branch_config : branch_config) : bool :=
  default false (require_code_owner_reviews branch_config).

Definition bypass_teams (branch_config : branch_config) : list string :=
  default [] (teams_bypass_pull_request_allowances branch_config).

Definition protection_of (branch_config : branch_config) : protection :=
  {| enforce_admins := negb (allow_bypass branch_config);
     required_linear_history := true;
     allow_force_pushes := false;
     allow_deletions := false;
     code_owner_reviews := code_owner branch_config;
     teams_bypass := bypass_teams branch_config |}.

(** What is printed for a branch once its protection is in place. *)
Definition summary (branch_config : branch_config) : list event :=
  let branch_name := name branch_config in
  (if require_pr branch_config then
     [Print (PullRequestRequired branch_name)]
     ++ (if code_owner branch_config
         then [Print (RequiresCodeOwnerReviews branch_name)] else [])
     ++ (match bypass_teams branch_config with
         | [] => []
         | teams => [Print (AllowsBypassForTeams branch_name (PyStr.join ", " teams))]
         end)
   else [])
  ++ [Print (if allow_bypass branch_config then AdminsMayBypass branch_name
             else EnforcedForAll branch_name)].

(** One round of the loop: every exception is caught and printed. *)
Definition protect_branch (repo : api) (branch_config : branch_config)
    (s : S) (t : list event) : S * list event :=
  let branch_name := name branch_config in
  let t := t ++ [GetBranch branch_name] in
  match get_branch repo branch_name s with
  | (Raise _, s) => (s, t ++ [Print (BranchNotFound branch_name)])
  | (Ok _, s) =>
      let t := t ++ [Print (SettingUpProtection branch_name); GetBranch branch_name] in
      match get_branch repo branch_name s with
      | (Raise e, s) => (s, t ++ [Print (ErrorSettingUpProtection branch_name e)])
      | (Ok _, s) =>
          let t := t ++ [EditProtection branch_name (protection_of branch_config)] in
          match edit_protection repo branch_name (protection_of branch_config) s with
          | (Raise e, s) => (s, t ++ [Print (ErrorSettingUpProtection branch_name e)])
          | (Ok _, s) =>
              if require_pr branch_config then
                let t := t ++ [EditRequiredPullRequestReviews branch_name true
                                 (code_owner branch_config)] in
                match edit_required_pull_request_reviews repo branch_name true
                        (code_owner branch_config) s with
                | (Raise e, s) =>
                    (s, t ++ [Print (ErrorSettingUpProtection branch_name e)])
                | (Ok _, s) => (s, t ++ summary branch_config)
                end
              else (s, t ++ summary branch_config)
          end
      end
  end.

Fixpoint protect_branches (repo : api) (branches_config : list branch_config)
    (s : S) (t : list event) : S * list event :=
  match branches_config with
  | [] => (s, t)
  | branch_config :: rest =>
      let '(s, t) := protect_branch repo branch_config s t in
      protect_branches repo rest s t
  end.

(** [setup_branch_protection(repo, branches_config)] *)
Definition setup_branch_protection (repo : api)
    (branches_config : option (list branch_config)) (s : S)
  : bool * S * list event :=
  let branches_config := default default_branches_config branches_config in
  let '(s, t) := protect_branches repo branches_config s [Print BranchProtectionPanel] in
  (true, s, t).

(** The calls that change the repository, each for an entry of the
    configuration and with the arguments that entry gives. *)
Definition sanctioned (branches_config : list branch_config) (ev : event) : Prop :=
  match ev with
  | EditProtection branch_name p =>
      exists branch_config,
        In branch_config branches_config
        /\ branch_name = name branch_config
        /\ p = protection_of branch_config
  | EditRequiredPullRequestReviews branch_name dismiss reviews =>
      exists branch_config,
        In branch_config branches_config
        /\ branch_name = name branch_config
        /\ require_pr branch_config = true
        /\ dismiss = true
        /\ reviews = code_owner branch_config
  | _ => True
  end.





End Api.


(** A service on which every branch exists and every call succeeds. *)
Definition example_repo : @api unit :=
  {| get_branch := fun _ s => (Ok tt, s);
     edit_protection := fun _ _ s => (Ok tt, s);
     edit_required_pull_request_reviews := fun _ _ _ s => (Ok tt, s) |}.

Example setup_branch_protection_development :
  setup_branch_protection example_repo
    (Some [ {| name := "development"; require_pr := true; allow_bypass := true;
               require_code_owner_reviews := None;
               teams_bypass_pull_request_allowances := Some ["engineering"; "ops"] |} ])
    tt
  = (true, tt,
     [Print BranchProtectionPanel; GetBranch "development";
      Print (SettingUpProtection "development"); GetBranch "development";
      EditProtection "development"
        {| enforce_admins := false; required_linear_history := true;
           allow_force_pushes := false; allow_deletions := false;
           code_owner_reviews := false; teams_bypass := ["engineering"; "ops"] |};
      EditRequiredPullRequestReviews "development" true false;
      Print (PullRequestRequired "development");
      Print (AllowsBypassForTeams "development" "engineering, ops");
      Print (AdminsMayBypass "development")]).
Proof. reflexivity. Qed.


End BranchProtection.


(** *** [setup_repository_access] *)

Module RepositoryAccess.

(** An entry of the access configuration: [{"name", "type",
    "permission"}].  The three keys are read before the [try] of the
    round, so an entry that lacks one raises [KeyError] out of the
    function; such entries are not part of the model. *)
Record access_entry := {
  name : string;
  type : string;
  permission : string
}.

Definition DEFAULT_ACCESS_CONFIG : list access_entry :=
  [ {| name := "engineering"; type := "team"; permission := "maintain" |};
    {| name := "gigic31"; type := "user"; permission := "admin" |};
    {| name := "kicksaw"; type := "team"; permission := "read" |};
    {| name := "tsabat"; type := "user"; permission := "admin" |} ].

Inductive output :=
| RepositoryAccessPanel
| FoundTeams (count : nat) (login : string)
| CouldNotFetchTeams (e : exn)
| GrantedTeam (permission login name : string)
| FailedTeam (login name : string) (e : exn)
| TeamNotFound (name login available_teams : string)
| GrantedUser (permission name : string)
| UserNotFound (name : string)
| FailedUser (name : string) (e : exn)
| UnknownEntryType (entry_type name : string)
| ErrorSettingUpAccess (entry_type name : string) (e : exn).

Inductive event :=
| Print (o : output)
| GetTeams
| UpdateTeamRepository (team_slug permission : string)
| GetUser (name : string)
| AddToCollaborators (name permission : string).

Section Api.
Context {S : Type}.

(** The organization and the repository: the slugs of the teams, and the
    calls that grant access. *)
Record api := {
  login : string;
  get_teams : S -> result exn (list string) * S;
  update_team_repository : string -> string -> S -> result exn unit * S;
  get_user : string -> S -> result exn unit * S;
  add_to_collaborators : string -> string -> S -> result exn unit * S
}.

(** The keys of [{team.slug: team for team in ...}], in order. *)
Fixpoint keys (slugs : list string) : list string :=
  match slugs with
  | [] => []
  | slug :: rest =>
      slug :: List.filter (fun other => negb (String.eqb other slug)) (keys rest)
  end.

Definition has_key (slugs : list string) (slug : string) : bool :=
  existsb (String.eqb slug) slugs.

Definition available_teams (all_teams : list string) : string :=
  match keys all_teams with
  | [] => "none found"
  | slugs => PyStr.join ", " slugs
  end.

(** One round of [for entry in access_config]: every exception is caught
    and printed.  The slug is [name.lower()], here for a name written in
    ASCII ([PyStr.lower] leaves every other letter as it is). *)
Definition grant (org : api) (all_teams : list string) (entry : access_entry)
    (s : S) (t : list event) : S * list event :=
  let name := name entry in
  let entry_type := type entry in
  let permission := permission entry in
  let failed e := Print (ErrorSettingUpAccess entry_type name e) in
  if String.eqb entry_type "team" then
    let team_slug := PyStr.lower name in
    if has_key all_teams team_slug then
      let t := t ++ [UpdateTeamRepository team_slug permission] in
      match update_team_repository org team_slug permission s with
      | (Ok _, s) => (s, t ++ [Print (GrantedTeam permission (login org) name)])
      | (Raise (GithubException status), s) =>
          (s, t ++ [Print (FailedTeam (login org) name (GithubException status))])
      | (Raise e, s) => (s, t ++ [failed e])
      end
    else
      (s, t ++ [Print (TeamNotFound name (login org) (available_teams all_teams))])
  else if String.eqb entry_type "user" then
    let t := t ++ [GetUser name] in
    match get_user org name s with
    | (Ok _, s) =>
        let t := t ++ [AddToCollaborators name permission] in
        match add_to_collaborators org name permission s with
        | (Ok _, s) => (s, t ++ [Print (GrantedUser permission name)])
        | (Raise (GithubException status), s) =>
            (s, t ++ [Print (if status =? 404 then UserNotFound name
                             else FailedUser name (GithubException status))])
        | (Raise e, s) => (s, t ++ [failed e])
        end
    | (Raise (GithubException status), s) =>
        (s, t ++ [Print (if status =? 404 then UserNotFound name
                         else FailedUser name (GithubException status))])
    | (Raise e, s) => (s, t ++ [failed e])
    end
  else (s, t ++ [Print (UnknownEntryType entry_type name)]).

Fixpoint grant_all (org : api) (all_teams : list string)
    (access_config : list access_entry) (s : S) (t : list event) : S * list event :=
  match access_config with
  | [] => (s, t)
  | entry :: rest =>
      let '(s, t) := grant org all_teams entry s t in
      grant_all org all_teams rest s t
  end.

(** [setup_repository_access(repo, organization, access_config)].  The
    listing of the teams is guarded against [GithubException] only. *)
Definition setup_repository_access (org : api)
    (access_config : option (list access_entry)) (s : S)
  : result exn bool * S * list event :=
  let access_config := default DEFAULT_ACCESS_CONFIG access_config in
  let t := [Print RepositoryAccessPanel; GetTeams] in
  let proceed all_teams s t :=
    let '(s, t) := grant_all org all_teams access_config s t in
    (Ok true, s, t) in
  match get_teams org s with
  | (Ok slugs, s) =>
      proceed slugs s (t ++ [Print (FoundTeams (List.length (keys slugs)) (login org))])
  | (Raise (GithubException status), s) =>
      proceed [] s (t ++ [Print (CouldNotFetchTeams (GithubException status))])
  | (Raise e, s) => (Raise e, s, t)
  end.

(** The grants the configuration asks for, given the teams found. *)
Definition sanctioned (all_teams : list string) (access_config : list access_entry)
    (ev : event) : Prop :=
  match ev with
  | UpdateTeamRepository team_slug perm =>
      In team_slug all_teams
      /\ exists entry,
           In entry access_config
           /\ type entry = "team"
           /\ team_slug = PyStr.lower (name entry)
           /\ perm = permission entry
  | AddToCollaborators user perm =>
      exists entry,
        In entry access_config
        /\ type entry = "user"
        /\ user = name entry
        /\ perm = permission entry
  | _ => True
  end.





End Api.


(** An organization with two teams, on which every call succeeds. *)
Definition example_org : @api unit :=
  {| login := "Kicksaw-Consulting";
     get_teams := fun s => (Ok ["engineering"; "sales"], s);
     update_team_repository := fun _ _ s => (Ok tt, s);
     get_user := fun _ s => (Ok tt, s);
     add_to_collaborators := fun _ _ s => (Ok tt, s) |}.

Example setup_repository_access_example :
  setup_repository_access example_org
    (Some [ {| name := "Engineering"; type := "team"; permission := "maintain" |};
            {| name := "kicksaw"; type := "team"; permission := "read" |};
            {| name := "tsabat"; type := "owner"; permission := "admin" |} ]) tt
  = (Ok true, tt,
     [Print RepositoryAccessPanel; GetTeams;
      Print (FoundTeams 2 "Kicksaw-Consulting");
      UpdateTeamRepository "engineering" "maintain";
      Print (GrantedTeam "maintain" "Kicksaw-Consulting" "Engineering");
      Print (TeamNotFound "kicksaw" "Kicksaw-Consulting" "engineering, sales");
      Print (UnknownEntryType "owner" "tsabat")]).
Proof. reflexivity. Qed.


End RepositoryAccess.

End RepoAdmin.

(** ** [integration/config/xray_config.py]: the patched
    [AsyncInstrumentedTransport.handle_async_request] *)

Module XrayConfig.

(** What a call may raise: the SDK's [AlreadyEndedException], another
    [Exception], or a [BaseException] that is no [Exception]
    ([asyncio.CancelledError]). *)
Inductive exn :=
| AlreadyEndedException
| Exc (what : string)
| BaseExc (what : string).

Definition is_Exception (e : exn) : bool :=
  match e with
  | BaseExc _ => false
  | _ => true
  end.

Inductive event :=
| Enter
| PutHttpMeta (key : string)
| InjectTraceHeader
| Send
| Exit.

Section Transport.
Variable Response : Type.

(** What each call of one request answers; every call is made at most
    once.  [aenter] is the subsegment, or [None]. *)
Record calls := {
  aenter : option unit;
  put_method : result exn unit;
  put_url : result exn unit;
  inject_trace_header : result exn unit;
  wrapped_handle_async_request : result exn Response;
  put_status : Response -> result exn unit;
  aexit : result exn unit
}.

(** [except Exception as exc]: leave the subsegment, an
    [AlreadyEndedException] of that ignored, and raise [exc] again. *)
Definition on_exception (c : calls) (exc : exn) (t : list event)
  : result exn Response * list event :=
  if is_Exception exc then
    match aexit c with
    | Ok _ | Raise AlreadyEndedException => (Raise exc, t ++ [Exit])
    | Raise raised => (Raise raised, t ++ [Exit])
    end
  else (Raise exc, t).

(** From the call of the wrapped transport on. *)
Definition send (c : calls) (t : list event) : result exn Response * list event :=
  let t := t ++ [Send] in
  match wrapped_handle_async_request c with
  | Raise exc => on_exception c exc t
  | Ok response =>
      match aenter c with
      | None => (Ok response, t)
      | Some _ =>
          let t := t ++ [PutHttpMeta "status"] in
          match put_status c response with
          | Ok _ | Raise AlreadyEndedException => (Ok response, t)
          | Raise exc => on_exception c exc t
          end
      end
  end.

(** A call of the first inner [try]: an [AlreadyEndedException] skips
    the rest of that [try], another exception goes to the outer
    handler. *)
Definition annotate (c : calls) (r : result exn unit) (ev : event)
    (next : list event -> result exn Response * list event) (t : list event)
  : result exn Response * list event :=
  let t := t ++ [ev] in
  match r with
  | Ok _ => next t
  | Raise AlreadyEndedException => send c t
  | Raise exc => on_exception c exc t
  end.

Definition handle_async_request (c : calls) : result exn Response * list event :=
  match aenter c with
  | None => send c [Enter]
  | Some _ =>
      annotate c (put_method c) (PutHttpMeta "method")
        (annotate c (put_url c) (PutHttpMeta "url")
           (annotate c (inject_trace_header c) InjectTraceHeader (send c)))
        [Enter]
  end.

Definition count (ev : event) (t : list event) : nat :=
  List.length (List.filter
                 (fun other =>
                    match ev, other with
                    | Send, Send | Exit, Exit => true
                    | _, _ => false
                    end) t).

(** A call of the first [try] that does not stop the request. *)
Definition harmless (r : result exn unit) : Prop :=
  r = Ok tt \/ r = Raise AlreadyEndedException.

End Transport.

Arguments aenter {Response} _.
Arguments put_method {Response} _.
Arguments put_url {Response} _.
Arguments inject_trace_header {Response} _.
Arguments wrapped_handle_async_request {Response} _.
Arguments put_status {Response} _ _.
Arguments aexit {Response} _.
Arguments handle_async_request {Response} c.

Ltac run_calls :=
  repeat match goal with
         | |- context [match ?x with _ => _ end] =>
             lazymatch x with
             | context [match _ with _ => _ end] => fail
             | _ => destruct x eqn:?
             end
         end.

(** X26.  The patched transport sends a request at most once and leaves
    the subsegment at most once.  It returns only the response of the
    wrapped transport, and then without leaving the subsegment: the
    subsegment is left only when the call raises.  An
    [AlreadyEndedException] never stops a request: when the calls that
    annotate the subsegment return or raise it, the request is sent, and
    the result is that of the wrapped transport whenever that returns and
    the status annotation is harmless too.  When the wrapped transport
    raises an [Exception], the subsegment is left and that exception is
    raised again, also if leaving raised [AlreadyEndedException]. *)
Theorem handle_async_request_outcome {Response : Type} (c : calls Response) :
  let run := handle_async_request c in
  (count Send (snd run) <= 1)%nat
  /\ (count Exit (snd run) <= 1)%nat
  /\ (forall response,
        fst run = Ok response ->
        wrapped_handle_async_request c = Ok response
        /\ count Send (snd run) = 1%nat
        /\ count Exit (snd run) = 0%nat)
  /\ (harmless (put_method c) -> harmless (put_url c) ->
      harmless (inject_trace_header c) ->
      count Send (snd run) = 1%nat
      /\ (forall response,
            wrapped_handle_async_request c = Ok response ->
            harmless (put_status c response) ->
            fst run = Ok response)
      /\ (forall exc,
            wrapped_handle_async_request c = Raise exc ->
            is_Exception exc = true ->
            aexit c = Ok tt \/ aexit c = Raise AlreadyEndedException ->
            fst run = Raise exc /\ count Exit (snd run) = 1%nat)).
Proof.
  cbv zeta. unfold handle_async_request, annotate, send, on_exception.
  split; [| split; [| split]].
  - run_calls; cbn; lia.
  - run_calls; cbn; lia.
  - intros response. run_calls; cbn; intros H; try discriminate H;
      injection H as <-; repeat split; reflexivity.
  - intros [Hm | Hm] [Hu | Hu] [Hi | Hi]; rewrite ?Hm, ?Hu, ?Hi;
      (split; [run_calls; reflexivity | split]).
    all: try (intros response Hsend [Hs | Hs]; rewrite Hsend, ?Hs;
              run_calls; try reflexivity; congruence).
    all: intros exc Hsend Hexc [Hx | Hx]; rewrite Hsend, Hexc, Hx;
      run_calls; split; reflexivity.
Qed.

Definition example_calls : calls nat :=
  {| aenter := Some tt;
     put_method := Raise AlreadyEndedException;
     put_url := Ok tt;
     inject_trace_header := Ok tt;
     wrapped_handle_async_request := Ok 200%nat;
     put_status := fun _ => Raise AlreadyEndedException;
     aexit := Ok tt |}.

Example handle_async_request_example :
  handle_async_request example_calls
  = (Ok 200%nat, [Enter; PutHttpMeta "method"; Send; PutHttpMeta "status"]).
Proof. reflexivity. Qed.

Lemma handle_async_request_outcome_witness :
  fst (handle_async_request example_calls) = Ok 200%nat.
Proof.
  apply (proj1 (proj2 (proj2 (proj2 (proj2 (handle_async_request_outcome example_calls)))
                         ltac:(right; reflexivity) ltac:(left; reflexivity)
                         ltac:(left; reflexivity)))).
  - reflexivity.
  - right. reflexivity.
Defined.

End XrayConfig.

(** ** [integration/utils/aws.py]: [Boto3Clients] *)

Module Aws.

Inductive service := s3 | sqs | dynamodb | cloudwatch.

Definition service_eqb (a b : service) : bool :=
  match a, b with
  | s3, s3 | sqs, sqs | dynamodb, dynamodb | cloudwatch, cloudwatch => true
  | _, _ => false
  end.

(** [botocore.config.Config] as the class builds it. *)
Record Config := {
  region_name : string;
  max_attempts : nat;
  mode : string
}.

(** A client is the object a call of [boto3.client] returned: the
    service, the configuration, and which call it was. *)
Record client := {
  client_service : service;
  client_config : Config;
  call : nat
}.

Record Boto3Clients := {
  _s3_client : option client;
  _sqs_client : option client;
  _dynamodb_client : option client;
  _cloudwatch_client : option client;
  config : Config
}.

(** The calls of [boto3.client] so far. *)
Definition world : Type := list client.

Definition boto3_client (sv : service) (cfg : Config) (w : world) : client * world :=
  let made := {| client_service := sv; client_config := cfg; call := List.length w |} in
  (made, w ++ [made]).

Definition new_Boto3Clients (settings : ProjectSettings.Settings) : Boto3Clients :=
  {| _s3_client := None; _sqs_client := None; _dynamodb_client := None;
     _cloudwatch_client := None;
     config := {| region_name := ProjectSettings.AWS_REGION settings;
                  max_attempts := 10; mode := "standard" |} |}.

Definition reset (self : Boto3Clients) : Boto3Clients :=
  {| _s3_client := None; _sqs_client := None; _dynamodb_client := None;
     _cloudwatch_client := None; config := config self |}.

(** The four properties: the client is made on first use and kept. *)
Definition s3_client (self : Boto3Clients) (w : world)
  : client * Boto3Clients * world :=
  match _s3_client self with
  | Some c => (c, self, w)
  | None =>
      let '(c, w) := boto3_client s3 (config self) w in
      (c, {| _s3_client := Some c; _sqs_client := _sqs_client self;
             _dynamodb_client := _dynamodb_client self;
             _cloudwatch_client := _cloudwatch_client self;
             config := config self |}, w)
  end.

Definition sqs_client (self : Boto3Clients) (w : world)
  : client * Boto3Clients * world :=
  match _sqs_client self with
  | Some c => (c, self, w)
  | None =>
      let '(c, w) := boto3_client sqs (config self) w in
      (c, {| _s3_client := _s3_client self; _sqs_client := Some c;
             _dynamodb_client := _dynamodb_client self;
             _cloudwatch_client := _cloudwatch_client self;
             config := config self |}, w)
  end.

Definition dynamodb_client (self : Boto3Clients) (w : world)
  : client * Boto3Clients * world :=
  match _dynamodb_client self with
  | Some c => (c, self, w)
  | None =>
      let '(c, w) := boto3_client dynamodb (config self) w in
      (c, {| _s3_client := _s3_client self; _sqs_client := _sqs_client self;
             _dynamodb_client := Some c;
             _cloudwatch_client := _cloudwatch_client self;
             config := config self |}, w)
  end.

Definition cloudwatch_client (self : Boto3Clients) (w : world)
  : client * Boto3Clients * world :=
  match _cloudwatch_client self with
  | Some c => (c, self, w)
  | None =>
      let '(c, w) := boto3_client cloudwatch (config self) w in
      (c, {| _s3_client := _s3_client self; _sqs_client := _sqs_client self;
             _dynamodb_client := _dynamodb_client self;
             _cloudwatch_client := Some c;
             config := config self |}, w)
  end.

(** A use of the object: a property is read, or [reset] is called. *)
Inductive use :=
| Get (sv : service)
| Reset.

Definition get (sv : service) : Boto3Clients -> world -> client * Boto3Clients * world :=
  match sv with
  | s3 => s3_client
  | sqs => sqs_client
  | dynamodb => dynamodb_client
  | cloudwatch => cloudwatch_client
  end.

(** A sequence of uses: the clients the reads returned, in order, the
    object and the world afterwards. *)
Fixpoint run (uses : list use) (self : Boto3Clients) (w : world)
  : list client * Boto3Clients * world :=
  match uses with
  | [] => ([], self, w)
  | Reset :: rest => run rest (reset self) w
  | Get sv :: rest =>
      let '(c, self, w) := get sv self w in
      let '(cs, self, w) := run rest self w in
      (c :: cs, self, w)
  end.

Definition slot (sv : service) (self : Boto3Clients) : option client :=
  match sv with
  | s3 => _s3_client self
  | sqs => _sqs_client self
  | dynamodb => _dynamodb_client self
  | cloudwatch => _cloudwatch_client self
  end.

Definition made_for (sv : service) (w : world) : nat :=
  List.length (List.filter (fun c => service_eqb (client_service c) sv) w).

Definition resets (uses : list use) : nat :=
  List.length (List.filter (fun u => match u with Reset => true | _ => false end) uses).

(** One read: the slot decides. *)
Lemma get_spec sv self w :
  get sv self w
  = match slot sv self with
    | Some c => (c, self, w)
    | None =>
        let made := {| client_service := sv; client_config := config self;
                       call := List.length w |} in
        (made, snd (fst (get sv self w)), w ++ [made])
    end.
Proof.
  destruct sv; cbn [get slot];
    unfold s3_client, sqs_client, dynamodb_client, cloudwatch_client;
    match goal with |- context [match ?x with _ => _ end] => destruct x end;
    reflexivity.
Qed.

Lemma get_slot sv self w other :
  slot other (snd (fst (get sv self w)))
  = if service_eqb other sv
    then Some (fst (fst (get sv self w)))
    else slot other self.
Proof.
  destruct sv, other; cbn [get slot service_eqb];
    unfold s3_client, sqs_client, dynamodb_client, cloudwatch_client;
    match goal with |- context [match ?x with _ => _ end] => destruct x eqn:E end;
    cbn; congruence.
Qed.

Lemma get_config sv self w : config (snd (fst (get sv self w))) = config self.
Proof.
  destruct sv; cbn [get];
    unfold s3_client, sqs_client, dynamodb_client, cloudwatch_client;
    match goal with |- context [match ?x with _ => _ end] => destruct x end;
    reflexivity.
Qed.

Lemma made_for_app sv w w' : made_for sv (w ++ w') = (made_for sv w + made_for sv w')%nat.
Proof. unfold made_for. now rewrite List.filter_app, List.length_app. Qed.

Lemma made_for_one sv c :
  made_for sv [c] = if service_eqb (client_service c) sv then 1%nat else 0%nat.
Proof. unfold made_for. cbn. now destruct (service_eqb (client_service c) sv). Qed.

(** The number of clients made for a service during a sequence of uses
    is at most the number of resets, plus one if the slot was empty at
    the start. *)
Lemma run_made sv uses :
  forall self w,
    (made_for sv (snd (run uses self w))
     <= made_for sv w + resets uses
        + match slot sv self with None => 1 | Some _ => 0 end)%nat.
Proof.
  induction uses as [| [sv' |] rest IH]; intros self w.
  - change (resets []) with 0%nat. cbn [run snd]. lia.
  - cbn [run].
    pose proof (get_spec sv' self w) as Hget.
    pose proof (get_slot sv' self w sv) as Hslot.
    destruct (get sv' self w) as [[c self1] w1] eqn:Hrun. cbn [fst snd] in *.
    specialize (IH self1 w1).
    destruct (run rest self1 w1) as [[cs self2] w2]. cbn [snd] in *.
    change (resets (Get sv' :: rest)) with (resets rest).
    destruct (slot sv' self) as [kept |] eqn:Hkept.
    + injection Hget as -> -> ->.
      destruct (service_eqb sv sv') eqn:Heq.
      * assert (sv = sv') by (destruct sv, sv'; cbn in Heq; congruence). subst sv'.
        rewrite Hslot in IH. rewrite Hkept. lia.
      * try rewrite Hslot in IH. lia.
    + cbv zeta in Hget. injection Hget as -> ->.
      rewrite made_for_app, made_for_one in IH. cbn [client_service] in IH.
      destruct (service_eqb sv sv') eqn:Heq.
      * assert (sv = sv') by (destruct sv, sv'; cbn in Heq; congruence). subst sv'.
        rewrite Hslot in IH. rewrite Heq in IH. rewrite Hkept. lia.
      * assert (Hne : service_eqb sv' sv = false)
          by (destruct sv, sv'; cbn in *; congruence).
        rewrite Hne in IH. rewrite Hslot in IH. lia.
  - cbn [run]. specialize (IH (reset self) w).
    change (resets (Reset :: rest)) with (S (resets rest)).
    assert (Hnone : slot sv (reset self) = None) by now destruct sv.
    rewrite Hnone in IH. destruct (slot sv self); lia.
Qed.

(** X27.  [Boto3Clients] makes a client on first use and keeps it: two
    reads of a property with no [reset] between them return the same
    client and the second makes none; over any sequence of reads and
    resets on a new object, the clients made for one service are at most
    one more than the resets; and every client is made with the region of
    the settings and ten attempts in standard mode. *)
Theorem boto3_clients_cached settings sv uses :
  let fresh := new_Boto3Clients settings in
  (forall self w,
     let '(first, self1, w1) := get sv self w in
     get sv self1 w1 = (first, self1, w1))
  /\ (made_for sv (snd (run uses fresh [])) <= resets uses + 1)%nat
  /\ (forall c,
        In c (snd (run uses fresh [])) ->
        client_config c
        = {| region_name := ProjectSettings.AWS_REGION settings;
             max_attempts := 10; mode := "standard" |}).
Proof.
  cbv zeta. split; [| split].
  - intros self w.
    pose proof (get_slot sv self w sv) as Hslot.
    destruct (get sv self w) as [[first self1] w1]. cbn [fst snd] in Hslot.
    assert (Hrefl : service_eqb sv sv = true) by now destruct sv.
    rewrite Hrefl in Hslot. rewrite get_spec, Hslot. reflexivity.
  - pose proof (run_made sv uses (new_Boto3Clients settings) []) as H.
    assert (Hnone : slot sv (new_Boto3Clients settings) = None) by now destruct sv.
    rewrite Hnone in H. cbn in H. lia.
  - assert (Hall : forall uses self w,
              (forall c, In c w -> client_config c = config self) ->
              forall c, In c (snd (run uses self w)) -> client_config c = config self).
    { clear uses. induction uses as [| [sv' |] rest IH]; intros self w Hw c.
      - cbn. apply Hw.
      - cbn [run].
        pose proof (get_spec sv' self w) as Hget.
        pose proof (get_config sv' self w) as Hcfg.
        destruct (get sv' self w) as [[c1 self1] w1] eqn:Hrun. cbn [fst snd] in *.
        specialize (IH self1 w1).
        destruct (run rest self1 w1) as [[cs self2] w2]. cbn [snd] in *.
        rewrite Hcfg in IH. apply IH.
        destruct (slot sv' self).
        + injection Hget as _ _ ->. exact Hw.
        + cbv zeta in Hget. injection Hget as _ ->.
          intros c' Hin. apply in_app_or in Hin as [Hin | [<- | []]];
            [now apply Hw | reflexivity].
      - cbn [run]. apply (IH (reset self) w). exact Hw. }
    intros c Hin.
    apply (Hall uses (new_Boto3Clients settings) [] (fun c H => match H with end) c Hin).
Qed.

Example boto3_clients_run :
  let '(returned, _, made) :=
    run [Get s3; Get s3; Get sqs; Reset; Get s3]
      (new_Boto3Clients ProjectSettings.example_settings) [] in
  List.map call returned = [0; 0; 1; 2]%nat
  /\ List.map client_service made = [s3; sqs; s3].
Proof. split; reflexivity. Qed.

End Aws.

(** ** [infrastructure/stacks/shared.py] *)

Module SharedStack.

(** [aws_secretsmanager.Secret] and [CfnOutput], as the stack fills
    them; [SecretValue(None)] is [None]. *)
Record Secret := {
  secret_id : string;
  secret_description : string;
  secret_name : string;
  secret_object_value : list (string * option string)
}.

Record CfnOutput := {
  output_id : string;
  output_of : Secret;
  output_description : string;
  export_name : string
}.

Record SharedStack := {
  sentry_dsn_secret : Secret;
  sentry_dsn_secret_output : CfnOutput
}.

Definition SharedStack_init (settings : ProjectSettings.Settings) : SharedStack :=
  let sentry_dsn_secret :=
    {| secret_id := "Sentry DSN Secret";
       secret_description := "Sentry DSN for shared resources";
       secret_name :=
         ProjectSettings.PROJECT_SLUG settings ++ "-shared-resources-sentry-dsn";
       secret_object_value := [("dsn", None)] |} in
  {| sentry_dsn_secret := sentry_dsn_secret;
     sentry_dsn_secret_output :=
       {| output_id := "Sentry DSN Secret ARN Output";
          output_of := sentry_dsn_secret;
          output_description := "Sentry DSN to be used across all environments";
          export_name :=
            ProjectSettings.PROJECT_SLUG settings ++ "-shared-resources-sentry-dsn" |} |}.

(** X28.  The secret the settings read the Sentry DSN from is the secret
    the shared stack creates: whenever [SENTRY_DSN] asks for a secret, it
    asks once, for the name the stack gives its secret (which is also the
    name the stack exports its ARN under), and the key it reads, "dsn",
    is the one key of the stack's secret object. *)
Theorem sentry_dsn_secret_shared os_environ ENV_FILES (HttpUrl : Type) HttpUrl_new
    get_secret settings :
  let stack := SharedStack_init settings in
  let asked :=
    snd (ProjectSettings.SENTRY_DSN os_environ ENV_FILES HttpUrl HttpUrl_new get_secret
           settings) in
  (asked = [] \/ asked = [secret_name (sentry_dsn_secret stack)])
  /\ export_name (sentry_dsn_secret_output stack)
     = secret_name (sentry_dsn_secret stack)
  /\ output_of (sentry_dsn_secret_output stack) = sentry_dsn_secret stack
  /\ List.map fst (secret_object_value (sentry_dsn_secret stack)) = ["dsn"].
Proof.
  cbv zeta. split; [| repeat split].
  unfold ProjectSettings.SENTRY_DSN.
  destruct (ProjectSettings.get_env_value os_environ ENV_FILES "SENTRY_DSN") as [v |].
  - destruct (ProjectSettings.is_null_like v); now left.
  - destruct (String.eqb _ "testing"); [now left | right].
    cbn [snd]. rewrite ProjectSettings.join_three. reflexivity.
Qed.

End SharedStack.
